(** * The HAN trainer flow of OpenHGNN (openhgnn/trainerflow/han_trainer.py)

    A shallow embedding of the training / evaluation controller [HAN]:
    construction, the epoch loop with early stopping, the full-batch and
    mini-batch train, test and prediction steps.

    Conventions.
    - Python [float] scalars (losses) are exact rationals [Q]; equality of
      computed losses is [Qeq] where arithmetic is rearranged.
    - [self] is the record [HAN]; methods are computations in the monad [M],
      which threads [self] and raises Python exceptions.
    - The model, the loss, the optimizer, the sampler / data loaders and the
      evaluator are external to this file: they are the fields of the
      class [Backend].
    - A data loader built with [shuffle=True] draws its batch sequence from
      the random source [rng] held in the state, once per traversal.
    - [log] is a ghost list of the observable steps, in program order. *)

From Stdlib Require Import QArith ZArith.
From stdpp Require Import gmap strings list.

(** ** Exceptions *)

Inductive Exn : Type :=
| NameError (name : string)
| AttributeError (name : string)
| KeyError (key : string)
| IndexError
| ZeroDivisionError
| RuntimeError (msg : string).

Inductive outcome (A : Type) : Type :=
| Ok (a : A)
| Raise (e : Exn).
Arguments Ok {A} a.
Arguments Raise {A} e.

Definition is_ok {A : Type} (o : outcome A) : bool :=
  match o with Ok _ => true | Raise _ => false end.

(** the value of an outcome, [d] if it is an exception *)
Definition value_of {A : Type} (o : outcome A) (d : A) : A :=
  match o with Ok a => a | Raise _ => d end.

(** ** Tensors, batches, configuration *)

Definition node := nat.
Definition Row := list Q.
Definition Label := nat.

(** One item yielded by a data loader:
    [(input_nodes_dict, seeds[category], block_dict)]. *)
Record Batch (Block : Type) : Type := mkBatch {
  input_nodes_dict : list (string * list node);
  seeds : list node;
  block_dict : list (string * Block)
}.
Arguments mkBatch {Block} _ _ _.
Arguments input_nodes_dict {Block} _.
Arguments seeds {Block} _.
Arguments block_dict {Block} _.

Record Args : Type := mkArgs {
  out_dim : Z;
  mini_batch_flag : bool;
  test_flag : bool;
  prediction_flag : bool;
  patience : Z;
  batch_size : Z;
  optimizer_name : string;
  lr : Q;
  weight_decay : Q;
  dataset : string;
  (** read by [BaseFlow.__init__] (not under src/) into [self.max_epoch]
      and [self.evaluate_interval] *)
  arg_max_epoch : Z;
  arg_evaluate_interval : Z
}.

Definition set_out_dim (a : Args) (d : Z) : Args :=
  mkArgs d (mini_batch_flag a) (test_flag a) (prediction_flag a) (patience a)
         (batch_size a) (optimizer_name a) (lr a) (weight_decay a) (dataset a)
         (arg_max_epoch a) (arg_evaluate_interval a).

(** [self.task] and [self.task.dataset], as far as the flow reads them.
    [ds_out_dim] and [ds_pred_idx] are [None] when the attribute is absent. *)
Record Task : Type := mkTask {
  ds_num_classes : Z;
  ds_out_dim : option Z;
  ds_pred_idx : option (list node);
  ds_num_nodes : nat;
  task_split : list node * list node * list node;
  task_labels : list Label
}.

(** [x[idx]]: indexing a tensor by a tensor of positions; out of range is an
    [IndexError]. *)
Definition gather {A : Type} (x : list A) (idx : list node) : option (list A) :=
  mapM (fun i => x !! i) idx.

(** [row.argmax()]: position of the first maximal entry. *)
Fixpoint argmax_from (best : nat) (bv : Q) (i : nat) (r : list Q) : nat :=
  match r with
  | [] => best
  | v :: r' => if Qlt_le_dec bv v then argmax_from i v (S i) r'
               else argmax_from best bv (S i) r'
  end.

Definition argmax (r : Row) : nat :=
  match r with
  | [] => 0
  | v :: r' => argmax_from 0 v 1 r'
  end.

(** ** External collaborators *)

Class Backend : Type := {
  Params : Type;
  Opt : Type;
  Grad : Type;
  Block : Type;
  Score : Type;
  Rng : Type;
  (** [self.model(self.hg, self.model.input_feature())[category]] *)
  forward_full : Params -> bool -> list Row;
  (** [self.model(block_dict, emb_dict)[category]], with [emb_dict] looked
      up from the batch's input nodes *)
  forward_batch : Params -> bool -> Batch Block -> list Row;
  loss_fn : list Row -> list Label -> Q;
  (** [loss.backward()] on the full graph and on one batch *)
  backward_full : Params -> list node -> list Label -> Grad;
  backward_batch : Params -> Batch Block -> list Label -> Grad;
  (** [self.optimizer.step()] *)
  optimizer_step : Opt -> Params -> Grad -> Params * Opt;
  (** [self.task.get_evaluator(name='f1')] *)
  evaluator : list Label -> list nat -> Score;
  (** [build_model(..).build_model_from_args(args, hg)] *)
  build_model_from_args : Args -> Params;
  (** [self.candidate_optimizer[name](params, lr=.., weight_decay=..)] *)
  candidate_optimizer : string -> option (Params -> Q -> Q -> Opt);
  (** [dgl.dataloading.DataLoader(hg, {category: idx}, sampler,
      batch_size=.., shuffle=True)]: one traversal consumes randomness *)
  data_loader : list node -> Z -> Rng -> list (Batch Block) * Rng;
  (** [BaseFlow.preprocess] *)
  base_preprocess : Params -> Params;
  initial_rng : Rng
}.

Section FlowMonad.
Context `{B : Backend}.

Definition Loader : Type := Rng -> list (Batch Block) * Rng.

(** ** Observable steps *)

Inductive Event : Type :=
| EvInfo (msg : string)
| EvBuildModel (a : Args)
| EvEpoch (epoch : Z)
| EvForward (p : Params) (training : bool)
| EvUpdate (loss : Q)
| EvBatchLoss (loss : Q)
| EvEvaluator (mode : string) (y_true : list Label) (y_pred : list nat)
| EvTrainInfo (epoch : Z) (train_loss val_loss : Q)
| EvLossStep (val_loss : Q) (p : Params) (stop : bool)
| EvEarlyStop (epoch : Z)
| EvLoadModel (p : Params)
| EvPredict
| EvTestInfo
| EvSaveResults (logits : list Row).

(** ** The flow object *)

Record HAN : Type := mkHAN {
  args : Args;
  num_classes : Z;
  num_nodes : nat;
  model : Params;
  training : bool;
  optimizer : Opt;
  train_idx : list node;
  valid_idx : list node;
  test_idx : list node;
  pred_idx : option (list node);
  labels : list Label;
  train_loader : option Loader;
  val_loader : option Loader;
  test_loader : option Loader;
  pred_loader : option Loader;
  max_epoch : Z;
  evaluate_interval : Z;
  rng : Rng;
  log : list Event
}.

Definition set_model (p : Params) (s : HAN) : HAN :=
  mkHAN (args s) (num_classes s) (num_nodes s) p (training s) (optimizer s)
        (train_idx s) (valid_idx s) (test_idx s) (pred_idx s) (labels s)
        (train_loader s) (val_loader s) (test_loader s) (pred_loader s)
        (max_epoch s) (evaluate_interval s) (rng s) (log s).

Definition set_training (b : bool) (s : HAN) : HAN :=
  mkHAN (args s) (num_classes s) (num_nodes s) (model s) b (optimizer s)
        (train_idx s) (valid_idx s) (test_idx s) (pred_idx s) (labels s)
        (train_loader s) (val_loader s) (test_loader s) (pred_loader s)
        (max_epoch s) (evaluate_interval s) (rng s) (log s).

Definition set_optimizer (o : Opt) (s : HAN) : HAN :=
  mkHAN (args s) (num_classes s) (num_nodes s) (model s) (training s) o
        (train_idx s) (valid_idx s) (test_idx s) (pred_idx s) (labels s)
        (train_loader s) (val_loader s) (test_loader s) (pred_loader s)
        (max_epoch s) (evaluate_interval s) (rng s) (log s).

Definition set_rng (r : Rng) (s : HAN) : HAN :=
  mkHAN (args s) (num_classes s) (num_nodes s) (model s) (training s)
        (optimizer s)
        (train_idx s) (valid_idx s) (test_idx s) (pred_idx s) (labels s)
        (train_loader s) (val_loader s) (test_loader s) (pred_loader s)
        (max_epoch s) (evaluate_interval s) r (log s).

Definition set_log (l : list Event) (s : HAN) : HAN :=
  mkHAN (args s) (num_classes s) (num_nodes s) (model s) (training s)
        (optimizer s)
        (train_idx s) (valid_idx s) (test_idx s) (pred_idx s) (labels s)
        (train_loader s) (val_loader s) (test_loader s) (pred_loader s)
        (max_epoch s) (evaluate_interval s) (rng s) l.

(** ** The flow monad: state [HAN], exceptions [Exn] *)

Definition M (A : Type) : Type := HAN -> outcome (A * HAN).

Definition ret {A : Type} (a : A) : M A := fun s => Ok (a, s).

Definition bind {A C : Type} (m : M A) (k : A -> M C) : M C :=
  fun s => match m s with
           | Ok (a, s') => k a s'
           | Raise e => Raise e
           end.

Definition raise {A : Type} (e : Exn) : M A := fun _ => Raise e.
Definition get : M HAN := fun s => Ok (s, s).
Definition modify (f : HAN -> HAN) : M unit := fun s => Ok (tt, f s).
Definition emit (e : Event) : M unit := modify (fun s => set_log (log s ++ [e]) s).

(** [self.<name>] for an attribute that exists only in some configurations *)
Definition getattr {A : Type} (f : HAN -> option A) (name : string) : M A :=
  fun s => match f s with
           | Some a => Ok (a, s)
           | None => Raise (AttributeError name)
           end.

(** a local variable that is bound only on some paths *)
Definition local {A : Type} (v : option A) (name : string) : M A :=
  match v with
  | Some a => ret a
  | None => raise (NameError name)
  end.

End FlowMonad.

Declare Scope flow_scope.
Delimit Scope flow_scope with flow.
Bind Scope flow_scope with M.
Notation "x <- m ;; k" := (bind m (fun x => k))
  (at level 20, m at level 99, k at level 200, only parsing) : flow_scope.
Notation "' p <- m ;; k" := (bind m (fun p => k))
  (at level 20, p pattern, m at level 99, k at level 200, only parsing)
  : flow_scope.
Notation "m ;; k" := (bind m (fun _ => k))
  (at level 100, k at level 200, right associativity, only parsing)
  : flow_scope.
Open Scope flow_scope.

Section Flow.
Context `{B : Backend}.

(** [x[idx]] inside the flow *)
Definition index {A : Type} (x : list A) (idx : list node) : M (list A) :=
  match gather x idx with
  | Some r => ret r
  | None => raise IndexError
  end.

(** [torch.cat(parts, dim=0)]: refuses an empty list of tensors *)
Definition cat {A : Type} (parts : list (list A)) : M (list A) :=
  match parts with
  | [] => raise (RuntimeError "torch.cat(): expected a non-empty list of Tensors")
  | _ => ret (concat parts)
  end.

(** [for i, x in enumerate(xs)]: [acc] holds the locals the body assigns;
    the second component is the last value of [i], if the body ran. *)
Fixpoint for_enum {A L : Type} (body : L -> nat -> A -> M L)
    (acc : L) (i : nat) (last : option nat) (xs : list A) : M (L * option nat) :=
  match xs with
  | [] => ret (acc, last)
  | x :: xs' => acc' <- body acc i x ;; for_enum body acc' (S i) (Some i) xs'
  end.

(** one traversal of a data loader *)
Definition iterate (ld : Loader) : M (list (Batch Block)) :=
  s <- get ;;
  let '(bs, r) := ld (rng s) in
  modify (set_rng r) ;; ret bs.

Definition call_model_full : M (list Row) :=
  s <- get ;;
  emit (EvForward (model s) (training s)) ;;
  ret (forward_full (model s) (training s)).

Definition call_model_batch (b : Batch Block) : M (list Row) :=
  s <- get ;;
  emit (EvForward (model s) (training s)) ;;
  ret (forward_batch (model s) (training s) b).

(** [optimizer.zero_grad(); loss.backward(); optimizer.step()] *)
Definition apply_gradient (g : Grad) (loss : Q) : M unit :=
  s <- get ;;
  let '(p, o) := optimizer_step (optimizer s) (model s) g in
  modify (fun s => set_optimizer o (set_model p s)) ;;
  emit (EvUpdate loss).

(** ** Training steps *)

Definition _full_train_step : M Q :=
  modify (set_training true) ;;
  logits <- call_model_full ;;
  s <- get ;;
  lg <- index logits (train_idx s) ;;
  lb <- index (labels s) (train_idx s) ;;
  let loss := loss_fn lg lb in
  apply_gradient (backward_full (model s) (train_idx s) lb) loss ;;
  ret loss.

Definition train_batch (loss_all : Q) (i : nat) (b : Batch Block) : M Q :=
  s <- get ;;
  lbl <- index (labels s) (seeds b) ;;
  logits <- call_model_batch b ;;
  let loss := loss_fn logits lbl in
  let loss_all := (loss_all + loss)%Q in
  apply_gradient (backward_batch (model s) b lbl) loss ;;
  ret loss_all.

Definition _mini_train_step : M Q :=
  modify (set_training true) ;;
  ld <- getattr train_loader "train_loader" ;;
  batches <- iterate ld ;;
  '(loss_all, i) <- for_enum train_batch 0%Q 0 None batches ;;
  i <- local i "i" ;;
  ret (loss_all / inject_Z (Z.of_nat i + 1))%Q.

(** ** Evaluation steps *)

(** [d[k] = v] on an insertion-ordered Python dict *)
Fixpoint dict_set {V : Type} (d : list (string * V)) (k : string) (v : V)
    : list (string * V) :=
  match d with
  | [] => [(k, v)]
  | (k', v') :: d' =>
      if String.eqb k' k then (k', v) :: d' else (k', v') :: dict_set d' k v
  end.

(** [{key: f(key, value) for key, value in d.items()}] *)
Fixpoint dict_comp {V W : Type} (f : string -> V -> M W)
    (items : list (string * V)) (acc : gmap string W) : M (gmap string W) :=
  match items with
  | [] => ret acc
  | (k, v) :: items' => w <- f k v ;; dict_comp f items' (<[k := w]> acc)
  end.

(** The split a mode name stands for. *)
Definition mask_of (s : HAN) (mode : string) : option (list node) :=
  if String.eqb mode "train" then Some (train_idx s)
  else if String.eqb mode "valid" then Some (valid_idx s)
  else if String.eqb mode "test" then Some (test_idx s)
  else None.

(** Modelled from the spec: [task.evaluate(logits, mode=key)] of the task
    object (openhgnn/tasks, not under src/).  The spec (4.5, full-batch):
    the score of a split is computed by indexing the shared output and the
    label vector with that split's index set and handing the pair to the
    injected evaluator. *)
Definition task_evaluate (logits : list Row) (mode : string) : M Score :=
  s <- get ;;
  match mask_of s mode with
  | None => raise (KeyError mode)
  | Some mask =>
      lg <- index logits mask ;;
      lb <- index (labels s) mask ;;
      ret (evaluator lb (argmax <$> lg))
  end.

(** The masks dict built by the loop over [modes]. *)
Definition build_masks (s : HAN) (modes : list string)
    : list (string * list node) :=
  foldl (fun masks mode =>
           match mask_of s mode with
           | Some idx => dict_set masks mode idx
           | None => masks
           end) [] modes.

(** [_full_test_step(modes)], called with the default [logits=None]. *)
Definition _full_test_step (modes : list string)
    : M (gmap string Score * gmap string Q) :=
  modify (set_training false) ;;
  logits <- call_model_full ;;
  s <- get ;;
  let masks := build_masks s modes in
  metric_dict <- dict_comp (fun key _ => task_evaluate logits key) masks ∅ ;;
  loss_dict <- dict_comp (fun _ mask =>
                            lg <- index logits mask ;;
                            lb <- index (labels s) mask ;;
                            ret (loss_fn lg lb)) masks ∅ ;;
  ret (metric_dict, loss_dict).

(** Locals of [_mini_test_step] that live across the loop over [modes]. *)
Record TestLocals : Type := mkTestLocals {
  metric_dict : gmap string Score;
  loss_dict : gmap string Q;
  loss_all : Q;
  var_i : option nat;
  var_loss : option Q;
  loader_tqdm : option Loader
}.

(** Locals assigned by the loop over the batches of one mode. *)
Record BatchLocals : Type := mkBatchLocals {
  b_loss_all : Q;
  b_loss : option Q;
  y_trues : list (list Label);
  y_predicts : list (list Row)
}.

Definition test_batch (a : BatchLocals) (i : nat) (b : Batch Block)
    : M BatchLocals :=
  logits <- call_model_batch b ;;
  s <- get ;;
  lbl <- index (labels s) (seeds b) ;;
  let loss := loss_fn logits lbl in
  emit (EvBatchLoss loss) ;;
  ret (mkBatchLocals (b_loss_all a + loss)%Q (Some loss)
                     (y_trues a ++ [lbl]) (y_predicts a ++ [logits])).

Definition select_loader (l : TestLocals) (mode : string) : M (option Loader) :=
  if String.eqb mode "train" then
    ld <- getattr train_loader "train_loader" ;; ret (Some ld)
  else if String.eqb mode "valid" then
    ld <- getattr val_loader "val_loader" ;; ret (Some ld)
  else if String.eqb mode "test" then
    ld <- getattr test_loader "test_loader" ;; ret (Some ld)
  else ret (loader_tqdm l).

Definition test_mode (l : TestLocals) (mode : string) : M TestLocals :=
  cur <- select_loader l mode ;;
  ld <- local cur "loader_tqdm" ;;
  batches <- iterate ld ;;
  '(a, last) <- for_enum test_batch
                  (mkBatchLocals (loss_all l) (var_loss l) [] []) 0 (var_i l)
                  batches ;;
  i <- local last "i" ;;
  let loss_all' := (b_loss_all a / inject_Z (Z.of_nat i + 1))%Q in
  yt <- cat (y_trues a) ;;
  yp <- cat (y_predicts a) ;;
  let y_hat := argmax <$> yp in
  emit (EvEvaluator mode yt y_hat) ;;
  loss <- local (b_loss a) "loss" ;;
  ret (mkTestLocals (<[mode := evaluator yt y_hat]> (metric_dict l))
                    (<[mode := loss]> (loss_dict l))
                    loss_all' (Some i) (Some loss) cur).

Fixpoint for_modes (l : TestLocals) (modes : list string) : M TestLocals :=
  match modes with
  | [] => ret l
  | mode :: modes' => l' <- test_mode l mode ;; for_modes l' modes'
  end.

Definition _mini_test_step (modes : list string)
    : M (gmap string Score * gmap string Q) :=
  modify (set_training false) ;;
  l <- for_modes (mkTestLocals ∅ ∅ 0%Q None None None) modes ;;
  ret (metric_dict l, loss_dict l).

(** ** Prediction steps *)

Definition _full_prediction_step : M (list Row) :=
  modify (set_training false) ;;
  call_model_full.

Definition predict_batch (a : list (list node) * list (list Row)) (i : nat)
    (b : Batch Block) : M (list (list node) * list (list Row)) :=
  logits <- call_model_batch b ;;
  ret (a.1 ++ [seeds b], a.2 ++ [logits]).

Definition _mini_prediction_step : M (list node * list Row) :=
  modify (set_training false) ;;
  ld <- getattr pred_loader "pred_loader" ;;
  batches <- iterate ld ;;
  '(a, _) <- for_enum predict_batch ([], []) 0 None batches ;;
  indices <- cat a.1 ;;
  y_predicts <- cat a.2 ;;
  ret (indices, y_predicts).

(** ** Early stopping *)

Inductive StopState : Type := WATCHING | STOPPED.

Record EarlyStopping : Type := mkStopper {
  es_patience : Z;
  es_state : StopState;
  best_loss : option Q;
  counter : Z;
  best_checkpoint : option Params
}.

(** Modelled from the spec: [EarlyStopping(patience, checkpoint)] of
    openhgnn/utils (not under src/).  Spec 4.7: initial state WATCHING,
    best loss +infinity (here [None]), counter 0, nothing persisted. *)
Definition new_stopper (patience : Z) : EarlyStopping :=
  mkStopper patience WATCHING None 0 None.

Definition improves (v : Q) (best : option Q) : bool :=
  match best with
  | None => true
  | Some b => if Qlt_le_dec v b then true else false
  end.

Definition is_stopped (st : StopState) : bool :=
  match st with STOPPED => true | WATCHING => false end.

(** Modelled from the spec: [stopper.loss_step(loss, model)] of
    openhgnn/utils (not under src/).  Spec 4.7: if [v < best_loss] then the
    best loss becomes [v], the counter 0 and the current parameters are
    persisted as the best checkpoint; otherwise the counter is incremented
    and the stopper is STOPPED once the counter reaches the patience.  The
    result tells whether the stopper is STOPPED. *)
Definition loss_step (st : EarlyStopping) (v : Q) (p : Params)
    : EarlyStopping * bool :=
  if improves v (best_loss st) then
    (mkStopper (es_patience st) (es_state st) (Some v) 0 (Some p),
     is_stopped (es_state st))
  else
    let c := (counter st + 1)%Z in
    let st' := if (es_patience st <=? c)%Z then STOPPED else es_state st in
    (mkStopper (es_patience st) st' (best_loss st) c (best_checkpoint st),
     is_stopped st').

(** Modelled from the spec: [stopper.load_model(model)] of openhgnn/utils
    (not under src/).  Spec 4.7: the persisted best checkpoint is restored
    into the model; with nothing persisted there is nothing to restore. *)
Definition load_model (st : EarlyStopping) (p : Params) : Params :=
  match best_checkpoint st with
  | Some c => c
  | None => p
  end.

(** ** The epoch loop *)

(** [self.args.mini_batch_flag and hasattr(self, 'val_loader')] *)
Definition use_mini (s : HAN) : bool :=
  mini_batch_flag (args s) && bool_decide (is_Some (val_loader s)).

Definition test_step (modes : list string)
    : M (gmap string Score * gmap string Q) :=
  s <- get ;;
  if use_mini s then _mini_test_step modes else _full_test_step modes.

Definition epoch_modes (s : HAN) : list string :=
  ["train"; "valid"] ++ (if test_flag (args s) then ["test"] else []).

(** One iteration of [for epoch in epoch_iter]; the boolean is [break]. *)
Definition epoch_body (stopper : EarlyStopping) (epoch : Z)
    : M (EarlyStopping * bool) :=
  emit (EvEpoch epoch) ;;
  s <- get ;;
  train_loss <- (if mini_batch_flag (args s) then _mini_train_step
                 else _full_train_step) ;;
  s <- get ;;
  if (evaluate_interval s =? 0)%Z then raise ZeroDivisionError
  else if (epoch `mod` evaluate_interval s =? 0)%Z then
    '(metric_dict, losses) <- test_step (epoch_modes s) ;;
    val_loss <- match losses !! "valid" with
                | Some v => ret v
                | None => raise (KeyError "valid")
                end ;;
    emit (EvTrainInfo epoch train_loss val_loss) ;;
    s <- get ;;
    let '(stopper', early_stop) := loss_step stopper val_loss (model s) in
    emit (EvLossStep val_loss (model s) early_stop) ;;
    if early_stop then emit (EvEarlyStop epoch) ;; ret (stopper', true)
    else ret (stopper', false)
  else ret (stopper, false).

Fixpoint epoch_loop (stopper : EarlyStopping) (last : option Z)
    (epochs : list Z) : M (EarlyStopping * option Z) :=
  match epochs with
  | [] => ret (stopper, last)
  | epoch :: rest =>
      '(stopper', brk) <- epoch_body stopper epoch ;;
      if brk : bool then ret (stopper', Some epoch)
      else epoch_loop stopper' (Some epoch) rest
  end.

(** [range(self.max_epoch)] *)
Definition epoch_range (n : Z) : list Z := Z.of_nat <$> seq 0 (Z.to_nat n).

Inductive TrainResult : Type :=
| Prediction (indices : list node) (y_predicts : list Row)
| Report (metric : gmap string Score) (epoch : Z)
| NoResult.

(** What follows [stopper.load_model(self.model)] in [train]. *)
Definition finish (epoch : option Z) : M TrainResult :=
  s <- get ;;
  if prediction_flag (args s) then
    emit EvPredict ;;
    if use_mini s then
      '(indices, y) <- _mini_prediction_step ;; ret (Prediction indices y)
    else
      y <- _full_prediction_step ;;
      ret (Prediction (seq 0 (num_nodes s)) y)
  else if test_flag (args s) then
    if String.eqb (String.substring 0 4 (dataset (args s))) "HGBn" then
      '(metric_dict, _) <- test_step ["valid"] ;;
      emit EvTestInfo ;;
      modify (set_training false) ;;
      logits <- call_model_full ;;
      emit (EvSaveResults logits) ;;
      epoch <- local epoch "epoch" ;;
      ret (Report metric_dict epoch)
    else
      '(metric_dict, _) <- test_step ["valid"; "test"] ;;
      emit EvTestInfo ;;
      epoch <- local epoch "epoch" ;;
      ret (Report metric_dict epoch)
  else ret NoResult.

Definition train : M TrainResult :=
  modify (fun s => set_model (base_preprocess (model s)) s) ;;
  s <- get ;;
  let stopper := new_stopper (patience (args s)) in
  '(stopper, epoch) <- epoch_loop stopper None (epoch_range (max_epoch s)) ;;
  s <- get ;;
  let restored := load_model stopper (model s) in
  modify (set_model restored) ;;
  emit (EvLoadModel restored) ;;
  finish epoch.

(** ** Construction *)

Definition out_dim_mismatch (a : Args) (t : Task) : bool :=
  match ds_out_dim t with
  | None => true
  | Some _ => negb (out_dim a =? ds_num_classes t)%Z
  end.

Definition init (a : Args) (t : Task) : outcome HAN :=
  let num_classes := ds_num_classes t in
  let mismatch := out_dim_mismatch a t in
  let log0 := if mismatch
              then [EvInfo "[NC Specific] Modify the out_dim with num_classes"]
              else [] in
  let a := if mismatch then set_out_dim a num_classes else a in
  let model := build_model_from_args a in
  let log1 := log0 ++ [EvBuildModel a] in
  match candidate_optimizer (optimizer_name a) with
  | None => Raise (KeyError (optimizer_name a))
  | Some make =>
      let opt := make model (lr a) (weight_decay a) in
      let '(train_idx, valid_idx, test_idx) := task_split t in
      let pred := if prediction_flag a then
                    match ds_pred_idx t with
                    | Some p => Ok (Some p)
                    | None => Raise (AttributeError "pred_idx")
                    end
                  else Ok None in
      match pred with
      | Raise e => Raise e
      | Ok pred_idx =>
          let mini := mini_batch_flag a in
          let mk idx : Loader := data_loader idx (batch_size a) in
          Ok (mkHAN a num_classes (ds_num_nodes t) model true opt
                    train_idx valid_idx test_idx pred_idx (task_labels t)
                    (if mini then Some (mk train_idx) else None)
                    (if mini then Some (mk valid_idx) else None)
                    (if mini && test_flag a then Some (mk test_idx) else None)
                    (if mini && prediction_flag a
                     then mk <$> pred_idx else None)
                    (arg_max_epoch a) (arg_evaluate_interval a)
                    initial_rng log1)
      end
  end.

End Flow.

Arguments HAN : clear implicits.
Arguments Event : clear implicits.
Arguments EarlyStopping : clear implicits.
Arguments TrainResult : clear implicits.

(** ** Vocabulary of the statements *)

Definition Qsum (l : list Q) : Q := foldr Qplus 0%Q l.

(** unweighted arithmetic mean *)
Definition Qmean (l : list Q) : Q :=
  (Qsum l / inject_Z (Z.of_nat (length l)))%Q.

(** the per-batch losses of the optimizer updates recorded in a log *)
Definition update_losses `{B : Backend} (evs : list (Event B)) : list Q :=
  omap (fun e => match e with EvUpdate l => Some l | _ => None end) evs.

(** the evaluator invocations recorded in a log *)
Definition evaluator_calls `{B : Backend} (evs : list (Event B))
    : list (string * list Label * list nat) :=
  omap (fun e => match e with
                 | EvEvaluator mode yt yp => Some (mode, yt, yp)
                 | _ => None
                 end) evs.

(** the per-batch losses of the evaluation batches recorded in a log *)
Definition batch_losses `{B : Backend} (evs : list (Event B)) : list Q :=
  omap (fun e => match e with EvBatchLoss l => Some l | _ => None end) evs.

Section Vocabulary.
Context `{B : Backend}.

(** The loader a mode traverses in [_mini_test_step]; [cur] is the loader
    of the previous mode. *)
Definition loader_for (s : HAN B) (cur : option Loader) (mode : string)
    : option Loader :=
  if String.eqb mode "train" then train_loader s
  else if String.eqb mode "valid" then val_loader s
  else if String.eqb mode "test" then test_loader s
  else cur.

(** The batch sequences the loaders yield, one traversal per requested
    mode, drawing from the random source [r] in the order of [modes]. *)
Fixpoint passes (s : HAN B) (cur : option Loader) (r : Rng)
    (modes : list string) : option (list (string * list (Batch Block))) :=
  match modes with
  | [] => Some []
  | mode :: modes' =>
      match loader_for s cur mode with
      | None => None
      | Some ld =>
          match passes s (Some ld) (ld r).2 modes' with
          | None => None
          | Some ps => Some ((mode, (ld r).1) :: ps)
          end
      end
  end.

(** Per-batch outputs, labels and losses of one traversal, in yield
    order, for parameters [p] in evaluation mode. *)
Definition pass_logits (p : Params) (bs : list (Batch Block))
    : list (list Row) :=
  forward_batch p false <$> bs.

Definition pass_labels (lbls : list Label) (bs : list (Batch Block))
    : list (list Label) :=
  (fun b => default [] (gather lbls (seeds b))) <$> bs.

Definition pass_losses (p : Params) (lbls : list Label)
    (bs : list (Batch Block)) : list Q :=
  zip_with loss_fn (pass_logits p bs) (pass_labels lbls bs).

(** the evaluator applied once to the concatenated labels and predictions *)
Definition pass_score (p : Params) (lbls : list Label)
    (bs : list (Batch Block)) : Score :=
  evaluator (concat (pass_labels lbls bs))
            (argmax <$> concat (pass_logits p bs)).

(** the loss of the last batch of a traversal *)
Definition pass_last_loss (p : Params) (lbls : list Label)
    (bs : list (Batch Block)) : Q :=
  default 0%Q (last (pass_losses p lbls bs)).

Definition pass_events (p : Params) (lbls : list Label)
    (mode : string) (bs : list (Batch Block)) : list (Event B) :=
  flat_map (fun l => [EvForward p false; EvBatchLoss l])
           (pass_losses p lbls bs)
  ++ [EvEvaluator mode (concat (pass_labels lbls bs))
                  (argmax <$> concat (pass_logits p bs))].

(** the dicts [_mini_test_step] fills from the traversals [ps] *)
Definition fill_metrics (p : Params) (lbls : list Label)
    (d : gmap string Score) (ps : list (string * list (Batch Block)))
    : gmap string Score :=
  foldl (fun d q => <[q.1 := pass_score p lbls q.2]> d) d ps.

Definition fill_losses (p : Params) (lbls : list Label)
    (d : gmap string Q) (ps : list (string * list (Batch Block)))
    : gmap string Q :=
  foldl (fun d q => <[q.1 := pass_last_loss p lbls q.2]> d) d ps.

Definition passes_events (p : Params) (lbls : list Label)
    (ps : list (string * list (Batch Block))) : list (Event B) :=
  flat_map (fun q => pass_events p lbls q.1 q.2) ps.

(** every traversal yields at least one batch, with seeds inside the
    label vector *)
Definition passes_ok (s : HAN B) (ps : list (string * list (Batch Block)))
    : Prop :=
  Forall (fun q => q.2 <> [] /\
            Forall (fun b => Forall (fun n => n < length (labels s)) (seeds b))
                   q.2) ps.

(** *** The read-only part of [_full_test_step] as pure functions *)

Definition score_of (s : HAN B) (logits : list Row) (mode : string)
    : option Score :=
  match mask_of s mode with
  | None => None
  | Some mask =>
      match gather logits mask, gather (labels s) mask with
      | Some lg, Some lb => Some (evaluator lb (argmax <$> lg))
      | _, _ => None
      end
  end.

Definition loss_of (s : HAN B) (logits : list Row) (mask : list node)
    : option Q :=
  match gather logits mask, gather (labels s) mask with
  | Some lg, Some lb => Some (loss_fn lg lb)
  | _, _ => None
  end.

Fixpoint dict_comp_pure {V W : Type} (g : string -> V -> option W)
    (items : list (string * V)) (acc : gmap string W)
    : option (gmap string W) :=
  match items with
  | [] => Some acc
  | (k, v) :: items' =>
      match g k v with
      | None => None
      | Some w => dict_comp_pure g items' (<[k := w]> acc)
      end
  end.

Definition full_result (s : HAN B) (modes : list string)
    : option (gmap string Score * gmap string Q) :=
  let logits := forward_full (model s) false in
  let masks := build_masks s modes in
  match dict_comp_pure (fun key _ => score_of s logits key) masks ∅,
        dict_comp_pure (fun _ mask => loss_of s logits mask) masks ∅ with
  | Some md, Some ld => Some (md, ld)
  | _, _ => None
  end.

(** a traversal of one batch that covers the split of its mode: the seeds
    are the split's index set in some order, inside the label vector, and
    the model's output on the batch is its full-graph output at the seeds *)
Definition covers_split (s : HAN B) (q : string * list (Batch Block))
    : Prop :=
  exists b idx,
    q.2 = [b] /\
    mask_of s q.1 = Some idx /\
    seeds b ≡ₚ idx /\
    Forall (fun n => n < length (labels s)) (seeds b) /\
    gather (forward_full (model s) false) (seeds b)
    = Some (forward_batch (model s) false b).

(** the loss and the evaluator do not depend on the order in which the
    (output row, label) pairs are listed *)
Definition order_insensitive : Prop :=
  forall xs ys : list (Row * Label),
    xs ≡ₚ ys ->
    loss_fn xs.*1 xs.*2 = loss_fn ys.*1 ys.*2 /\
    evaluator xs.*2 (argmax <$> xs.*1) = evaluator ys.*2 (argmax <$> ys.*1).

(** *** Shape of the log of a run *)

(** what no step of the flow ever changes *)
Definition config (s : HAN B) :=
  (args s,
   (num_classes s, num_nodes s, train_idx s, valid_idx s, test_idx s,
    pred_idx s, labels s, train_loader s, val_loader s, test_loader s,
    pred_loader s, max_epoch s, evaluate_interval s)).

(** events of a training step: forward passes and optimizer updates *)
Definition train_ev (e : Event B) : Prop :=
  match e with
  | EvForward _ _ | EvUpdate _ => True
  | _ => False
  end.

(** events of an evaluation step on parameters [p]: forward passes of [p],
    batch losses, evaluator calls *)
Definition eval_ev (p : Params) (e : Event B) : Prop :=
  match e with
  | EvForward q _ => q = p
  | EvBatchLoss _ | EvEvaluator _ _ _ => True
  | _ => False
  end.

(** events of the prediction path on parameters [p] *)
Definition pred_ev (p : Params) (e : Event B) : Prop :=
  match e with
  | EvForward q _ => q = p
  | EvPredict => True
  | _ => False
  end.

(** events of the completion path on parameters [p]: no optimizer update,
    and every forward pass is a forward pass of [p] *)
Definition final_ev (p : Params) (e : Event B) : Prop :=
  match e with
  | EvForward q _ => q = p
  | EvBatchLoss _ | EvEvaluator _ _ _ => True
  | EvPredict | EvTestInfo | EvSaveResults _ => True
  | _ => False
  end.

Definition is_prediction (r : TrainResult B) : Prop :=
  match r with Prediction _ _ => True | _ => False end.

(** the log of one iteration of the epoch loop, started with the stopper
    [st]: the epoch marker, the training events and, when the epoch is a
    multiple of the evaluation interval [k], the evaluation events followed
    by the report and one consultation of the stopper *)
Definition epoch_seg (k epoch : Z) (st : EarlyStopping B)
    (seg : list (Event B)) (st' : EarlyStopping B) (brk : bool) : Prop :=
  exists tr,
    Forall train_ev tr /\
    if (epoch `mod` k =? 0)%Z then
      exists te tl v p,
        seg = EvEpoch epoch :: tr ++ te
              ++ [EvTrainInfo epoch tl v; EvLossStep v p brk]
              ++ (if brk then [EvEarlyStop epoch] else []) /\
        Forall (eval_ev p) te /\
        loss_step st v p = (st', brk)
    else seg = EvEpoch epoch :: tr /\ st' = st /\ brk = false.

(** the logs of the iterations of the epoch loop over [epochs]; the boolean
    tells whether the loop was left by [break] *)
Inductive loop_run (k : Z)
    : EarlyStopping B -> list Z -> list (list (Event B)) ->
      EarlyStopping B -> bool -> Prop :=
| run_done st : loop_run k st [] [] st false
| run_break st epoch rest seg st' :
    epoch_seg k epoch st seg st' true ->
    loop_run k st (epoch :: rest) [seg] st' true
| run_next st epoch rest seg st1 segs st' b :
    epoch_seg k epoch st seg st1 false ->
    loop_run k st1 rest segs st' b ->
    loop_run k st (epoch :: rest) (seg :: segs) st' b.

(** the calls [stopper.loss_step(val_loss, model)] recorded in a log *)
Definition consultations (evs : list (Event B)) : list (Q * Params * bool) :=
  omap (fun e => match e with
                 | EvLossStep v p b => Some (v, p, b)
                 | _ => None
                 end) evs.

(** the epoch markers recorded in a log *)
Definition epochs_of (evs : list (Event B)) : list Z :=
  omap (fun e => match e with EvEpoch n => Some n | _ => None end) evs.

(** events of the epoch loop *)
Definition loop_ev (e : Event B) : Prop :=
  match e with
  | EvEpoch _ | EvForward _ _ | EvUpdate _ | EvBatchLoss _
  | EvEvaluator _ _ _ | EvTrainInfo _ _ _ | EvLossStep _ _ _
  | EvEarlyStop _ => True
  | _ => False
  end.

(** events of the batch loops *)
Definition batch_ev (e : Event B) : Prop :=
  match e with
  | EvForward _ _ | EvUpdate _ | EvBatchLoss _ => True
  | _ => False
  end.

(** the stopper is consulted once in the log [seg], with answer [stop],
    and no event of a batch loop follows the consultation *)
Definition consulted_once_at_end (seg : list (Event B)) (stop : bool)
    : Prop :=
  exists pre v q post,
    seg = pre ++ EvLossStep v q stop :: post /\
    consultations pre = [] /\
    consultations post = [] /\
    Forall (fun e => ~ batch_ev e) post.



(** the state [_full_test_step] leaves behind *)
Definition after_full_test (s : HAN B) : HAN B :=
  set_log (log s ++ [EvForward (model s) false]) (set_training false s).

(** every batch has its seeds inside the label vector *)
Definition in_range (s : HAN B) (bs : list (Batch Block)) : Prop :=
  Forall (fun b => Forall (fun n => n < length (labels s)) (seeds b)) bs.

(** the model returns one output row per seed node of a batch *)
Definition rows_per_seed (p : Params) (bs : list (Batch Block)) : Prop :=
  Forall (fun b => length (forward_batch p false b) = length (seeds b)) bs.

(** [triple I m K Q]: started in a state satisfying [I], if [m] returns then
    the final state satisfies [I], the value satisfies [Q], and the log has
    grown by events that all satisfy [K]. *)
Definition triple {A : Type} (I : HAN B -> Prop) (m : M A)
    (K : Event B -> Prop) (Q : A -> Prop) : Prop :=
  forall s a s',
    I s -> m s = Ok (a, s') ->
    I s' /\ Q a /\ exists evs, log s' = log s ++ evs /\ Forall K evs.

(** the invariants of the steps: the configuration, and the parameters *)
Definition I_cfg (c : _) (s : HAN B) : Prop := config s = c.
Definition I_eval (c : _) (p : Params) (s : HAN B) : Prop :=
  config s = c /\ model s = p.

(** events of the completion path; of the prediction path when [flag] *)
Definition finish_ev (flag : bool) (p : Params) (e : Event B) : Prop :=
  final_ev p e /\ (flag = true -> pred_ev p e).

(** *** Flows on which no step raises *)

(** a loader that on every traversal yields at least one batch, with seeds
    inside the label vector *)
Definition loader_ok (lbls : list Label) (o : option Loader) : Prop :=
  forall ld r,
    o = Some ld ->
    (ld r).1 <> [] /\
    Forall (fun b => Forall (fun n => n < length lbls) (seeds b)) (ld r).1.

(** The evaluation interval is not zero; in mini-batch mode the loaders of
    the configured splits exist; every loader yields non-empty traversals
    inside the label vector; labels and full-graph outputs have one row per
    node and the splits are inside the node range; a run that ends with a
    test report has at least one epoch. *)
Definition well_formed (s : HAN B) : Prop :=
  evaluate_interval s <> 0%Z /\
  (mini_batch_flag (args s) = true ->
   is_Some (train_loader s) /\ is_Some (val_loader s) /\
   (test_flag (args s) = true -> is_Some (test_loader s)) /\
   (prediction_flag (args s) = true -> is_Some (pred_loader s))) /\
  loader_ok (labels s) (train_loader s) /\
  loader_ok (labels s) (val_loader s) /\
  loader_ok (labels s) (test_loader s) /\
  (forall ld r, pred_loader s = Some ld -> (ld r).1 <> []) /\
  length (labels s) = num_nodes s /\
  (forall p tr, length (forward_full p tr) = num_nodes s) /\
  Forall (fun n => n < num_nodes s) (train_idx s) /\
  Forall (fun n => n < num_nodes s) (valid_idx s) /\
  Forall (fun n => n < num_nodes s) (test_idx s) /\
  (prediction_flag (args s) = false -> test_flag (args s) = true ->
   (0 < max_epoch s)%Z).

(** the modes the flow itself asks for *)
Definition mode_allowed (s : HAN B) (mode : string) : Prop :=
  mode = "train" \/ mode = "valid" \/
  (mode = "test" /\ test_flag (args s) = true).

(** the loader of a mode exists and is a [loader_ok] one *)
Definition mode_ready (s : HAN B) (mode : string) : Prop :=
  exists ld idx,
    (forall cur, loader_for s cur mode = Some ld) /\
    mask_of s mode = Some idx /\
    forall r, (ld r).1 <> [] /\ in_range s (ld r).1.

End Vocabulary.

(** ** Vocabulary of the step-level statements *)

Section StepVocabulary.
Context `{B : Backend}.

(** One traversal of mini-batch training as a pure function: for every
    batch, in yield order, the parameters the batch is run on and its loss;
    then the parameters and the optimizer state after the last update. *)
Fixpoint sgd_pass (p : Params) (o : Opt) (lbls : list Label)
    (bs : list (Batch Block)) : list (Params * Q) * (Params * Opt) :=
  match bs with
  | [] => ([], (p, o))
  | b :: bs' =>
      let lbl := default [] (gather lbls (seeds b)) in
      let loss := loss_fn (forward_batch p true b) lbl in
      let '(p', o') := optimizer_step o p (backward_batch p b lbl) in
      let '(steps, fin) := sgd_pass p' o' lbls bs' in
      ((p, loss) :: steps, fin)
  end.

(** what an evaluation or prediction step started in [s] leaves behind:
    the parameters, the optimizer state and the configuration of [s], and
    the model in evaluation mode *)
Definition left_in_eval_mode (s s' : HAN B) : Prop :=
  model s' = model s /\ optimizer s' = optimizer s /\
  config s' = config s /\ training s' = false.

(** [throws I m P]: every exception [m] raises when started in a state
    satisfying [I] satisfies [P]. *)
Definition throws {A : Type} (I : HAN B -> Prop) (m : M A)
    (P : Exn -> Prop) : Prop :=
  forall s e, I s -> m s = Raise e -> P e.

(** in mini-batch mode the loaders of the configured splits exist *)
Definition loaders_present (s : HAN B) : Prop :=
  mini_batch_flag (args s) = true ->
  is_Some (train_loader s) /\ is_Some (val_loader s) /\
  (test_flag (args s) = true -> is_Some (test_loader s)) /\
  (prediction_flag (args s) = true -> is_Some (pred_loader s)).

(** the exceptions a run of [train] can end with: an index outside a
    tensor, [epoch % 0], the loop variables [i] and [epoch] read after a
    loop that never ran, and [torch.cat] of an empty list *)
Definition run_failure (e : Exn) : Prop :=
  e = IndexError \/ e = ZeroDivisionError \/
  e = NameError "i" \/ e = NameError "epoch" \/
  exists msg, e = RuntimeError msg.

Definition any_event : Event B -> Prop := fun _ => True.

(** the outcome [o] with the random source of its final state replaced *)
Definition with_rng {A : Type} (r : Rng) (o : outcome (A * HAN B))
    : outcome (A * HAN B) :=
  match o with
  | Ok (a, s) => Ok (a, set_rng r s)
  | Raise e => Raise e
  end.

(** started in a state satisfying [I], [m] neither reads nor advances the
    random source of the loaders *)
Definition rng_blind {A : Type} (I : HAN B -> Prop) (m : M A) : Prop :=
  forall s r, I s -> m (set_rng r s) = with_rng r (m s).

(** Training-mode forward passes and optimizer updates come in pairs: every
    training-mode pass of the log is immediately followed by an update, and
    every update immediately follows such a pass. *)
Fixpoint paired (evs : list (Event B)) : bool :=
  match evs with
  | [] => true
  | EvForward _ true :: EvUpdate _ :: rest => paired rest
  | EvForward _ true :: _ => false
  | EvUpdate _ :: _ => false
  | _ :: rest => paired rest
  end.

(** an event that is neither a training-mode pass nor an update *)
Definition quiet (e : Event B) : Prop :=
  match e with
  | EvForward _ true | EvUpdate _ => False
  | _ => True
  end.

(** if [m] returns, the events it logged are [paired] *)
Definition keeps_paired {A : Type} (m : M A) : Prop :=
  forall s a s',
    m s = Ok (a, s') -> exists evs, log s' = log s ++ evs /\ paired evs = true.

End StepVocabulary.

(** ** A small concrete backend

    A one-parameter model on a graph with nodes [0, 1, 2, ..]: the output
    row of every node is [[w; 1 - w]], the loss is the mean squared distance
    between [w] and the labels, the optimizer is plain gradient descent and
    the loader cuts the index set into consecutive batches, reversing the
    index set on every other traversal (its shuffle). *)
Module Toy.

Definition mse (logits : list Row) (lbls : list Label) : Q :=
  Qred (Qsum (zip_with (fun r y =>
                          let d := (hd 0 r - inject_Z (Z.of_nat y)) in d * d)
                       logits lbls)
        / inject_Z (Z.of_nat (length lbls)))%Q.

Definition mse_grad (w : Q) (lbls : list Label) : Q :=
  (Qsum ((fun y => 2 * (w - inject_Z (Z.of_nat y))) <$> lbls)
   / inject_Z (Z.of_nat (length lbls)))%Q.

Fixpoint chunks (fuel n : nat) (l : list node) : list (list node) :=
  match fuel, l with
  | _, [] => []
  | O, _ => [l]
  | S fuel', _ => take n l :: chunks fuel' n (drop n l)
  end.

Definition loader (idx : list node) (batch_size : Z) (r : nat)
    : list (Batch unit) * nat :=
  let order := if Nat.even r then idx else reverse idx in
  ((fun sd => mkBatch [("meta", sd)] sd [("meta", tt)])
     <$> chunks (length idx) (Z.to_nat batch_size) order,
   S r).

Definition Score_t : Type := nat.

Definition matches (y_true : list Label) (y_pred : list nat) : Score_t :=
  length (filter (fun p => p.1 = p.2) (zip y_true y_pred)).

#[export] Instance backend : Backend := {|
  Params := Q;
  Opt := unit;
  Grad := Q;
  Block := unit;
  Score := Score_t;
  Rng := nat;
  forward_full := fun w _ => replicate 9 [w; 1 - w]%Q;
  forward_batch := fun w _ b => (fun _ => [w; 1 - w]%Q) <$> seeds b;
  loss_fn := mse;
  backward_full := fun w _ lbls => mse_grad w lbls;
  backward_batch := fun w _ lbls => mse_grad w lbls;
  optimizer_step := fun _ w g => (Qred (w - (1 # 4) * g), tt);
  evaluator := matches;
  build_model_from_args := fun a => inject_Z (out_dim a);
  candidate_optimizer := fun name =>
    if String.eqb name "SGD" then Some (fun _ _ _ => tt) else None;
  data_loader := loader;
  base_preprocess := fun w => w;
  initial_rng := 0
|}.

Definition toy_args (mini test pred : bool) (epochs interval : Z) : Args :=
  mkArgs 2 mini test pred 2 2 "SGD" (1 # 4) 0 "acm4HAN" epochs interval.

(** nine nodes: train [0;1;2], valid [3;4], test [5], to predict [6;7;8];
    labels by node *)
Definition toy_task : Task :=
  mkTask 2 (Some 2%Z) (Some [6; 7; 8]) 9 ([0; 1; 2], [3; 4], [5])
         [0; 1; 1; 1; 0; 1; 0; 0; 0].

(** the same graph with labels on which training overshoots the best
    validation loss: train labels 0, validation labels 1 *)
Definition overfit_task : Task :=
  mkTask 2 (Some 2%Z) (Some [6; 7; 8]) 9 ([0; 1; 2], [3; 4], [5])
         [0; 0; 0; 1; 1; 1; 0; 0; 0].

(** the flow object [HAN(args)] over a task *)
Definition flow_on (t : Task) (a : Args) : HAN backend :=
  match init a t with
  | Ok s => s
  | Raise _ =>
      mkHAN a 2 9 0%Q true tt [] [] [] None [] None None None None 0 1 0 []
  end.

Definition flow (a : Args) : HAN backend := flow_on toy_task a.

(** the same graph with other splits, with another prediction split, and
    with a dataset that has no [out_dim] attribute *)
Definition task_with_split (sp : list node * list node * list node) : Task :=
  mkTask 2 (Some 2%Z) (Some [6; 7; 8]) 9 sp [0; 1; 1; 1; 0; 1; 0; 0; 0].

Definition task_with_pred (p : option (list node)) : Task :=
  mkTask 2 (Some 2%Z) p 9 ([0; 1; 2], [3; 4], [5])
         [0; 1; 1; 1; 0; 1; 0; 0; 0].

Definition task_without_out_dim : Task :=
  mkTask 2 None (Some [6; 7; 8]) 9 ([0; 1; 2], [3; 4], [5])
         [0; 1; 1; 1; 0; 1; 0; 0; 0].

End Toy.

(** * Properties *)

(** ** Evaluating closed computations *)

Lemma is_ok_value_of_pair {A S : Type} (o : outcome (A * S)) (d : A * S) :
  is_ok o = true -> o = Ok ((value_of o d).1, (value_of o d).2).
Proof. destruct o as [[a s]|]; [reflexivity | discriminate]. Qed.

(** [E : o = Ok (value, state)] for a closed computation [o], by evaluation *)
Ltac evaluate o d E :=
  let H := fresh "H" in
  assert (H : is_ok o = true) by (vm_compute; reflexivity);
  pose proof (is_ok_value_of_pair o d H) as E;
  clear H.

Section Facts.
Context `{B : Backend}.

(** ** Reasoning about the flow monad *)

Lemma bind_Ok {A C : Type} (m : M A) (k : A -> M C) s a s' :
  m s = Ok (a, s') -> bind m k s = k a s'.
Proof. intros H. unfold bind. now rewrite H. Qed.

Lemma bind_inv {A C : Type} (m : M A) (k : A -> M C) s c s'' :
  bind m k s = Ok (c, s'') ->
  exists a s', m s = Ok (a, s') /\ k a s' = Ok (c, s'').
Proof.
  unfold bind. destruct (m s) as [[a s']|e]; [eauto | discriminate].
Qed.

Lemma gather_in_range {A : Type} (x : list A) (idx : list node) :
  Forall (fun n => n < length x) idx -> is_Some (gather x idx).
Proof.
  intros H. unfold gather.
  induction H as [|n idx Hn _ IH]; [by eexists |].
  destruct (lookup_lt_is_Some_2 x n Hn) as [a Ha].
  destruct IH as [r Hr]. exists (a :: r).
  apply mapM_Some. constructor; [done |]. by apply mapM_Some.
Qed.

Lemma index_Ok {A : Type} (x : list A) idx r (s : HAN B) :
  gather x idx = Some r -> index x idx s = Ok (r, s).
Proof. intros H. unfold index. now rewrite H. Qed.

Lemma update_losses_app (l1 l2 : list (Event B)) :
  update_losses (l1 ++ l2) = update_losses l1 ++ update_losses l2.
Proof. apply omap_app. Qed.

Lemma Qsum_app (l1 l2 : list Q) : (Qsum (l1 ++ l2) == Qsum l1 + Qsum l2)%Q.
Proof.
  induction l1 as [|x l1 IH]; simpl; [ring |]. rewrite IH. ring.
Qed.

(** ** Mini-batch training *)

Lemma train_batch_spec loss_all i b (s : HAN B) :
  Forall (fun n => n < length (labels s)) (seeds b) ->
  exists loss s',
    train_batch loss_all i b s = Ok ((loss_all + loss)%Q, s') /\
    log s' = log s ++ [EvForward (model s) (training s); EvUpdate loss] /\
    labels s' = labels s.
Proof.
  intros Hr. destruct (gather_in_range _ _ Hr) as [lbl Hl].
  unfold train_batch, bind, get. rewrite (index_Ok _ _ _ _ Hl).
  unfold call_model_batch, apply_gradient, bind, get, emit, modify. cbn.
  destruct (optimizer_step _ _ _) as [p o]. cbn.
  eexists _, _. split; [reflexivity |]. cbn.
  split; [by rewrite <- app_assoc | done].
Qed.

Lemma train_batches_spec bs : forall acc i last (s : HAN B),
  in_range s bs ->
  exists acc' s' evs,
    for_enum train_batch acc i last bs s
      = Ok ((acc', match bs with
                   | [] => last
                   | _ => Some (i + length bs - 1)
                   end), s') /\
    log s' = log s ++ evs /\
    labels s' = labels s /\
    length (update_losses evs) = length bs /\
    (acc' == acc + Qsum (update_losses evs))%Q.
Proof.
  induction bs as [|b bs IH]; intros acc i last s Hr.
  - exists acc, s, []. cbn. rewrite app_nil_r. repeat split. ring.
  - inversion Hr as [|? ? Hb Hbs]; subst.
    destruct (train_batch_spec acc i b s Hb) as (loss & s1 & E1 & L1 & K1).
    assert (Hbs1 : in_range s1 bs) by (unfold in_range; now rewrite K1).
    destruct (IH (acc + loss)%Q (S i) (Some i) s1 Hbs1)
      as (acc' & s' & evs & E2 & L2 & K2 & N2 & Q2).
    exists acc', s', ([EvForward (model s) (training s); EvUpdate loss] ++ evs).
    cbn [for_enum]. rewrite (bind_Ok _ _ _ _ _ E1), E2.
    split.
    { do 3 f_equal. destruct bs; cbn; f_equal; lia. }
    split; [by rewrite L2, L1, app_assoc |].
    split; [congruence |].
    rewrite update_losses_app, length_app, Qsum_app, N2, Q2.
    split; [done |]. cbn. ring.
Qed.

(** ** A mini-batch training epoch, update by update *)

Lemma foldl_Qplus (l : list Q) : forall acc,
  (foldl Qplus acc l == acc + Qsum l)%Q.
Proof.
  induction l as [|x l IH]; intros acc; [cbn; ring |].
  cbn [foldl]. rewrite IH. change (Qsum (x :: l)) with (x + Qsum l)%Q. ring.
Qed.

Lemma train_batches_run bs : forall acc i lst (s : HAN B),
  training s = true ->
  in_range s bs ->
  let run := sgd_pass (model s) (optimizer s) (labels s) bs in
  exists s',
    for_enum train_batch acc i lst bs s
    = Ok ((foldl Qplus acc run.1.*2,
           match bs with [] => lst | _ => Some (i + length bs - 1) end), s') /\
    (model s', optimizer s') = run.2 /\
    training s' = true /\
    rng s' = rng s /\
    config s' = config s /\
    log s' = log s
             ++ flat_map (fun q => [EvForward q.1 true; EvUpdate q.2]) run.1.
Proof.
  induction bs as [|b bs IH]; intros acc i lst s Ht Hr; cbn zeta.
  - exists s. cbn. by rewrite app_nil_r.
  - inversion Hr as [|? ? Hb Hbs]; subst.
    destruct (gather_in_range _ _ Hb) as [lbl Hl].
    cbn [sgd_pass]. rewrite Hl. cbn [from_option id].
    destruct (optimizer_step (optimizer s) (model s)
                (backward_batch (model s) b lbl)) as [p o] eqn:Eo.
    set (loss := loss_fn (forward_batch (model s) true b) lbl).
    set (s1 := set_log (log s ++ [EvForward (model s) true; EvUpdate loss])
                 (set_optimizer o (set_model p s))).
    assert (E1 : train_batch acc i b s = Ok ((acc + loss)%Q, s1)).
    { unfold train_batch, bind, get, index. rewrite Hl. cbn.
      unfold call_model_batch, apply_gradient, bind, get, emit, modify. cbn.
      rewrite Ht, Eo. cbn. unfold s1, loss. by rewrite <- app_assoc. }
    destruct (IH (acc + loss)%Q (S i) (Some i) s1 Ht Hbs)
      as (s' & E & HM & HT & HR & HC & HL).
    cbn [model optimizer labels s1 set_log set_optimizer set_model] in E, HM, HL.
    destruct (sgd_pass p o (labels s) bs) as [steps fin] eqn:Es.
    exists s'. cbn [for_enum]. rewrite (bind_Ok _ _ _ _ _ E1), E.
    split.
    { cbn. do 3 f_equal. destruct bs; cbn; f_equal; lia. }
    split; [exact HM |]. split; [exact HT |]. split; [exact HR |].
    split; [exact HC |]. rewrite HL. cbn. by rewrite <- app_assoc.
Qed.

Lemma sgd_pass_length p o lbls (bs : list (Batch Block)) :
  length (sgd_pass p o lbls bs).1 = length bs.
Proof.
  revert p o. induction bs as [|b bs IH]; intros p o; [done |]. cbn.
  destruct (optimizer_step _ _ _) as [p' o'].
  specialize (IH p' o'). destruct (sgd_pass p' o' lbls bs). cbn in *.
  by rewrite IH.
Qed.

(** the entries of [sgd_pass], batch by batch: the loss of a batch is the
    loss function on the training-mode output of the batch and the labels
    of its seed nodes *)
Lemma sgd_pass_lookup lbls (bs : list (Batch Block)) : forall p o i b,
  Forall (fun b => Forall (fun n => n < length lbls) (seeds b)) bs ->
  bs !! i = Some b ->
  exists q lbl,
    gather lbls (seeds b) = Some lbl /\
    (sgd_pass p o lbls bs).1 !! i
    = Some (q, loss_fn (forward_batch q true b) lbl).
Proof.
  induction bs as [|b0 bs IH]; intros p o i b Hr Hi; [done |].
  inversion Hr as [|? ? Hb Hbs]; subst. cbn [sgd_pass].
  destruct (optimizer_step _ _ _) as [p' o'].
  specialize (IH p' o'). destruct (sgd_pass p' o' lbls bs) as [steps fin].
  destruct i as [|i]; cbn in Hi |- *.
  - injection Hi as ->. destruct (gather_in_range _ _ Hb) as [lbl Hl].
    exists p, lbl. by rewrite Hl.
  - by apply IH.
Qed.

Lemma update_losses_pairs (steps : list (Params * Q)) :
  @update_losses B
    (flat_map (fun q => [EvForward q.1 true; EvUpdate q.2]) steps)
  = steps.*2.
Proof. induction steps as [|q steps IH]; [done |]. cbn. by rewrite <- IH. Qed.

(** ** Mini-batch evaluation: one traversal *)

Lemma set_log_id (s : HAN B) : set_log (log s) s = s.
Proof. by destruct s. Qed.

Lemma test_batch_spec a i b (s : HAN B) lbl :
  gather (labels s) (seeds b) = Some lbl ->
  training s = false ->
  let logits := forward_batch (model s) false b in
  let loss := loss_fn logits lbl in
  test_batch a i b s
  = Ok (mkBatchLocals (b_loss_all a + loss)%Q (Some loss)
                      (y_trues a ++ [lbl]) (y_predicts a ++ [logits]),
        set_log (log s ++ [EvForward (model s) false; EvBatchLoss loss]) s).
Proof.
  intros Hl Ht. unfold test_batch, call_model_batch, bind, get, emit, modify.
  cbn. rewrite Ht. unfold index. rewrite Hl. cbn.
  by rewrite <- app_assoc.
Qed.

Lemma test_batches_spec bs : forall a i lst (s : HAN B),
  training s = false ->
  in_range s bs ->
  let losses := pass_losses (model s) (labels s) bs in
  for_enum test_batch a i lst bs s
  = Ok ((mkBatchLocals (foldl Qplus (b_loss_all a) losses)
                       (match last losses with
                        | Some l => Some l
                        | None => b_loss a
                        end)
                       (y_trues a ++ pass_labels (labels s) bs)
                       (y_predicts a ++ pass_logits (model s) bs),
         match bs with
         | [] => lst
         | _ => Some (i + length bs - 1)
         end),
        set_log (log s ++ flat_map (fun l => [EvForward (model s) false;
                                              EvBatchLoss l]) losses) s).
Proof.
  induction bs as [|b bs IH]; intros a i lst s Ht Hr; cbn.
  - rewrite !app_nil_r, set_log_id. by destruct a.
  - inversion Hr as [|? ? Hb Hbs]; subst.
    destruct (gather_in_range _ _ Hb) as [lbl Hl].
    rewrite (bind_Ok _ _ _ _ _ (test_batch_spec a i b s lbl Hl Ht)).
    rewrite IH; [| done | done]. cbn.
    unfold pass_losses, pass_labels, pass_logits. cbn. rewrite Hl. cbn.
    rewrite last_cons, <- !app_assoc. cbn.
    do 3 f_equal.
    + f_equal. by destruct (last _).
    + destruct bs; cbn; f_equal; lia.
Qed.

Lemma select_loader_spec l mode (s : HAN B) ld :
  loader_for s (loader_tqdm l) mode = Some ld ->
  select_loader l mode s = Ok (Some ld, s).
Proof.
  unfold loader_for, select_loader, bind, getattr, ret.
  destruct (String.eqb mode "train"); [by intros -> |].
  destruct (String.eqb mode "valid"); [by intros -> |].
  destruct (String.eqb mode "test"); [by intros -> |].
  by intros ->.
Qed.

Lemma pass_losses_length p lbls (bs : list (Batch Block)) :
  length (pass_losses p lbls bs) = length bs.
Proof.
  unfold pass_losses, pass_logits, pass_labels.
  rewrite length_zip_with, !length_fmap. lia.
Qed.

Lemma pass_last_loss_Some p lbls (bs : list (Batch Block)) :
  bs <> [] ->
  last (pass_losses p lbls bs) = Some (pass_last_loss p lbls bs).
Proof.
  intros Hne. unfold pass_last_loss.
  destruct (last (pass_losses p lbls bs)) eqn:E; [done |].
  apply last_None in E. apply (f_equal length) in E.
  rewrite pass_losses_length in E. by destruct bs.
Qed.

Lemma test_mode_spec l mode (s : HAN B) ld :
  training s = false ->
  loader_for s (loader_tqdm l) mode = Some ld ->
  (ld (rng s)).1 <> [] ->
  in_range s (ld (rng s)).1 ->
  let bs := (ld (rng s)).1 in
  exists loss_all' i,
    test_mode l mode s
    = Ok (mkTestLocals
            (<[mode := pass_score (model s) (labels s) bs]> (metric_dict l))
            (<[mode := pass_last_loss (model s) (labels s) bs]> (loss_dict l))
            loss_all' (Some i)
            (Some (pass_last_loss (model s) (labels s) bs)) (Some ld),
          set_log (log s ++ pass_events (model s) (labels s) mode bs)
                  (set_rng (ld (rng s)).2 s)).
Proof.
  intros Ht Hld Hne Hr bs.
  pose proof (select_loader_spec l mode s ld Hld) as Hsel.
  unfold test_mode. rewrite (bind_Ok _ _ _ _ _ Hsel). cbn [local].
  unfold bind at 1. unfold ret at 1.
  unfold bind at 1. unfold iterate, bind, get, modify. cbn.
  destruct (ld (rng s)) as [bs' r] eqn:Eld. cbn in bs, Hne, Hr. subst bs. cbn.
  pose proof (test_batches_spec bs'
                (mkBatchLocals (loss_all l) (var_loss l) [] []) 0 (var_i l)
                (set_rng r s) Ht Hr) as E.
  cbn in E. unfold bind in E. rewrite E. clear E.
  rewrite (pass_last_loss_Some _ _ _ Hne).
  destruct bs' as [|b bs']; [done |]. cbn.
  eexists _, _. unfold pass_score, pass_events, emit, modify. cbn.
  by rewrite <- app_assoc.
Qed.

Lemma passes_ext (s s' : HAN B) modes : forall cur r,
  train_loader s' = train_loader s ->
  val_loader s' = val_loader s ->
  test_loader s' = test_loader s ->
  passes s' cur r modes = passes s cur r modes.
Proof.
  induction modes as [|mode modes IH]; intros cur r H1 H2 H3; [done |].
  cbn. unfold loader_for. rewrite H1, H2, H3.
  repeat case_match; try done; rewrite IH in *; congruence.
Qed.

Lemma for_modes_spec modes : forall l (s : HAN B) ps,
  training s = false ->
  passes s (loader_tqdm l) (rng s) modes = Some ps ->
  passes_ok s ps ->
  exists l' r',
    for_modes l modes s
    = Ok (l', set_log (log s ++ passes_events (model s) (labels s) ps)
                      (set_rng r' s)) /\
    metric_dict l' = fill_metrics (model s) (labels s) (metric_dict l) ps /\
    loss_dict l' = fill_losses (model s) (labels s) (loss_dict l) ps.
Proof.
  induction modes as [|mode modes IH]; intros l s ps Ht Hp Hok.
  - injection Hp as <-. exists l, (rng s). cbn.
    rewrite app_nil_r. by destruct s.
  - cbn in Hp. destruct (loader_for s (loader_tqdm l) mode) as [ld|] eqn:Hld;
      [| done].
    destruct (passes s (Some ld) (ld (rng s)).2 modes) as [ps'|] eqn:Hps;
      [| done].
    injection Hp as <-. inversion Hok as [|? ? [Hne Hr] Hok']; subst.
    destruct (test_mode_spec l mode s ld Ht Hld Hne Hr) as (la & i & E).
    cbn [for_modes]. rewrite (bind_Ok _ _ _ _ _ E).
    match type of E with
    | _ = Ok (?l1, ?s1) =>
        destruct (IH l1 s1 ps') as (l' & r' & E' & Hm & Hl)
    end.
    + done.
    + cbn. by rewrite (passes_ext s).
    + done.
    + exists l', r'. rewrite E'. cbn. unfold passes_events. cbn.
      rewrite <- app_assoc. split; [done |]. by rewrite Hm, Hl.
Qed.

Lemma mini_test_step_spec modes (s : HAN B) ps :
  passes s None (rng s) modes = Some ps ->
  passes_ok s ps ->
  exists r',
    _mini_test_step modes s
    = Ok ((fill_metrics (model s) (labels s) ∅ ps,
           fill_losses (model s) (labels s) ∅ ps),
          set_log (log s ++ passes_events (model s) (labels s) ps)
                  (set_rng r' (set_training false s))).
Proof.
  intros Hp Hok.
  edestruct (for_modes_spec modes (mkTestLocals ∅ ∅ 0%Q None None None)
               (set_training false s) ps) as (l' & r' & E & Hm & Hl).
  - done.
  - cbn. by rewrite (passes_ext s).
  - done.
  - exists r'. unfold _mini_test_step, bind, modify. cbn.
    rewrite E. cbn in *. by rewrite Hm, Hl.
Qed.

Lemma fill_metrics_notin p lbls (ps : list (string * list (Batch Block))) :
  forall d mode, mode ∉ ps.*1 ->
  fill_metrics p lbls d ps !! mode = d !! mode.
Proof.
  induction ps as [|[m bs] ps IH]; intros d mode Hn; [done |].
  cbn in *. apply not_elem_of_cons in Hn as [Hne Hn].
  unfold fill_metrics in *. cbn. rewrite IH by done.
  by rewrite lookup_insert_ne.
Qed.

Lemma fill_metrics_lookup p lbls (ps : list (string * list (Batch Block))) :
  forall d mode bs, NoDup ps.*1 -> (mode, bs) ∈ ps ->
  fill_metrics p lbls d ps !! mode = Some (pass_score p lbls bs).
Proof.
  induction ps as [|[m bs'] ps IH]; intros d mode bs Hnd Hin.
  - by apply elem_of_nil in Hin.
  - cbn in Hnd. apply NoDup_cons in Hnd as [Hm Hnd].
    apply elem_of_cons in Hin as [[= -> ->]|Hin].
    + change (fill_metrics p lbls d ((m, bs') :: ps))
        with (fill_metrics p lbls (<[m := pass_score p lbls bs']> d) ps).
      rewrite fill_metrics_notin by done. apply lookup_insert_eq.
    + change (fill_metrics p lbls d ((m, bs') :: ps))
        with (fill_metrics p lbls (<[m := pass_score p lbls bs']> d) ps).
      by apply IH.
Qed.

Lemma fill_losses_notin p lbls (ps : list (string * list (Batch Block))) :
  forall d mode, mode ∉ ps.*1 ->
  fill_losses p lbls d ps !! mode = d !! mode.
Proof.
  induction ps as [|[m bs] ps IH]; intros d mode Hn; [done |].
  cbn in *. apply not_elem_of_cons in Hn as [Hne Hn].
  unfold fill_losses in *. cbn. rewrite IH by done.
  by rewrite lookup_insert_ne.
Qed.

Lemma fill_losses_lookup p lbls (ps : list (string * list (Batch Block))) :
  forall d mode bs, NoDup ps.*1 -> (mode, bs) ∈ ps ->
  fill_losses p lbls d ps !! mode = Some (pass_last_loss p lbls bs).
Proof.
  induction ps as [|[m bs'] ps IH]; intros d mode bs Hnd Hin.
  - by apply elem_of_nil in Hin.
  - cbn in Hnd. apply NoDup_cons in Hnd as [Hm Hnd].
    apply elem_of_cons in Hin as [[= -> ->]|Hin].
    + change (fill_losses p lbls d ((m, bs') :: ps))
        with (fill_losses p lbls (<[m := pass_last_loss p lbls bs']> d) ps).
      rewrite fill_losses_notin by done. apply lookup_insert_eq.
    + change (fill_losses p lbls d ((m, bs') :: ps))
        with (fill_losses p lbls (<[m := pass_last_loss p lbls bs']> d) ps).
      by apply IH.
Qed.

Lemma passes_modes (s : HAN B) modes : forall cur r ps,
  passes s cur r modes = Some ps -> ps.*1 = modes.
Proof.
  induction modes as [|mode modes IH]; intros cur r ps Hp; cbn in Hp.
  - by injection Hp as <-.
  - repeat case_match; try done. injection Hp as <-. cbn. f_equal. eauto.
Qed.

Lemma evaluator_calls_pass p lbls mode (bs : list (Batch Block)) :
  evaluator_calls (pass_events p lbls mode bs)
  = [(mode, concat (pass_labels lbls bs),
      argmax <$> concat (pass_logits p bs))].
Proof.
  unfold pass_events, evaluator_calls. rewrite omap_app. cbn.
  induction (pass_losses p lbls bs) as [|x l IH]; [done | by cbn].
Qed.

Lemma evaluator_calls_passes p lbls (ps : list (string * list (Batch Block))) :
  evaluator_calls (passes_events p lbls ps)
  = (fun q => (q.1, concat (pass_labels lbls q.2),
               argmax <$> concat (pass_logits p q.2))) <$> ps.
Proof.
  induction ps as [|[m bs] ps IH]; [done |].
  change (passes_events p lbls ((m, bs) :: ps))
    with (pass_events p lbls m bs ++ passes_events p lbls ps).
  unfold evaluator_calls at 1. rewrite omap_app.
  fold (evaluator_calls (pass_events p lbls m bs)).
  fold (evaluator_calls (passes_events p lbls ps)).
  by rewrite IH, evaluator_calls_pass.
Qed.

Lemma no_call_for_absent_key {X Y : Type} (g : string * X -> Y)
    (key : Y -> string) (l : list (string * X)) k :
  (forall q, key (g q) = q.1) ->
  k ∉ l.*1 ->
  filter (fun c => key c = k) (g <$> l) = [].
Proof.
  intros Hkey. induction l as [|[k' x'] l IH]; intros Hk; [done |].
  cbn in Hk. apply not_elem_of_cons in Hk as [Hne Hk].
  rewrite fmap_cons, filter_cons, Hkey. cbn [fst].
  destruct (decide (k' = k)) as [->|_]; [done | by apply IH].
Qed.

Lemma one_call_per_key {X Y : Type} (g : string * X -> Y)
    (key : Y -> string) (l : list (string * X)) k x :
  (forall q, key (g q) = q.1) ->
  NoDup l.*1 -> (k, x) ∈ l ->
  length (filter (fun c => key c = k) (g <$> l)) = 1.
Proof.
  intros Hkey. induction l as [|[k' x'] l IH]; intros Hnd Hin.
  - by apply elem_of_nil in Hin.
  - cbn in Hnd. apply NoDup_cons in Hnd as [Hk Hnd].
    rewrite fmap_cons, filter_cons, Hkey. cbn [fst].
    destruct (decide (k' = k)) as [->|Hne].
    + by rewrite no_call_for_absent_key.
    + apply elem_of_cons in Hin as [[= -> ->]|Hin]; [done |]. by apply IH.
Qed.

(** C2: a mini-batch training epoch over [n >= 1] batches returns the
    unweighted arithmetic mean [(l1 + ... + ln) / n] of the per-batch losses.
    The loss [li] of the [i]-th batch is the loss function applied to the
    training-mode output of that batch, on the parameters left by the update
    of the batch before it, and to the labels of its seed nodes; it is the
    loss of the [i]-th optimizer update.  The seed-node counts of the
    batches do not enter the result. *)
Theorem C2_mini_train_step_unweighted_mean (s : HAN B) ld batches r :
  train_loader s = Some ld ->
  ld (rng s) = (batches, r) ->
  batches <> [] ->
  in_range s batches ->
  exists v s' evs,
    _mini_train_step s = Ok (v, s') /\
    log s' = log s ++ evs /\
    length (update_losses evs) = length batches /\
    (v == Qmean (update_losses evs))%Q /\
    update_losses evs
    = (sgd_pass (model s) (optimizer s) (labels s) batches).1.*2 /\
    forall i b,
      batches !! i = Some b ->
      exists p lbl,
        gather (labels s) (seeds b) = Some lbl /\
        (sgd_pass (model s) (optimizer s) (labels s) batches).1 !! i
        = Some (p, loss_fn (forward_batch p true b) lbl) /\
        update_losses evs !! i
        = Some (loss_fn (forward_batch p true b) lbl).
Proof.
  intros Hld Hit Hne Hr.
  set (run := sgd_pass (model s) (optimizer s) (labels s) batches).
  destruct (train_batches_run batches 0%Q 0 None
              (set_rng r (set_training true s)) eq_refl Hr)
    as (s' & E & _ & _ & _ & _ & L).
  cbn [model optimizer labels set_rng set_training log] in E, L.
  fold run in E, L.
  assert (N : length run.1.*2 = length batches)
    by (unfold run; by rewrite length_fmap, sgd_pass_length).
  eexists _, s', _. split.
  { unfold _mini_train_step, bind, modify, getattr, iterate, get. cbn.
    rewrite Hld. cbn. rewrite Hit. cbn.
    unfold bind in E. rewrite E. destruct batches; [done | reflexivity]. }
  split; [exact L |]. rewrite update_losses_pairs.
  split; [exact N |]. split.
  { unfold Qmean. rewrite foldl_Qplus, N.
    replace (Z.of_nat (0 + length batches - 1) + 1)%Z
      with (Z.of_nat (length batches)) by (destruct batches; [done | cbn; lia]).
    apply Qdiv_comp; [ring | reflexivity]. }
  split; [reflexivity |].
  intros i b Hi.
  destruct (sgd_pass_lookup (labels s) batches (model s) (optimizer s) i b
              Hr Hi) as (p & lbl & Hl & Hp).
  exists p, lbl. split; [exact Hl |]. split; [exact Hp |].
  fold run in Hp. by rewrite list_lookup_fmap, Hp.
Qed.

(** C5: in mini-batch evaluation the score of every requested split is the
    result of one evaluator invocation on the concatenation, in batch-yield
    order, of the labels and of the predictions (row-wise argmax) of all the
    batches of that split's traversal; no per-batch score is ever formed. *)
Theorem C5_mini_score_one_evaluator_call_on_concatenation
    (s : HAN B) modes ps :
  NoDup modes ->
  passes s None (rng s) modes = Some ps ->
  passes_ok s ps ->
  exists md ld s' evs,
    _mini_test_step modes s = Ok ((md, ld), s') /\
    log s' = log s ++ evs /\
    evaluator_calls evs
    = (fun q => (q.1, concat (pass_labels (labels s) q.2),
                 argmax <$> concat (pass_logits (model s) q.2))) <$> ps /\
    forall mode bs, (mode, bs) ∈ ps ->
      md !! mode
      = Some (evaluator (concat (pass_labels (labels s) bs))
                        (argmax <$> concat (pass_logits (model s) bs))) /\
      length (filter (fun c => c.1.1 = mode) (evaluator_calls evs)) = 1.
Proof.
  intros Hnd Hp Hok.
  destruct (mini_test_step_spec modes s ps Hp Hok) as [r' E].
  pose proof (passes_modes s modes None (rng s) ps Hp) as Hm.
  eexists _, _, _, _. split; [exact E |]. split; [reflexivity |].
  rewrite evaluator_calls_passes. split; [reflexivity |].
  intros mode bs Hin. split.
  - apply fill_metrics_lookup; [by rewrite Hm | done].
  - apply (one_call_per_key _ (fun c => c.1.1) ps mode bs);
      [done | by rewrite Hm | done].
Qed.

(** The loss [_mini_test_step] reports for a split is the loss of the last
    batch of that split's traversal. *)
Lemma mini_test_step_reports_last_loss (s : HAN B) modes ps :
  NoDup modes ->
  passes s None (rng s) modes = Some ps ->
  passes_ok s ps ->
  exists md ld s',
    _mini_test_step modes s = Ok ((md, ld), s') /\
    forall mode bs, (mode, bs) ∈ ps ->
      ld !! mode = Some (pass_last_loss (model s) (labels s) bs).
Proof.
  intros Hnd Hp Hok.
  destruct (mini_test_step_spec modes s ps Hp Hok) as [r' E].
  pose proof (passes_modes s modes None (rng s) ps Hp) as Hm.
  eexists _, _, _. split; [exact E |].
  intros mode bs Hin. apply fill_losses_lookup; [by rewrite Hm | done].
Qed.

(** ** Full-batch evaluation *)

Lemma task_evaluate_iff logits mode (t : HAN B) w t' :
  task_evaluate logits mode t = Ok (w, t') <->
  t' = t /\ score_of t logits mode = Some w.
Proof.
  unfold task_evaluate, score_of, bind, get, index, ret, raise.
  destruct (mask_of t mode) as [mask|]; [| intuition congruence].
  destruct (gather logits mask); [| intuition congruence].
  destruct (gather (labels t) mask); intuition congruence.
Qed.

Lemma loss_item_iff logits mask (t : HAN B) w t' :
  bind (index logits mask)
       (fun lg => bind (index (labels t) mask)
                       (fun lb => ret (loss_fn lg lb))) t = Ok (w, t') <->
  t' = t /\ loss_of t logits mask = Some w.
Proof.
  unfold loss_of, bind, index, ret, raise.
  destruct (gather logits mask); [| intuition congruence].
  destruct (gather (labels t) mask); intuition congruence.
Qed.

Lemma dict_comp_iff {V W : Type} (f : string -> V -> M W)
    (g : string -> V -> option W) (t : HAN B) :
  (forall k v w t', f k v t = Ok (w, t') <-> t' = t /\ g k v = Some w) ->
  forall items acc d t',
    dict_comp f items acc t = Ok (d, t') <->
    t' = t /\ dict_comp_pure g items acc = Some d.
Proof.
  intros Hf. induction items as [|[k v] items IH]; intros acc d t'; cbn.
  - unfold ret. intuition congruence.
  - unfold bind. destruct (f k v t) as [[w t1]|e] eqn:E.
    + apply Hf in E as [-> ->]. apply IH.
    + destruct (g k v) as [w|] eqn:G; [| intuition congruence].
      assert (f k v t = Ok (w, t)) as E' by (by apply Hf). congruence.
Qed.

Lemma dict_comp_Raise {V W : Type} (f : string -> V -> M W)
    (g : string -> V -> option W) (t : HAN B) items acc e :
  (forall k v w t', f k v t = Ok (w, t') <-> t' = t /\ g k v = Some w) ->
  dict_comp f items acc t = Raise e ->
  dict_comp_pure g items acc = None.
Proof.
  intros Hf E. destruct (dict_comp_pure g items acc) as [d|] eqn:G; [| done].
  assert (dict_comp f items acc t = Ok (d, t)) as E'
      by (by apply (dict_comp_iff f g t Hf)).
  congruence.
Qed.

Lemma full_test_step_iff modes (s : HAN B) r s1 :
  _full_test_step modes s = Ok (r, s1) <->
  s1 = after_full_test s /\ full_result s modes = Some r.
Proof.
  unfold _full_test_step, full_result.
  unfold bind at 1, modify. unfold bind at 1, call_model_full.
  unfold bind at 1, get. unfold bind at 1, emit, modify. cbn.
  fold (after_full_test s).
  set (logits := forward_full (model s) false).
  set (masks := build_masks (after_full_test s) modes).
  change (build_masks s modes) with masks.
  assert (H1 := fun k (v : list node) w t' =>
                  task_evaluate_iff logits k (after_full_test s) w t').
  assert (H2 := fun (k : string) v w t' =>
                  loss_item_iff logits v (after_full_test s) w t').
  unfold bind at 1.
  destruct (dict_comp _ masks ∅ (after_full_test s)) as [[md t1]|e] eqn:E1.
  - apply (dict_comp_iff _ _ _ H1) in E1 as [-> E1].
    change (score_of (after_full_test s)) with (score_of s) in E1.
    rewrite E1. unfold bind at 1.
    match goal with |- context [dict_comp ?f masks ∅ (after_full_test s)] =>
      destruct (dict_comp f masks ∅ (after_full_test s))
        as [[ld t2]|e] eqn:E2 end.
    + apply (dict_comp_iff _ _ _ H2) in E2 as [-> E2].
      change (loss_of (after_full_test s)) with (loss_of s) in E2.
      rewrite E2. unfold ret. intuition congruence.
    + apply (dict_comp_Raise _ _ _ _ _ _ H2) in E2.
      change (loss_of (after_full_test s)) with (loss_of s) in E2.
      rewrite E2. intuition congruence.
  - apply (dict_comp_Raise _ _ _ _ _ _ H1) in E1.
    change (score_of (after_full_test s)) with (score_of s) in E1.
    rewrite E1. intuition congruence.
Qed.

Lemma full_result_after (s : HAN B) modes :
  full_result (after_full_test s) modes = full_result s modes.
Proof. reflexivity. Qed.

(** ** Full-batch against mini-batch evaluation *)

Lemma gather_Some_fmap {A : Type} (d : A) (x : list A) idx l :
  gather x idx = Some l -> l = (fun i => default d (x !! i)) <$> idx.
Proof.
  unfold gather. intros H. apply mapM_Some in H.
  induction H as [|i y idx l Hi _ IH]; [done |].
  cbn. rewrite Hi. cbn. by f_equal.
Qed.

Lemma gather_fmap {A : Type} (d : A) (x : list A) idx :
  Forall (fun n => n < length x) idx ->
  gather x idx = Some ((fun i => default d (x !! i)) <$> idx).
Proof.
  intros H. destruct (gather_in_range x idx H) as [l Hl].
  by rewrite Hl, (gather_Some_fmap d x idx l Hl).
Qed.

Lemma gather_Some_in_range {A : Type} (x : list A) idx l :
  gather x idx = Some l -> Forall (fun n => n < length x) idx.
Proof.
  unfold gather. intros H. apply mapM_Some in H.
  induction H as [|i y idx l Hi _ IH]; constructor; [| done].
  by apply lookup_lt_Some in Hi.
Qed.

Lemma covered_entry (s : HAN B) mode b idx :
  order_insensitive ->
  mask_of s mode = Some idx ->
  seeds b ≡ₚ idx ->
  Forall (fun n => n < length (labels s)) (seeds b) ->
  gather (forward_full (model s) false) (seeds b)
  = Some (forward_batch (model s) false b) ->
  score_of s (forward_full (model s) false) mode
  = Some (pass_score (model s) (labels s) [b]) /\
  loss_of s (forward_full (model s) false) idx
  = Some (pass_last_loss (model s) (labels s) [b]).
Proof.
  intros Hins Hmask Hperm Hlab Hrows.
  set (logits := forward_full (model s) false) in *.
  pose proof (gather_Some_in_range _ _ _ Hrows) as Hlog.
  rewrite Hperm in Hlab, Hlog.
  set (row := fun i : nat => default ([] : Row) (logits !! i)).
  set (lab := fun i : nat => default (0 : Label) (labels s !! i)).
  assert (Hfb : forward_batch (model s) false b = row <$> seeds b)
    by (apply (gather_Some_fmap (A := Row) [] _ _ _ Hrows)).
  assert (Hlb : gather (labels s) (seeds b) = Some (lab <$> seeds b))
    by (apply (gather_fmap (A := Label)); by rewrite Hperm).
  destruct (Hins ((fun i => (row i, lab i)) <$> idx)
                 ((fun i => (row i, lab i)) <$> seeds b)) as [HL HE].
  { by rewrite Hperm. }
  rewrite <- !list_fmap_compose in HL, HE.
  unfold score_of, loss_of, pass_score, pass_last_loss, pass_losses,
    pass_labels, pass_logits.
  rewrite Hmask, (gather_fmap (A := Row) [] logits idx Hlog),
    (gather_fmap (A := Label) 0 (labels s) idx Hlab).
  cbn. rewrite Hlb, Hfb, !app_nil_r. cbn.
  unfold row, lab, compose in *. cbn [fst snd] in *.
  split; [rewrite HE | rewrite HL]; reflexivity.
Qed.

Lemma dict_set_fresh {V : Type} (d : list (string * V)) k v :
  k ∉ d.*1 -> dict_set d k v = d ++ [(k, v)].
Proof.
  induction d as [|[k' v'] d IH]; intros Hk; [done |].
  cbn in *. apply not_elem_of_cons in Hk as [Hne Hk].
  destruct (String.eqb k' k) eqn:E.
  - apply String.eqb_eq in E. congruence.
  - by rewrite IH.
Qed.

Lemma build_masks_fresh (s : HAN B) modes : forall acc,
  NoDup (acc.*1 ++ modes) ->
  Forall (fun m => is_Some (mask_of s m)) modes ->
  exists items,
    foldl (fun masks mode =>
             match mask_of s mode with
             | Some idx => dict_set masks mode idx
             | None => masks
             end) acc modes = acc ++ items /\
    Forall2 (fun m it => it.1 = m /\ mask_of s m = Some it.2) modes items.
Proof.
  induction modes as [|m modes IH]; intros acc Hnd Hk.
  - exists []. by rewrite app_nil_r.
  - inversion Hk as [|? ? [idx Hm] Hk']; subst.
    apply NoDup_app in Hnd as (Hacc & Hdisj & Hnd).
    apply NoDup_cons in Hnd as [Hm' Hnd].
    cbn. rewrite Hm, dict_set_fresh by (intros Hin; apply (Hdisj _ Hin); left).
    destruct (IH (acc ++ [(m, idx)])) as (items & E & F); [| done |].
    + rewrite fmap_app. cbn. rewrite <- app_assoc. cbn.
      apply NoDup_app. split; [done |]. split; [| by apply NoDup_cons].
      intros x Hx. by apply Hdisj.
    + exists ((m, idx) :: items). rewrite E, <- app_assoc. split; [done |].
      by constructor.
Qed.

Lemma dict_comp_pure_fold {V W X : Type} (g : string -> V -> option W)
    (h : string * X -> W) items (ps : list (string * X)) :
  Forall2 (fun it q => it.1 = q.1 /\ g it.1 it.2 = Some (h q)) items ps ->
  forall acc,
    dict_comp_pure g items acc
    = Some (foldl (fun d q => <[q.1 := h q]> d) acc ps).
Proof.
  induction 1 as [|[k v] q items ps [Hk Hg] _ IH]; intros acc; [done |].
  cbn in *. rewrite Hg, Hk. apply IH.
Qed.

Lemma covered_entries (s : HAN B) ps : forall items,
  order_insensitive ->
  Forall (covers_split s) ps ->
  Forall2 (fun m (it : string * list node) =>
             it.1 = m /\ mask_of s m = Some it.2) ps.*1 items ->
  Forall2 (fun (it : string * list node) q =>
             it.1 = q.1 /\
             score_of s (forward_full (model s) false) it.1
             = Some (pass_score (model s) (labels s) q.2)) items ps /\
  Forall2 (fun (it : string * list node) q =>
             it.1 = q.1 /\
             loss_of s (forward_full (model s) false) it.2
             = Some (pass_last_loss (model s) (labels s) q.2)) items ps.
Proof.
  induction ps as [|[mode bs] ps IH]; intros items Hins Hcov HF.
  - inversion HF. split; constructor.
  - inversion Hcov as [|? ? (b & idx & Hb & Hmask & Hperm & Hlab & Hrows) Hcov'];
      subst.
    cbn in HF. inversion HF as [|? [k mask] ? items' [Hk Hm] HF']; subst.
    cbn in *. subst bs. rewrite Hmask in Hm. injection Hm as <-.
    destruct (covered_entry s k b idx Hins Hmask Hperm Hlab Hrows)
      as [HS HL].
    destruct (IH items' Hins Hcov' HF') as [IH1 IH2].
    split; constructor; auto.
Qed.

(** C8: when every requested split is traversed as a single batch that
    covers it, and the model computes on that batch what it computes on the
    full graph, full-batch and mini-batch evaluation of the same flow return
    the same loss mapping and the same score mapping. *)
Theorem C8_full_and_mini_agree_on_one_covering_batch (s : HAN B) modes ps :
  order_insensitive ->
  NoDup modes ->
  passes s None (rng s) modes = Some ps ->
  Forall (covers_split s) ps ->
  exists md ld sf sm,
    _full_test_step modes s = Ok ((md, ld), sf) /\
    _mini_test_step modes s = Ok ((md, ld), sm).
Proof.
  intros Hins Hnd Hp Hcov.
  pose proof (passes_modes s modes None (rng s) ps Hp) as Hm.
  assert (Hok : passes_ok s ps).
  { unfold passes_ok. eapply Forall_impl; [exact Hcov |].
    intros q (b & idx & -> & _ & _ & Hlab & _). split; [done |].
    by constructor. }
  destruct (mini_test_step_spec modes s ps Hp Hok) as [r' E].
  eexists _, _, _, _. split; [| exact E].
  apply full_test_step_iff. split; [reflexivity |].
  destruct (build_masks_fresh s modes []) as (items & Eb & F).
  { done. }
  { rewrite <- Hm. apply Forall_fmap. eapply Forall_impl; [exact Hcov |].
    intros q (b & idx & _ & Hmask & _). by eexists. }
  rewrite <- Hm in F.
  destruct (covered_entries s ps items Hins Hcov F) as [F1 F2].
  unfold full_result, build_masks. rewrite Eb. cbn [app].
  rewrite (dict_comp_pure_fold
             (fun key _ => score_of s (forward_full (model s) false) key)
             (fun q => pass_score (model s) (labels s) q.2) items ps F1).
  rewrite (dict_comp_pure_fold
             (fun _ mask => loss_of s (forward_full (model s) false) mask)
             (fun q => pass_last_loss (model s) (labels s) q.2) items ps F2).
  reflexivity.
Qed.

(** C6 (amended): evaluation never changes the model parameters.  In
    full-batch mode a second evaluation call right after the first returns
    the same loss and score mappings.  In mini-batch mode it does so whenever
    the loaders yield, in the second call, the batch sequences of the
    first. *)
Theorem C6_evaluation_repeatable_on_same_batches (s : HAN B) modes :
  (forall r1 s1,
     _full_test_step modes s = Ok (r1, s1) ->
     model s1 = model s /\
     exists s2, _full_test_step modes s1 = Ok (r1, s2)) /\
  (forall ps r1 s1,
     _mini_test_step modes s = Ok (r1, s1) ->
     passes s None (rng s) modes = Some ps ->
     passes_ok s ps ->
     passes s1 None (rng s1) modes = Some ps ->
     model s1 = model s /\
     exists s2, _mini_test_step modes s1 = Ok (r1, s2)).
Proof.
  split.
  - intros r1 s1 E. apply full_test_step_iff in E as [-> E].
    split; [done |]. exists (after_full_test (after_full_test s)).
    apply full_test_step_iff. by rewrite full_result_after.
  - intros ps r1 s1 E Hp Hok Hp1.
    destruct (mini_test_step_spec modes s ps Hp Hok) as [r' E'].
    rewrite E' in E. injection E as <- <-. split; [done |].
    destruct (mini_test_step_spec modes _ ps Hp1 Hok) as [r'' E''].
    eexists. exact E''.
Qed.

(** ** Prediction *)

Lemma predict_batches_spec bs : forall a i lst (s : HAN B),
  training s = false ->
  for_enum predict_batch a i lst bs s
  = Ok (((a.1 ++ (seeds <$> bs), a.2 ++ pass_logits (model s) bs),
         match bs with
         | [] => lst
         | _ => Some (i + length bs - 1)
         end),
        set_log (log s ++ ((fun _ => EvForward (model s) false) <$> bs)) s).
Proof.
  induction bs as [|b bs IH]; intros [ids ys] i lst s Ht; cbn.
  - by rewrite !app_nil_r, set_log_id.
  - rewrite Ht, IH by done. cbn.
    rewrite <- !app_assoc. cbn. do 3 f_equal.
    destruct bs; cbn; f_equal; lia.
Qed.

Lemma mini_prediction_step_spec (s : HAN B) ld :
  pred_loader s = Some ld ->
  (ld (rng s)).1 <> [] ->
  let bs := (ld (rng s)).1 in
  _mini_prediction_step s
  = Ok ((concat (seeds <$> bs), concat (pass_logits (model s) bs)),
        set_log (log s ++ ((fun _ => EvForward (model s) false) <$> bs))
                (set_rng (ld (rng s)).2 (set_training false s))).
Proof.
  intros Hld Hne bs.
  unfold _mini_prediction_step, bind, modify, getattr, iterate, get. cbn.
  rewrite Hld. cbn. subst bs. destruct (ld (rng s)) as [bs r]. cbn in *.
  pose proof (predict_batches_spec bs ([], []) 0 None
                (set_rng r (set_training false s)) eq_refl) as E.
  unfold bind in E. rewrite E. cbn.
  destruct bs as [|b bs]; [done |]. reflexivity.
Qed.

Lemma zip_concat {X Y : Type} (xs : list (list X)) (ys : list (list Y)) :
  Forall2 (fun x y => length x = length y) xs ys ->
  zip (concat xs) (concat ys) = concat (zip_with zip xs ys).
Proof.
  induction 1 as [|x y xs ys Hxy _ IH]; [done |].
  rewrite !concat_cons. cbn [zip_with]. rewrite concat_cons, <- IH.
  by apply zip_with_app.
Qed.

(** C7: a prediction pass returns as many predictions as identifiers, the
    k-th prediction being the model's output row for the k-th identifier.
    In mini-batch mode the identifiers are the seeds of the batches in yield
    order, so when the loader's traversal partitions the prediction index
    set every one of its identifiers occurs exactly once; in full-batch mode
    the identifiers are exactly [0, .., num_nodes - 1], which holds every
    identifier of the prediction index set once. *)
Theorem C7_prediction_alignment (s : HAN B) epoch :
  prediction_flag (args s) = true ->
  (use_mini s = true ->
   forall ld idx,
     pred_loader s = Some ld ->
     pred_idx s = Some idx ->
     (ld (rng s)).1 <> [] ->
     rows_per_seed (model s) (ld (rng s)).1 ->
     NoDup idx ->
     concat (seeds <$> (ld (rng s)).1) ≡ₚ idx ->
     exists ids preds s',
       finish epoch s = Ok (Prediction ids preds, s') /\
       length ids = length preds /\
       zip ids preds
       = concat ((fun b => zip (seeds b) (forward_batch (model s) false b))
                   <$> (ld (rng s)).1) /\
       NoDup ids /\
       (forall n, n ∈ idx <-> n ∈ ids)) /\
  (use_mini s = false ->
   length (forward_full (model s) false) = num_nodes s ->
   exists preds s',
     finish epoch s = Ok (Prediction (seq 0 (num_nodes s)) preds, s') /\
     preds = forward_full (model s) false /\
     length (seq 0 (num_nodes s)) = length preds /\
     NoDup (seq 0 (num_nodes s)) /\
     (forall idx n, pred_idx s = Some idx -> n ∈ idx -> n < num_nodes s ->
                    n ∈ seq 0 (num_nodes s))).
Proof.
  intros Hflag. split.
  - intros Hmini ld idx Hld Hidx Hne Hrows Hnd Hperm.
    set (bs := (ld (rng s)).1) in *.
    assert (Hlen : Forall2 (fun x y => length x = length y)
                     (seeds <$> bs) (pass_logits (model s) bs)).
    { unfold pass_logits. apply Forall2_fmap, Forall_Forall2_diag.
      eapply Forall_impl; [exact Hrows |]. by intros b ->. }
    exists (concat (seeds <$> bs)), (concat (pass_logits (model s) bs)).
    eexists. split.
    { unfold finish, bind at 1, get. rewrite Hflag.
      unfold bind at 1, emit, modify. cbn. unfold use_mini in *. cbn.
      rewrite Hmini.
      unfold bind at 1.
      erewrite mini_prediction_step_spec; [reflexivity | done | done]. }
    split.
    { rewrite !length_concat. f_equal.
      clear -Hlen. induction Hlen; cbn; congruence. }
    split.
    { rewrite zip_concat by done. f_equal. unfold pass_logits.
      clear. induction bs; cbn; congruence. }
    split; [by rewrite Hperm |].
    intros n. by rewrite Hperm.
  - intros Hfull Hlen. eexists _, _. split.
    { unfold finish, bind at 1, get. rewrite Hflag.
      unfold bind at 1, emit, modify. cbn. unfold use_mini in *. cbn.
      rewrite Hfull. reflexivity. }
    split; [reflexivity |]. split; [by rewrite length_seq |].
    split; [apply NoDup_seq |].
    intros idx n _ _ Hn. apply elem_of_seq. lia.
Qed.

(** ** A Hoare-style rule set for the flow monad *)

Section Rules.
Variable I : HAN B -> Prop.
Variable K : Event B -> Prop.

Lemma triple_ret {A : Type} (a : A) (Q : A -> Prop) :
  Q a -> triple I (ret a) K Q.
Proof.
  intros Ha s a' s' Hs [= <- <-]. split; [done |]. split; [done |].
  exists []. by rewrite app_nil_r.
Qed.

Lemma triple_raise {A : Type} (e : Exn) (Q : A -> Prop) :
  triple I (raise e) K Q.
Proof. intros s a s' _ [=]. Qed.

Lemma triple_bind {A C : Type} (m : M A) (k : A -> M C) Qa Qc :
  triple I m K Qa ->
  (forall a, Qa a -> triple I (k a) K Qc) ->
  triple I (bind m k) K Qc.
Proof.
  intros Hm Hk s c s'' Hs E.
  apply bind_inv in E as (a & s' & E1 & E2).
  destruct (Hm s a s' Hs E1) as (Hs' & Ha & evs1 & L1 & F1).
  destruct (Hk a Ha s' c s'' Hs' E2) as (Hs'' & Hc & evs2 & L2 & F2).
  split; [done |]. split; [done |]. exists (evs1 ++ evs2).
  split; [by rewrite L2, L1, app_assoc | by apply Forall_app].
Qed.

(** a step that leaves the state as it is *)
Lemma triple_reader {A : Type} (m : M A) (Q : A -> Prop) :
  (forall s a s', I s -> m s = Ok (a, s') -> s' = s /\ Q a) ->
  triple I m K Q.
Proof.
  intros Hm s a s' Hs E. destruct (Hm s a s' Hs E) as [-> Ha].
  split; [done |]. split; [done |]. exists []. by rewrite app_nil_r.
Qed.

Lemma triple_get : triple I get K I.
Proof. apply triple_reader. by intros s a s' Hs [= <- <-]. Qed.

Lemma triple_getattr {A : Type} (f : HAN B -> option A) name :
  triple I (getattr f name) K (fun _ => True).
Proof.
  apply triple_reader. intros s a s' _. unfold getattr.
  destruct (f s); [by intros [= <- <-] | done].
Qed.

Lemma triple_local {A : Type} (v : option A) name :
  triple I (local v name) K (fun _ => True).
Proof. destruct v; [by apply triple_ret | apply triple_raise]. Qed.

Lemma triple_index {A : Type} (x : list A) idx :
  triple I (index x idx) K (fun _ => True).
Proof.
  unfold index. destruct (gather x idx); [by apply triple_ret |].
  apply triple_raise.
Qed.

Lemma triple_cat {A : Type} (parts : list (list A)) :
  triple I (cat parts) K (fun _ => True).
Proof. destruct parts; [apply triple_raise | by apply triple_ret]. Qed.

Lemma triple_modify (f : HAN B -> HAN B) :
  (forall s, I s -> I (f s)) ->
  (forall s, log (f s) = log s) ->
  triple I (modify f) K (fun _ => True).
Proof.
  intros HI Hl s a s' Hs [= <- <-]. split; [auto |]. split; [done |].
  exists []. by rewrite app_nil_r, Hl.
Qed.

Hypothesis I_log : forall s l, I s -> I (set_log l s).
Hypothesis I_rng : forall s r, I s -> I (set_rng r s).

Lemma triple_emit (e : Event B) :
  K e -> triple I (emit e) K (fun _ => True).
Proof.
  intros He s a s' Hs [= <- <-]. split; [auto |]. split; [done |].
  exists [e]. split; [done | by constructor].
Qed.

Lemma triple_iterate (ld : Loader) :
  triple I (iterate ld) K (fun _ => True).
Proof.
  unfold iterate. eapply triple_bind; [apply triple_get |].
  intros s Hs. cbv beta. destruct (ld (rng s)) as [bs r].
  eapply triple_bind; [| intros; by apply triple_ret].
  apply triple_modify; [auto | done].
Qed.

Lemma triple_for_enum {A L : Type} (body : L -> nat -> A -> M L) xs :
  (forall acc i x, triple I (body acc i x) K (fun _ => True)) ->
  forall acc i last,
    triple I (for_enum body acc i last xs) K (fun _ => True).
Proof.
  intros Hb. induction xs as [|x xs IH]; intros acc i last; cbn.
  - by apply triple_ret.
  - eapply triple_bind; [apply Hb |]. intros acc' _. apply IH.
Qed.

End Rules.

(** ** The log of the steps *)

Lemma I_cfg_log c s l : I_cfg c s -> I_cfg c (set_log l s).
Proof. done. Qed.
Lemma I_cfg_rng c s r : I_cfg c s -> I_cfg c (set_rng r s).
Proof. done. Qed.
Lemma I_eval_log c p s l : I_eval c p s -> I_eval c p (set_log l s).
Proof. done. Qed.
Lemma I_eval_rng c p s r : I_eval c p s -> I_eval c p (set_rng r s).
Proof. done. Qed.

Local Hint Resolve I_cfg_log I_cfg_rng I_eval_log I_eval_rng : core.

Ltac triple_step :=
  first
    [ apply triple_raise
    | apply triple_ret; exact Logic.I
    | apply triple_getattr
    | apply triple_local
    | apply triple_index
    | apply triple_cat
    | apply triple_iterate; solve [auto]
    | apply triple_modify; [by intros ? [? ?] || by intros ? ? | done] ].

Ltac triple_seq := eapply triple_bind; [| intros ? ?; cbv beta].

Lemma call_model_full_train c :
  triple (I_cfg c) call_model_full train_ev (fun _ => True).
Proof.
  unfold call_model_full. triple_seq; [apply triple_get |].
  triple_seq; [apply triple_emit; [auto | done] | triple_step].
Qed.

Lemma call_model_batch_train c b :
  triple (I_cfg c) (call_model_batch b) train_ev (fun _ => True).
Proof.
  unfold call_model_batch. triple_seq; [apply triple_get |].
  triple_seq; [apply triple_emit; [auto | done] | triple_step].
Qed.

Lemma apply_gradient_train c g l :
  triple (I_cfg c) (apply_gradient g l) train_ev (fun _ => True).
Proof.
  unfold apply_gradient. triple_seq; [apply triple_get |].
  destruct (optimizer_step _ _ _) as [p o].
  triple_seq; [triple_step | apply triple_emit; [auto | done]].
Qed.

Lemma full_train_step_log c :
  triple (I_cfg c) _full_train_step train_ev (fun _ => True).
Proof.
  unfold _full_train_step.
  triple_seq; [triple_step |].
  triple_seq; [apply call_model_full_train |].
  triple_seq; [apply triple_get |].
  triple_seq; [triple_step |].
  triple_seq; [triple_step |].
  triple_seq; [apply apply_gradient_train | triple_step].
Qed.

Lemma train_batch_log c loss_all i b :
  triple (I_cfg c) (train_batch loss_all i b) train_ev (fun _ => True).
Proof.
  unfold train_batch.
  triple_seq; [apply triple_get |].
  triple_seq; [triple_step |].
  triple_seq; [apply call_model_batch_train |].
  triple_seq; [apply apply_gradient_train | triple_step].
Qed.

Lemma mini_train_step_log c :
  triple (I_cfg c) _mini_train_step train_ev (fun _ => True).
Proof.
  unfold _mini_train_step.
  triple_seq; [triple_step |].
  triple_seq; [triple_step |].
  triple_seq; [triple_step |].
  triple_seq; [apply triple_for_enum; intros; apply train_batch_log |].
  match goal with a : (Q * option nat)%type |- _ => destruct a end.
  triple_seq; [triple_step | triple_step].
Qed.

Section EvalLog.
Variable c : Args * (Z * nat * list node * list node * list node *
                     option (list node) * list Label * option Loader *
                     option Loader * option Loader * option Loader * Z * Z).
Variable p : Params.
Variable K : Event B -> Prop.
Hypothesis K_forward : forall tr, K (EvForward p tr).

Lemma call_model_full_eval :
  triple (I_eval c p) call_model_full K (fun _ => True).
Proof.
  unfold call_model_full. eapply triple_bind; [apply triple_get |].
  intros s [_ <-]. cbv beta.
  triple_seq; [apply triple_emit; [auto | apply K_forward] | triple_step].
Qed.

Lemma call_model_batch_eval b :
  triple (I_eval c p) (call_model_batch b) K (fun _ => True).
Proof.
  unfold call_model_batch. eapply triple_bind; [apply triple_get |].
  intros s [_ <-]. cbv beta.
  triple_seq; [apply triple_emit; [auto | apply K_forward] | triple_step].
Qed.

Lemma predict_batch_log a i b :
  triple (I_eval c p) (predict_batch a i b) K (fun _ => True).
Proof.
  unfold predict_batch.
  triple_seq; [apply call_model_batch_eval | triple_step].
Qed.

Lemma mini_prediction_step_log :
  triple (I_eval c p) _mini_prediction_step K (fun _ => True).
Proof.
  unfold _mini_prediction_step.
  triple_seq; [triple_step |].
  triple_seq; [triple_step |].
  triple_seq; [triple_step |].
  triple_seq; [apply triple_for_enum; intros; apply predict_batch_log |].
  match goal with a : (_ * option nat)%type |- _ => destruct a end.
  triple_seq; [triple_step |].
  triple_seq; [triple_step | triple_step].
Qed.

Lemma full_prediction_step_log :
  triple (I_eval c p) _full_prediction_step K (fun _ => True).
Proof.
  unfold _full_prediction_step.
  triple_seq; [triple_step | apply call_model_full_eval].
Qed.

Hypothesis K_batch_loss : forall l, K (EvBatchLoss l).
Hypothesis K_evaluator : forall mode yt yp, K (EvEvaluator mode yt yp).

Lemma task_evaluate_log logits mode :
  triple (I_eval c p) (task_evaluate logits mode) K (fun _ => True).
Proof.
  unfold task_evaluate. triple_seq; [apply triple_get |].
  destruct (mask_of _ _); [| triple_step].
  triple_seq; [triple_step |].
  triple_seq; [triple_step | triple_step].
Qed.

Lemma dict_comp_log {V W : Type} (f : string -> V -> M W) items :
  (forall k v, triple (I_eval c p) (f k v) K (fun _ => True)) ->
  forall acc, triple (I_eval c p) (dict_comp f items acc) K (fun _ => True).
Proof.
  intros Hf. induction items as [|[k v] items IH]; intros acc; cbn.
  - triple_step.
  - triple_seq; [apply Hf | apply IH].
Qed.

Lemma full_test_step_log modes :
  triple (I_eval c p) (_full_test_step modes) K (fun _ => True).
Proof.
  unfold _full_test_step.
  triple_seq; [triple_step |].
  triple_seq; [apply call_model_full_eval |].
  triple_seq; [apply triple_get |].
  triple_seq; [apply dict_comp_log; intros; apply task_evaluate_log |].
  triple_seq; [| triple_step].
  apply dict_comp_log. intros k v.
  triple_seq; [triple_step |].
  triple_seq; [triple_step | triple_step].
Qed.

Lemma test_batch_log a i b :
  triple (I_eval c p) (test_batch a i b) K (fun _ => True).
Proof.
  unfold test_batch.
  triple_seq; [apply call_model_batch_eval |].
  triple_seq; [apply triple_get |].
  triple_seq; [triple_step |].
  triple_seq; [apply triple_emit; [auto | apply K_batch_loss] | triple_step].
Qed.

Lemma select_loader_log l mode :
  triple (I_eval c p) (select_loader l mode) K (fun _ => True).
Proof.
  unfold select_loader.
  repeat (destruct (String.eqb mode _);
          [triple_seq; [triple_step | triple_step] |]).
  triple_step.
Qed.

Lemma test_mode_log l mode :
  triple (I_eval c p) (test_mode l mode) K (fun _ => True).
Proof.
  unfold test_mode.
  triple_seq; [apply select_loader_log |].
  triple_seq; [triple_step |].
  triple_seq; [triple_step |].
  triple_seq; [apply triple_for_enum; intros; apply test_batch_log |].
  match goal with a : (BatchLocals * option nat)%type |- _ => destruct a end.
  triple_seq; [triple_step |].
  triple_seq; [triple_step |].
  triple_seq; [triple_step |].
  triple_seq; [apply triple_emit; [auto | apply K_evaluator] |].
  triple_seq; [triple_step | triple_step].
Qed.

Lemma for_modes_log modes :
  forall l, triple (I_eval c p) (for_modes l modes) K (fun _ => True).
Proof.
  induction modes as [|mode modes IH]; intros l; cbn.
  - triple_step.
  - triple_seq; [apply test_mode_log | apply IH].
Qed.

Lemma mini_test_step_log modes :
  triple (I_eval c p) (_mini_test_step modes) K (fun _ => True).
Proof.
  unfold _mini_test_step.
  triple_seq; [triple_step |].
  triple_seq; [apply for_modes_log | triple_step].
Qed.

Lemma test_step_log modes :
  triple (I_eval c p) (test_step modes) K (fun _ => True).
Proof.
  unfold test_step. triple_seq; [apply triple_get |].
  destruct (use_mini _); [apply mini_test_step_log | apply full_test_step_log].
Qed.

End EvalLog.

(** ** The log of the completion path *)

Lemma finish_log c p epoch :
  triple (I_eval c p) (finish epoch) (finish_ev (prediction_flag c.1) p)
         (fun r => prediction_flag c.1 = true -> is_prediction r).
Proof.
  unfold finish. eapply triple_bind; [apply triple_get |].
  intros s [Hc Hp]. cbv beta.
  assert (Ha : args s = c.1) by (by rewrite <- Hc).
  rewrite Ha. destruct (prediction_flag c.1) eqn:Hflag.
  - assert (KF : forall tr, finish_ev true p (EvForward p tr)) by done.
    triple_seq; [apply triple_emit; [auto | done] |].
    destruct (use_mini s).
    + triple_seq; [apply mini_prediction_step_log, KF |].
      match goal with a : (list node * list Row)%type |- _ => destruct a end.
      by apply triple_ret.
    + triple_seq; [apply full_prediction_step_log, KF |].
      by apply triple_ret.
  - assert (KF : forall tr, finish_ev false p (EvForward p tr)) by done.
    assert (KB : forall l, finish_ev false p (EvBatchLoss l)) by done.
    assert (KE : forall m yt yp, finish_ev false p (EvEvaluator m yt yp))
      by done.
    destruct (test_flag c.1); [| by apply triple_ret].
    destruct (String.eqb _ _).
    + triple_seq; [apply test_step_log; [apply KF | apply KB | apply KE] |].
      match goal with a : (_ * gmap string Q)%type |- _ => destruct a end.
      triple_seq; [apply triple_emit; [auto | done] |].
      triple_seq; [triple_step |].
      triple_seq; [apply call_model_full_eval, KF |].
      triple_seq; [apply triple_emit; [auto | done] |].
      triple_seq; [triple_step | by apply triple_ret].
    + triple_seq; [apply test_step_log; [apply KF | apply KB | apply KE] |].
      match goal with a : (_ * gmap string Q)%type |- _ => destruct a end.
      triple_seq; [apply triple_emit; [auto | done] |].
      triple_seq; [triple_step | by apply triple_ret].
Qed.

(** ** The log of the epoch loop *)

Lemma train_step_log c (mini : bool) :
  triple (I_cfg c) (if mini then _mini_train_step else _full_train_step)
         train_ev (fun _ => True).
Proof. destruct mini; [apply mini_train_step_log | apply full_train_step_log]. Qed.

Lemma epoch_body_trace st epoch (s : HAN B) st' brk s' :
  epoch_body st epoch s = Ok ((st', brk), s') ->
  config s' = config s /\
  exists seg,
    log s' = log s ++ seg /\
    epoch_seg (evaluate_interval s) epoch st seg st' brk.
Proof.
  unfold epoch_body. intros E.
  apply bind_inv in E as (u & s1 & E1 & E). injection E1 as _ <-.
  apply bind_inv in E as (u1 & s1' & E1 & E). injection E1 as <- <-.
  apply bind_inv in E as (tl & s2 & E2 & E).
  destruct (train_step_log (config s) _ (set_log (log s ++ [EvEpoch epoch]) s)
              tl s2 eq_refl E2)
    as (C2 & _ & tr & L2 & F2).
  apply bind_inv in E as (u2 & s2' & E1 & E). injection E1 as <- <-.
  assert (Hk : evaluate_interval s2 = evaluate_interval s)
    by (apply (f_equal (fun c => c.2.2)) in C2; exact C2).
  rewrite Hk in E.
  destruct (evaluate_interval s =? 0)%Z; [done |].
  unfold epoch_seg.
  destruct (epoch `mod` evaluate_interval s =? 0)%Z.
  - apply bind_inv in E as ([md ld] & s3 & E3 & E).
    destruct (test_step_log (config s) (model s2) (eval_ev (model s2))
                (fun _ => eq_refl) (fun _ => Logic.I) (fun _ _ _ => Logic.I)
                _ s2 _ s3 (conj C2 eq_refl) E3)
      as ([C3 M3] & _ & te & L3 & F3).
    apply bind_inv in E as (v & s3' & E1 & E).
    assert (s3' = s3) as ->
        by (destruct (ld !! "valid"); [by injection E1 | done]).
    clear E1.
    apply bind_inv in E as (u3 & s4 & E1 & E). injection E1 as _ <-.
    apply bind_inv in E as (u4 & s4' & E1 & E). injection E1 as <- <-.
    cbn [model set_log] in E.
    destruct (loss_step st v (model s3)) as [st1 stop] eqn:Els.
    apply bind_inv in E as (u5 & s5 & E1 & E). injection E1 as _ <-.
    rewrite M3 in Els.
    destruct stop.
    + apply bind_inv in E as (u6 & s6 & E1 & E). injection E1 as _ <-.
      injection E as <- <- <-. split; [exact C3 |].
      exists (EvEpoch epoch :: tr ++ te
              ++ [EvTrainInfo epoch tl v; EvLossStep v (model s2) true]
              ++ [EvEarlyStop epoch]).
      split.
      * cbn [log set_log]. rewrite M3, L3, L2. cbn [log set_log].
        rewrite <- !app_assoc. reflexivity.
      * exists tr. split; [exact F2 |]. by exists te, tl, v, (model s2).
    + injection E as <- <- <-. split; [exact C3 |].
      exists (EvEpoch epoch :: tr ++ te
              ++ [EvTrainInfo epoch tl v; EvLossStep v (model s2) false]
              ++ []).
      split.
      * cbn [log set_log]. rewrite M3, L3, L2. cbn [log set_log].
        rewrite <- !app_assoc. reflexivity.
      * exists tr. split; [exact F2 |]. by exists te, tl, v, (model s2).
  - injection E as <- <- <-. split; [exact C2 |].
    exists (EvEpoch epoch :: tr). split.
    + rewrite L2. cbn. by rewrite <- app_assoc.
    + exists tr. by split.
Qed.

Lemma epoch_loop_trace epochs : forall st last (s : HAN B) st' last' s',
  epoch_loop st last epochs s = Ok ((st', last'), s') ->
  config s' = config s /\
  exists segs b,
    log s' = log s ++ concat segs /\
    loop_run (evaluate_interval s) st epochs segs st' b.
Proof.
  induction epochs as [|epoch rest IH]; intros st last s st' last' s' E.
  - injection E as <- <- <-. split; [done |]. exists [], false.
    split; [by rewrite app_nil_r | constructor].
  - cbn in E. apply bind_inv in E as ([st1 brk] & s1 & E1 & E).
    destruct (epoch_body_trace _ _ _ _ _ _ E1) as (C1 & seg & L1 & S1).
    destruct brk.
    + injection E as <- <- <-. split; [done |]. exists [seg], true.
      split; [cbn; by rewrite app_nil_r | by constructor].
    + destruct (IH _ _ _ _ _ _ E) as (C2 & segs & b & L2 & R2).
      split; [congruence |]. exists (seg :: segs), b. split.
      * cbn. by rewrite L2, L1, app_assoc.
      * econstructor; [exact S1 |].
        replace (evaluate_interval s) with (evaluate_interval s1); [done |].
        by apply (f_equal (fun c => c.2.2)) in C1.
Qed.

Lemma train_trace (s : HAN B) r s' :
  train s = Ok (r, s') ->
  exists segs b st last s3,
    loop_run (evaluate_interval s) (new_stopper (patience (args s)))
             (epoch_range (max_epoch s)) segs st b /\
    log s3 = log s ++ concat segs ++ [EvLoadModel (model s3)] /\
    config s3 = config s /\
    (forall c, best_checkpoint st = Some c -> model s3 = c) /\
    finish last s3 = Ok (r, s').
Proof.
  unfold train. intros E.
  apply bind_inv in E as (u & s1 & E1 & E). injection E1 as _ <-.
  apply bind_inv in E as (u1 & s1' & E1 & E). injection E1 as <- <-.
  cbn [args max_epoch set_model] in E.
  apply bind_inv in E as ([st last] & s2 & E2 & E).
  destruct (epoch_loop_trace _ _ _ _ _ _ _ E2) as (C2 & segs & b & L2 & R2).
  apply bind_inv in E as (u2 & s2' & E1 & E). injection E1 as <- <-.
  apply bind_inv in E as (u3 & s3 & E1 & E). injection E1 as _ <-.
  apply bind_inv in E as (u4 & s4 & E1 & E). injection E1 as _ <-.
  match type of E with finish _ ?s4 = _ => exists segs, b, st, last, s4 end.
  split; [exact R2 |]. split.
  { cbn [log set_log set_model model]. rewrite L2. cbn [log set_model].
    by rewrite <- !app_assoc. }
  split; [exact C2 |]. split; [| exact E].
  intros c0 Hc. cbn [model set_log set_model]. unfold load_model.
  by rewrite Hc.
Qed.

Lemma finish_trace (s3 : HAN B) last r s' :
  finish last s3 = Ok (r, s') ->
  exists fin,
    log s' = log s3 ++ fin /\
    Forall (finish_ev (prediction_flag (args s3)) (model s3)) fin /\
    (prediction_flag (args s3) = true -> is_prediction r).
Proof.
  intros E.
  destruct (finish_log (config s3) (model s3) last s3 r s' (conj eq_refl eq_refl) E)
    as (_ & Hr & fin & L & F).
  by exists fin.
Qed.

(** ** What the log of the epoch loop looks like *)

Lemma omap_none {X Y : Type} (f : X -> option Y) (P : X -> Prop) l :
  (forall x, P x -> f x = None) -> Forall P l -> omap f l = [].
Proof.
  intros Hf. induction 1 as [|x l Hx _ IH]; [done |].
  cbn. by rewrite (Hf x Hx).
Qed.

Lemma train_ev_consultations tr : Forall train_ev tr -> consultations tr = [].
Proof. apply omap_none. by intros []. Qed.

Lemma eval_ev_consultations p te :
  Forall (eval_ev p) te -> consultations te = [].
Proof. apply omap_none. by intros []. Qed.

Lemma train_ev_epochs tr : Forall train_ev tr -> epochs_of tr = [].
Proof. apply omap_none. by intros []. Qed.

Lemma eval_ev_epochs p te : Forall (eval_ev p) te -> epochs_of te = [].
Proof. apply omap_none. by intros []. Qed.

Lemma finish_ev_consultations flag p fin :
  Forall (finish_ev flag p) fin -> consultations fin = [].
Proof. apply omap_none. by intros [] []. Qed.

Lemma epoch_seg_shape k epoch st seg st' brk :
  epoch_seg k epoch st seg st' brk ->
  head seg = Some (EvEpoch epoch) /\
  epochs_of seg = [epoch] /\
  Forall loop_ev seg /\
  if (epoch `mod` k =? 0)%Z then
    consulted_once_at_end seg brk /\
    exists v p, consultations seg = [(v, p, brk)] /\
                loss_step st v p = (st', brk)
  else consultations seg = [] /\ st' = st /\ brk = false.
Proof.
  intros (tr & Ftr & H).
  assert (Ltr : Forall loop_ev tr)
    by (eapply Forall_impl; [exact Ftr | by intros []]).
  destruct (epoch `mod` k =? 0)%Z.
  - destruct H as (te & tl & v & p & -> & Fte & Hls).
    assert (Lte : Forall loop_ev te)
      by (eapply Forall_impl; [exact Fte | by intros []]).
    split; [done |]. split.
    { unfold epochs_of. cbn. rewrite !omap_app.
      fold (epochs_of tr). fold (epochs_of te).
      rewrite (train_ev_epochs tr Ftr), (eval_ev_epochs p te Fte).
      by destruct brk. }
    split.
    { constructor; [done |]. apply Forall_app. split; [done |].
      apply Forall_app. split; [done |]. destruct brk; by repeat constructor. }
    split.
    + exists (EvEpoch epoch :: tr ++ te ++ [EvTrainInfo epoch tl v]), v, p,
        (if brk then [EvEarlyStop epoch] else []).
      split; [cbn; by rewrite <- !app_assoc |]. split.
      { unfold consultations. cbn. rewrite !omap_app.
        fold (consultations tr). fold (consultations te).
        by rewrite (train_ev_consultations tr Ftr),
          (eval_ev_consultations p te Fte). }
      split; [by destruct brk |].
      destruct brk; repeat constructor; by intros [].
    + exists v, p. split; [| done].
      unfold consultations. cbn. rewrite !omap_app.
      fold (consultations tr). fold (consultations te).
      rewrite (train_ev_consultations tr Ftr),
        (eval_ev_consultations p te Fte).
      by destruct brk.
  - destruct H as (-> & -> & ->). split; [done |]. split.
    { unfold epochs_of. cbn. fold (epochs_of tr).
      by rewrite (train_ev_epochs tr Ftr). }
    split; [by constructor |].
    split; [| done]. unfold consultations. cbn. fold (consultations tr).
    by rewrite (train_ev_consultations tr Ftr).
Qed.

(** the iterations run in order; a [break] ends the loop at once, and only
    a [break] ends it before the last epoch *)
Lemma loop_run_segs k st epochs segs st' b :
  loop_run k st epochs segs st' b ->
  length segs <= length epochs /\
  (length segs < length epochs -> b = true) /\
  (b = true -> exists seg e sta stb,
                 last segs = Some seg /\ epoch_seg k e sta seg stb true) /\
  forall i seg,
    segs !! i = Some seg ->
    exists e sta stb brk,
      epochs !! i = Some e /\
      epoch_seg k e sta seg stb brk /\
      (brk = true -> S i = length segs).
Proof.
  induction 1 as [st|st e rest seg st' Hs
                 |st e rest seg st1 segs st' b Hs Hrun IH].
  - split; [done |]. split; [cbn; lia |]. split; [done |].
    intros i seg Hi. by rewrite lookup_nil in Hi.
  - split; [cbn; lia |]. split; [done |]. split.
    + intros _. by exists seg, e, st, st'.
    + intros [|i] seg' Hi; [| by destruct i].
      injection Hi as <-. by exists e, st, st', true.
  - destruct IH as (Hlen & Hlt & Hb & Hi). split; [cbn; lia |].
    split; [cbn; intros; apply Hlt; lia |]. split.
    + intros Ht. destruct (Hb Ht) as (seg' & e' & sta & stb & Hl & Hs').
      exists seg', e', sta, stb. split; [| done].
      rewrite last_cons, Hl. done.
    + intros [|i] seg' Hi'.
      * injection Hi' as <-. exists e, st, st1, false. by repeat split.
      * destruct (Hi i seg' Hi') as (e' & sta & stb & brk & ? & ? & Hbrk).
        exists e', sta, stb, brk. repeat split; [done | done |].
        intros Ht. cbn. f_equal. by apply Hbrk.
Qed.

Lemma loop_run_events k st epochs segs st' b :
  loop_run k st epochs segs st' b -> Forall loop_ev (concat segs).
Proof.
  induction 1 as [st|st e rest seg st' Hs
                 |st e rest seg st1 segs st' b Hs Hrun IH]; cbn.
  - constructor.
  - rewrite app_nil_r. by apply epoch_seg_shape in Hs as (_ & _ & ? & _).
  - apply Forall_app. split; [| done].
    by apply epoch_seg_shape in Hs as (_ & _ & ? & _).
Qed.

Lemma epoch_range_lookup n i e :
  epoch_range n !! i = Some e -> e = Z.of_nat i.
Proof.
  unfold epoch_range. rewrite list_lookup_fmap. intros H.
  destruct (seq 0 (Z.to_nat n) !! i) as [j|] eqn:E; [| done].
  apply lookup_seq in E as [-> _]. by injection H as <-.
Qed.

Lemma epoch_range_length n : length (epoch_range n) = Z.to_nat n.
Proof. unfold epoch_range. by rewrite length_fmap, length_seq. Qed.

(** C3 (amended): the log of a run is the logs of the iterations of the
    epoch loop, then the restore, then the completion path.  The i-th
    iteration is epoch i.  When i is a multiple of [evaluate_interval] the
    stopper is consulted exactly once in it, after every batch of the
    epoch; otherwise it is not consulted in it.  An answer STOPPED ends the
    loop with that iteration, and the loop runs fewer than [max_epoch]
    iterations only if its last iteration ended with the answer STOPPED.
    Nothing after the loop consults the stopper. *)
Theorem C3_stopper_consulted_once_per_evaluated_epoch (s : HAN B) r s' :
  train s = Ok (r, s') ->
  exists segs p fin,
    log s' = log s ++ concat segs ++ EvLoadModel p :: fin /\
    consultations (EvLoadModel p :: fin) = [] /\
    length segs <= Z.to_nat (max_epoch s) /\
    (forall i seg,
       segs !! i = Some seg ->
       epochs_of seg = [Z.of_nat i] /\
       if (Z.of_nat i `mod` evaluate_interval s =? 0)%Z then
         exists stop,
           consulted_once_at_end seg stop /\
           length (consultations seg) = 1 /\
           (stop = true -> S i = length segs)
       else consultations seg = []) /\
    (length segs < Z.to_nat (max_epoch s) ->
     exists seg, last segs = Some seg /\ consulted_once_at_end seg true).
Proof.
  intros E.
  destruct (train_trace s r s' E) as (segs & b & st & last & s3 & R & L3 & C3
                                      & _ & Ef).
  destruct (finish_trace s3 last r s' Ef) as (fin & Lf & Ff & _).
  destruct (loop_run_segs _ _ _ _ _ _ R) as (Hlen & Hlt & Hb & Hi).
  rewrite epoch_range_length in Hlen, Hlt.
  exists segs, (model s3), fin. split.
  { rewrite Lf, L3, <- !app_assoc. reflexivity. }
  split.
  { unfold consultations. cbn. fold (consultations fin).
    by apply finish_ev_consultations in Ff. }
  split; [exact Hlen |]. split.
  - intros i seg Hseg.
    destruct (Hi i seg Hseg) as (e & sta & stb & brk & He & Hs & Hbrk).
    apply epoch_range_lookup in He as ->.
    apply epoch_seg_shape in Hs as (_ & Hep & _ & Hs). split; [exact Hep |].
    destruct (Z.of_nat i `mod` evaluate_interval s =? 0)%Z.
    + destruct Hs as (Hc & v & q & Hcs & _). exists brk.
      split; [exact Hc |]. split; [by rewrite Hcs | exact Hbrk].
    + by destruct Hs as (? & _).
  - intros Hshort. destruct (Hb (Hlt Hshort)) as (seg & e & sta & stb & Hl & Hs).
    exists seg. split; [exact Hl |].
    apply epoch_seg_shape in Hs as (_ & _ & _ & Hs).
    destruct (e `mod` evaluate_interval s =? 0)%Z.
    + by destruct Hs as (? & _).
    + by destruct Hs as (_ & _ & ?).
Qed.

(** ** The checkpoint *)



Lemma consultations_app (l1 l2 : list (Event B)) :
  consultations (l1 ++ l2) = consultations l1 ++ consultations l2.
Proof. apply omap_app. Qed.




(** ** Runs that complete *)

Lemma config_fields (a b : HAN B) :
  config a = config b ->
  args a = args b /\ num_nodes a = num_nodes b /\
  train_idx a = train_idx b /\ valid_idx a = valid_idx b /\
  test_idx a = test_idx b /\ labels a = labels b /\
  train_loader a = train_loader b /\ val_loader a = val_loader b /\
  test_loader a = test_loader b /\ pred_loader a = pred_loader b /\
  max_epoch a = max_epoch b /\ evaluate_interval a = evaluate_interval b.
Proof.
  intros H. repeat split.
  - exact (f_equal fst H).
  - exact (f_equal (fun c => c.2.1.1.1.1.1.1.1.1.1.1.1.2) H).
  - exact (f_equal (fun c => c.2.1.1.1.1.1.1.1.1.1.1.2) H).
  - exact (f_equal (fun c => c.2.1.1.1.1.1.1.1.1.1.2) H).
  - exact (f_equal (fun c => c.2.1.1.1.1.1.1.1.1.2) H).
  - exact (f_equal (fun c => c.2.1.1.1.1.1.1.2) H).
  - exact (f_equal (fun c => c.2.1.1.1.1.1.2) H).
  - exact (f_equal (fun c => c.2.1.1.1.1.2) H).
  - exact (f_equal (fun c => c.2.1.1.1.2) H).
  - exact (f_equal (fun c => c.2.1.1.2) H).
  - exact (f_equal (fun c => c.2.1.2) H).
  - exact (f_equal (fun c => c.2.2) H).
Qed.

Lemma well_formed_config (a b : HAN B) :
  config a = config b -> well_formed b -> well_formed a.
Proof.
  intros H. apply config_fields in H
    as (Ha & Hn & Htr & Hva & Hte & Hlb & Htl & Hvl & Htsl & Hpl & Hme & Hei).
  unfold well_formed.
  by rewrite Ha, Hn, Htr, Hva, Hte, Hlb, Htl, Hvl, Htsl, Hpl, Hme, Hei.
Qed.

Lemma full_train_step_ok (s : HAN B) :
  well_formed s -> exists v s', _full_train_step s = Ok (v, s').
Proof.
  intros (_ & _ & _ & _ & _ & _ & Hlb & Hfw & Htr & _).
  destruct (gather_in_range (forward_full (model s) true) (train_idx s))
    as [lg Hlg]; [by rewrite Hfw |].
  destruct (gather_in_range (labels s) (train_idx s)) as [lb Hl];
    [by rewrite Hlb |].
  unfold _full_train_step, bind, modify, call_model_full, get, emit, modify,
    index, apply_gradient, bind, get, emit, modify. cbn.
  unfold gather in Hlg, Hl. rewrite Hlg. cbn. rewrite Hl. cbn.
  destruct (optimizer_step _ _ _) as [p o]. cbn.
  by eexists _, _.
Qed.

Lemma mini_train_step_ok (s : HAN B) :
  well_formed s ->
  mini_batch_flag (args s) = true ->
  exists v s', _mini_train_step s = Ok (v, s').
Proof.
  intros (_ & Hmini & Hok & _) Hflag.
  destruct (Hmini Hflag) as ([ld Hld] & _).
  destruct (Hok ld (rng s) Hld) as [Hne Hr].
  destruct (train_batches_spec (ld (rng s)).1 0%Q 0 None
              (set_rng (ld (rng s)).2 (set_training true s)) Hr)
    as (acc & s' & evs & E & _).
  unfold _mini_train_step, bind, modify, getattr, iterate, get. cbn.
  rewrite Hld. cbn. destruct (ld (rng s)) as [bs r]. cbn in *.
  unfold bind in E |- *. cbn in E. rewrite E.
  destruct bs; [done |]. by eexists _, _.
Qed.

Lemma train_step_ok (s : HAN B) :
  well_formed s ->
  exists v s',
    (if mini_batch_flag (args s) then _mini_train_step
     else _full_train_step) s = Ok (v, s').
Proof.
  intros Hwf. destruct (mini_batch_flag (args s)) eqn:Hflag.
  - by apply mini_train_step_ok.
  - by apply full_train_step_ok.
Qed.

Lemma passes_total (s : HAN B) modes :
  Forall (mode_ready s) modes ->
  forall cur r,
    exists ps, passes s cur r modes = Some ps /\ passes_ok s ps.
Proof.
  induction 1 as [|mode modes (ld & idx & Hld & _ & Hok) _ IH]; intros cur r.
  - exists []. split; [done | constructor].
  - destruct (IH (Some ld) (ld r).2) as (ps & Hps & Hpok).
    exists ((mode, (ld r).1) :: ps). cbn. rewrite Hld, Hps. split; [done |].
    constructor; [apply Hok | done].
Qed.

Lemma in_modes_in_passes (ps : list (string * list (Batch Block))) mode :
  mode ∈ ps.*1 -> exists bs, (mode, bs) ∈ ps.
Proof.
  intros Hin. apply list_elem_of_fmap in Hin as ([m bs] & -> & Hin).
  by exists bs.
Qed.

Lemma mini_test_step_ok (s : HAN B) modes :
  Forall (mode_ready s) modes ->
  NoDup modes ->
  exists md ld s',
    _mini_test_step modes s = Ok ((md, ld), s') /\
    forall m, m ∈ modes -> is_Some (ld !! m).
Proof.
  intros Hready Hnd.
  destruct (passes_total s modes Hready None (rng s)) as (ps & Hps & Hok).
  destruct (mini_test_step_spec modes s ps Hps Hok) as [r' E].
  pose proof (passes_modes s modes None (rng s) ps Hps) as Hm.
  eexists _, _, _. split; [exact E |].
  intros m Hin. rewrite <- Hm in Hin.
  destruct (in_modes_in_passes ps m Hin) as [bs Hbs].
  rewrite (fill_losses_lookup _ _ ps ∅ m bs); [by eexists | by rewrite Hm | done].
Qed.

Lemma dict_comp_pure_total {V W : Type} (g : string -> V -> option W) items :
  Forall (fun it : string * V => is_Some (g it.1 it.2)) items ->
  forall acc,
    exists d,
      dict_comp_pure g items acc = Some d /\
      forall k, k ∈ items.*1 \/ is_Some (acc !! k) -> is_Some (d !! k).
Proof.
  induction 1 as [|[k v] items [w Hw] _ IH]; intros acc.
  - exists acc. split; [done |]. intros k [Hk|Hk]; [| done].
    by apply elem_of_nil in Hk.
  - cbn in *. rewrite Hw.
    destruct (IH (<[k := w]> acc)) as (d & Hd & Hdom).
    exists d. split; [done |]. intros k' [Hk|Hk].
    + apply elem_of_cons in Hk as [->|Hk]; [| by apply Hdom; left].
      apply Hdom. right. rewrite lookup_insert_eq. by eexists.
    + apply Hdom. right. destruct (decide (k = k')) as [->|Hne].
      * rewrite lookup_insert_eq. by eexists.
      * by rewrite lookup_insert_ne.
Qed.

Lemma mask_in_range (s : HAN B) mode idx :
  well_formed s ->
  mask_of s mode = Some idx ->
  Forall (fun n => n < num_nodes s) idx.
Proof.
  intros (_ & _ & _ & _ & _ & _ & _ & _ & Htr & Hva & Hte & _).
  unfold mask_of. repeat case_match; intros [= <-]; done.
Qed.

Lemma full_test_step_ok (s : HAN B) modes :
  well_formed s ->
  Forall (fun m => is_Some (mask_of s m)) modes ->
  NoDup modes ->
  exists md ld s',
    _full_test_step modes s = Ok ((md, ld), s') /\
    forall m, m ∈ modes -> is_Some (ld !! m).
Proof.
  intros Hwf Hknown Hnd.
  pose proof Hwf as (_ & _ & _ & _ & _ & _ & Hlb & Hfw & _).
  destruct (build_masks_fresh s modes [] Hnd Hknown) as (items & Eb & F).
  cbn [app] in Eb.
  assert (Hitems : Forall (fun it : string * list node =>
                             mask_of s it.1 = Some it.2) items).
  { clear -F. induction F as [|m [k v] ? ? [Hk Hm]]; constructor; [| done].
    cbn in *. by subst. }
  assert (Hkeys : items.*1 = modes).
  { clear -F. induction F as [|m [k v] ? ? [Hk Hm]]; [done |].
    cbn in *. by f_equal. }
  set (logits := forward_full (model s) false).
  destruct (dict_comp_pure_total
              (fun key (_ : list node) => score_of s logits key) items)
    with (acc := (∅ : gmap string Score)) as (md & Hmd & _).
  { eapply Forall_impl; [exact Hitems |]. intros [k idx] Hm. cbn in *.
    pose proof (mask_in_range s k idx Hwf Hm) as Hr.
    unfold score_of. rewrite Hm.
    destruct (gather_in_range logits idx) as [lg ->];
      [unfold logits; by rewrite Hfw |].
    destruct (gather_in_range (labels s) idx) as [lb ->];
      [by rewrite Hlb |].
    by eexists. }
  destruct (dict_comp_pure_total
              (fun (_ : string) mask => loss_of s logits mask) items)
    with (acc := (∅ : gmap string Q)) as (ld & Hld & Hdom).
  { eapply Forall_impl; [exact Hitems |]. intros [k idx] Hm. cbn in *.
    pose proof (mask_in_range s k idx Hwf Hm) as Hr.
    unfold loss_of.
    destruct (gather_in_range logits idx) as [lg ->];
      [unfold logits; by rewrite Hfw |].
    destruct (gather_in_range (labels s) idx) as [lb ->];
      [by rewrite Hlb |].
    by eexists. }
  exists md, ld, (after_full_test s). split.
  - apply full_test_step_iff. split; [done |].
    unfold full_result, build_masks. fold logits. by rewrite Eb, Hmd, Hld.
  - intros m Hin. apply Hdom. left. by rewrite Hkeys.
Qed.

Lemma mode_allowed_known (s : HAN B) mode :
  mode_allowed s mode -> is_Some (mask_of s mode).
Proof. intros [->|[->|[-> _]]]; by eexists. Qed.

Lemma mode_ready_of_wf (s : HAN B) mode :
  well_formed s ->
  mini_batch_flag (args s) = true ->
  mode_allowed s mode ->
  mode_ready s mode.
Proof.
  intros (_ & Hmini & Htl & Hvl & Htsl & _) Hflag Hmode.
  destruct (Hmini Hflag) as ([tl Etl] & [vl Evl] & Htest & _).
  destruct Hmode as [->|[->|[-> Htf]]].
  - exists tl, (train_idx s). repeat split; try done; by apply Htl.
  - exists vl, (valid_idx s). repeat split; try done; by apply Hvl.
  - destruct (Htest Htf) as [tsl Etsl].
    exists tsl, (test_idx s). repeat split; try done; by apply Htsl.
Qed.

Lemma test_step_ok (s : HAN B) modes :
  well_formed s ->
  Forall (mode_allowed s) modes ->
  NoDup modes ->
  exists md ld s',
    test_step modes s = Ok ((md, ld), s') /\
    forall m, m ∈ modes -> is_Some (ld !! m).
Proof.
  intros Hwf Hmodes Hnd. unfold test_step, bind, get.
  destruct (use_mini s) eqn:Hmini.
  - apply andb_true_iff in Hmini as [Hflag _].
    apply mini_test_step_ok; [| done].
    eapply Forall_impl; [exact Hmodes |]. intros m. by apply mode_ready_of_wf.
  - apply full_test_step_ok; [done | | done].
    eapply Forall_impl; [exact Hmodes |]. apply mode_allowed_known.
Qed.

Lemma epoch_modes_ok (s : HAN B) :
  Forall (mode_allowed s) (epoch_modes s) /\ NoDup (epoch_modes s) /\
  "valid" ∈ epoch_modes s.
Proof.
  unfold epoch_modes, mode_allowed.
  destruct (test_flag (args s)) eqn:Ht; cbn.
  - split.
    { constructor; [by left |]. constructor; [by right; left |].
      constructor; [by right; right | constructor]. }
    split; [| set_solver]. apply (bool_decide_unpack _). by vm_compute.
  - split.
    { constructor; [by left |]. constructor; [by right; left | constructor]. }
    split; [| set_solver]. apply (bool_decide_unpack _). by vm_compute.
Qed.

Lemma epoch_body_ok st epoch (s : HAN B) :
  well_formed s ->
  exists st' brk s', epoch_body st epoch s = Ok ((st', brk), s').
Proof.
  intros Hwf. unfold epoch_body.
  unfold bind at 1, emit, modify. unfold bind at 1, get.
  set (s1 := set_log (log s ++ [EvEpoch epoch]) s).
  assert (Hwf1 : well_formed s1) by done.
  destruct (train_step_ok s1 Hwf1) as (tl & s2 & E2).
  rewrite (bind_Ok _ _ _ _ _ E2).
  destruct (train_step_log (config s) _ s1 tl s2 eq_refl E2) as (C2 & _).
  assert (Hwf2 : well_formed s2) by (by apply (well_formed_config s2 s)).
  unfold bind at 1, get.
  pose proof Hwf2 as (Hei & _). apply Z.eqb_neq in Hei. rewrite Hei.
  destruct (epoch `mod` evaluate_interval s2 =? 0)%Z; [| by eexists _, _, _].
  destruct (epoch_modes_ok s2) as (Hall & Hnd & Hvalid).
  destruct (test_step_ok s2 (epoch_modes s2) Hwf2 Hall Hnd)
    as (md & ld & s3 & E3 & Hdom).
  rewrite (bind_Ok _ _ _ _ _ E3). destruct (Hdom "valid" Hvalid) as [v Hv].
  rewrite Hv. unfold bind, ret, emit, modify, get. cbn.
  destruct (loss_step st v (model s3)) as [st1 [|]]; by eexists _, _, _.
Qed.

Lemma epoch_loop_ok epochs : forall st last (s : HAN B),
  well_formed s ->
  exists st' last' s',
    epoch_loop st last epochs s = Ok ((st', last'), s') /\
    (is_Some last \/ epochs <> [] -> is_Some last').
Proof.
  induction epochs as [|epoch rest IH]; intros st last s Hwf.
  - exists st, last, s. split; [done |]. by intros [?|?].
  - destruct (epoch_body_ok st epoch s Hwf) as (st1 & brk & s1 & E1).
    cbn [epoch_loop]. rewrite (bind_Ok _ _ _ _ _ E1). cbv beta iota.
    destruct brk.
    + exists st1, (Some epoch), s1. split; [done |]. by eexists.
    + destruct (epoch_body_trace _ _ _ _ _ _ E1) as (C1 & _).
      destruct (IH st1 (Some epoch) s1) as (st' & last' & s' & E & Hl).
      { by apply (well_formed_config s1 s). }
      exists st', last', s'. split; [done |]. intros _. apply Hl. left.
      by eexists.
Qed.

Lemma finish_ok (s : HAN B) epoch :
  well_formed s ->
  (prediction_flag (args s) = false -> test_flag (args s) = true ->
   is_Some epoch) ->
  exists r s', finish epoch s = Ok (r, s').
Proof.
  intros Hwf Hep. unfold finish. unfold bind at 1, get.
  destruct (prediction_flag (args s)) eqn:Hp.
  - unfold bind at 1, emit, modify.
    set (s1 := set_log (log s ++ [EvPredict]) s).
    change (use_mini s) with (use_mini s1).
    destruct (use_mini s1) eqn:Hmini.
    + apply andb_true_iff in Hmini as [Hflag _].
      pose proof Hwf as (_ & Hld & _ & _ & _ & Hpl & _).
      destruct (Hld Hflag) as (_ & _ & _ & Hpred).
      destruct (Hpred Hp) as [ld Eld].
      rewrite (bind_Ok _ _ _ _ _
                 (mini_prediction_step_spec s1 ld Eld (Hpl ld _ Eld))).
      by eexists _, _.
    + unfold _full_prediction_step, call_model_full, bind, modify, get, emit,
        modify, ret. cbn. by eexists _, _.
  - destruct (test_flag (args s)) eqn:Ht; [| by eexists _, _].
    destruct (Hep eq_refl eq_refl) as [e ->].
    destruct (String.eqb _ _).
    + destruct (test_step_ok s ["valid"] Hwf) as (md & ld & s1 & E1 & _).
      { constructor; [by right; left | constructor]. }
      { apply (bool_decide_unpack _). by vm_compute. }
      rewrite (bind_Ok _ _ _ _ _ E1).
      unfold call_model_full, bind, modify, get, emit, modify, ret, local.
      cbn. by eexists _, _.
    + destruct (test_step_ok s ["valid"; "test"] Hwf)
        as (md & ld & s1 & E1 & _).
      { constructor; [by right; left |].
        constructor; [by right; right | constructor]. }
      { apply (bool_decide_unpack _). by vm_compute. }
      rewrite (bind_Ok _ _ _ _ _ E1).
      unfold bind, emit, modify, ret, local. cbn. by eexists _, _.
Qed.

(** A run of a well-formed flow completes. *)
Lemma train_ok (s : HAN B) :
  well_formed s -> exists r s', train s = Ok (r, s').
Proof.
  intros Hwf. unfold train. unfold bind at 1, modify. unfold bind at 1, get.
  set (s1 := set_model (base_preprocess (model s)) s).
  assert (Hwf1 : well_formed s1) by done.
  destruct (epoch_loop_ok (epoch_range (max_epoch s1))
              (new_stopper (patience (args s1))) None s1 Hwf1)
    as (st & last & s2 & E2 & Hlast).
  rewrite (bind_Ok _ _ _ _ _ E2). cbv beta iota.
  destruct (epoch_loop_trace _ _ _ _ _ _ _ E2) as (C2 & _).
  unfold bind at 1, get. unfold bind at 1, modify.
  unfold bind at 1, emit, modify.
  apply finish_ok.
  - by apply (well_formed_config _ s).
  - cbn [args set_log set_model]. intros Hp Ht. apply Hlast. right.
    pose proof Hwf as (_ & _ & _ & _ & _ & _ & _ & _ & _ & _ & _ & Hme).
    assert (Ha : args s2 = args s) by (by apply config_fields in C2 as (? & _)).
    rewrite Ha in Hp, Ht. specialize (Hme Hp Ht).
    unfold epoch_range. change (max_epoch s1) with (max_epoch s).
    destruct (Z.to_nat (max_epoch s)) eqn:En; [lia | done].
Qed.

(** ** Prediction against test reporting *)

Lemma config_use_mini (a b : HAN B) :
  config a = config b -> use_mini a = use_mini b /\ num_nodes a = num_nodes b.
Proof.
  intros H.
  assert (Ha : args a = args b) by exact (f_equal fst H).
  assert (Hv : val_loader a = val_loader b)
    by exact (f_equal (fun c => c.2.1.1.1.1.2) H).
  assert (Hn : num_nodes a = num_nodes b)
    by exact (f_equal (fun c => c.2.1.1.1.1.1.1.1.1.1.1.1.2) H).
  unfold use_mini. by rewrite Ha, Hv, Hn.
Qed.




(** ** Construction *)

(** Whatever makes construction fail, it is not the output dimension. *)
Lemma init_failure_not_from_out_dim (a : Args) (t : Task) e :
  init a t = Raise e ->
  e = KeyError (optimizer_name a) \/ e = AttributeError "pred_idx".
Proof.
  unfold init. destruct (out_dim_mismatch a t); cbn;
    destruct (candidate_optimizer (optimizer_name a)); cbn;
    destruct (task_split t) as [[? ?] ?];
    destruct (prediction_flag a), (ds_pred_idx t); cbn;
    intros [= <-]; auto.
Qed.

(** C9: when the configured output dimensionality differs from the
    dataset's number of classes, construction goes on: it logs the message
    and overwrites [args.out_dim] with the number of classes, and only then
    builds the model, from the overwritten configuration. *)
Theorem C9_out_dim_mismatch_is_overwritten (a : Args) (t : Task) make :
  out_dim a <> ds_num_classes t ->
  candidate_optimizer (optimizer_name a) = Some make ->
  (prediction_flag a = true -> is_Some (ds_pred_idx t)) ->
  exists s,
    init a t = Ok s /\
    args s = set_out_dim a (ds_num_classes t) /\
    out_dim (args s) = ds_num_classes t /\
    model s = build_model_from_args (set_out_dim a (ds_num_classes t)) /\
    log s = [EvInfo "[NC Specific] Modify the out_dim with num_classes";
             EvBuildModel (set_out_dim a (ds_num_classes t))].
Proof.
  intros Hne Hopt Hpred.
  assert (Hm : out_dim_mismatch a t = true).
  { unfold out_dim_mismatch. destruct (ds_out_dim t); [| done].
    apply negb_true_iff, Z.eqb_neq, Hne. }
  unfold init. rewrite Hm. cbn. rewrite Hopt.
  destruct (task_split t) as [[tr va] te].
  destruct (prediction_flag a) eqn:Hp.
  - destruct (Hpred eq_refl) as [idx ->]. eexists. by repeat split.
  - eexists. by repeat split.
Qed.

End Facts.

Lemma C2_mini_train_step_unweighted_mean_witness :
  let s := Toy.flow (Toy.toy_args true true false 3 1) in
  let batches := (Toy.loader [0; 1; 2] 2 0).1 in
  exists v s' evs,
    _mini_train_step s = Ok (v, s') /\
    log s' = log s ++ evs /\
    length (update_losses evs) = length batches /\
    (v == Qmean (update_losses evs))%Q /\
    update_losses evs
    = (sgd_pass (model s) (optimizer s) (labels s) batches).1.*2 /\
    forall (i : nat) (b : Batch (@Block Toy.backend)),
      batches !! i = Some b ->
      exists (p : @Params Toy.backend) lbl,
        gather (labels s) (seeds b) = Some lbl /\
        (sgd_pass (model s) (optimizer s) (labels s) batches).1 !! i
        = Some (p, @loss_fn Toy.backend (forward_batch p true b) lbl) /\
        update_losses evs !! i
        = Some (@loss_fn Toy.backend (forward_batch p true b) lbl).
Proof.
  intros s batches.
  apply (C2_mini_train_step_unweighted_mean s (Toy.loader [0; 1; 2] 2)
           batches 1).
  - reflexivity.
  - reflexivity.
  - discriminate.
  - unfold in_range. vm_compute. repeat constructor.
Defined.

Lemma C5_mini_score_one_evaluator_call_on_concatenation_witness :
  let s := Toy.flow (Toy.toy_args true false false 3 1) in
  let ps := [("train", (Toy.loader [0; 1; 2] 2 0).1);
             ("valid", (Toy.loader [3; 4] 2 1).1)] in
  exists md ld s' evs,
    _mini_test_step ["train"; "valid"] s = Ok ((md, ld), s') /\
    log s' = log s ++ evs /\
    evaluator_calls evs
    = (fun q => (q.1, concat (pass_labels (labels s) q.2),
                 argmax <$> concat (pass_logits (model s) q.2))) <$> ps /\
    forall mode bs, (mode, bs) ∈ ps ->
      md !! mode
      = Some (evaluator (concat (pass_labels (labels s) bs))
                        (argmax <$> concat (pass_logits (model s) bs))) /\
      length (filter (fun c => c.1.1 = mode) (evaluator_calls evs)) = 1.
Proof.
  intros s ps.
  apply (C5_mini_score_one_evaluator_call_on_concatenation
           s ["train"; "valid"] ps).
  - apply (bool_decide_unpack _). vm_compute. exact I.
  - reflexivity.
  - unfold passes_ok. vm_compute. repeat constructor; discriminate.
Defined.

(** C1 (the code departs from the claim): on the train split of the small
    backend the traversal has two batches with losses 5/2 and 1; the loss
    [_mini_test_step] reports for the split is 1, the loss of the last
    batch, which is not the mean 7/4 of the per-batch losses. *)
Theorem C1_mini_test_step_reports_last_batch_loss :
  exists md ld s',
    _mini_test_step ["train"] (Toy.flow (Toy.toy_args true true false 3 1))
    = Ok ((md, ld), s') /\
    batch_losses (log s') = [5 # 2; 1]%Q /\
    ld !! "train" = Some 1%Q /\
    (Qmean [5 # 2; 1] == 7 # 4)%Q /\
    ~ (1 == Qmean [5 # 2; 1])%Q.
Proof.
  set (s := Toy.flow (Toy.toy_args true true false 3 1)).
  set (o := _mini_test_step ["train"] s).
  evaluate o ((∅ : gmap string Toy.Score_t, ∅ : gmap string Q), s) E.
  set (v := value_of o _) in E.
  exists v.1.1, v.1.2, v.2. split.
  { rewrite E. clear E. by destruct v as [[md ld] s']. }
  split; [vm_compute; reflexivity |]. split; [vm_compute; reflexivity |].
  split; [reflexivity | discriminate].
Qed.

Lemma C7_prediction_alignment_witness :
  let sm := Toy.flow (Toy.toy_args true false true 3 1) in
  let sf := Toy.flow (Toy.toy_args false false true 3 1) in
  let bs := (Toy.loader [6; 7; 8] 2 0).1 in
  (exists ids preds s',
     finish None sm = Ok (Prediction ids preds, s') /\
     length ids = length preds /\
     zip ids preds
     = concat ((fun b => zip (seeds b) (forward_batch (model sm) false b))
                 <$> bs) /\
     NoDup ids /\
     (forall n, n ∈ [6; 7; 8] <-> n ∈ ids)) /\
  (exists preds s',
     finish None sf = Ok (Prediction (seq 0 (num_nodes sf)) preds, s') /\
     preds = forward_full (model sf) false /\
     length (seq 0 (num_nodes sf)) = length preds /\
     NoDup (seq 0 (num_nodes sf)) /\
     (forall idx n, pred_idx sf = Some idx -> n ∈ idx -> n < num_nodes sf ->
                    n ∈ seq 0 (num_nodes sf))).
Proof.
  intros sm sf bs. split.
  - apply (proj1 (C7_prediction_alignment sm None eq_refl) eq_refl
             (Toy.loader [6; 7; 8] 2) [6; 7; 8]).
    + reflexivity.
    + reflexivity.
    + discriminate.
    + unfold rows_per_seed. vm_compute. repeat constructor.
    + apply (bool_decide_unpack _). vm_compute. exact I.
    + vm_compute. reflexivity.
  - apply (proj2 (C7_prediction_alignment sf None eq_refl) eq_refl).
    reflexivity.
Defined.

Lemma C9_out_dim_mismatch_is_overwritten_witness :
  let a := mkArgs 7 true true true 2 2 "SGD" (1 # 4) 0 "acm4HAN" 3 1 in
  exists s,
    @init Toy.backend a Toy.toy_task = Ok s /\
    args s = set_out_dim a 2 /\
    out_dim (args s) = 2%Z /\
    model s = build_model_from_args (set_out_dim a 2) /\
    log s = [EvInfo "[NC Specific] Modify the out_dim with num_classes";
             EvBuildModel (set_out_dim a 2)].
Proof.
  intros a.
  apply (C9_out_dim_mismatch_is_overwritten (B := Toy.backend)
           a Toy.toy_task (fun _ _ _ => tt)).
  - discriminate.
  - reflexivity.
  - intros _. by eexists.
Defined.

Lemma C6_evaluation_repeatable_on_same_batches_witness :
  let sf := Toy.flow (Toy.toy_args false true false 3 1) in
  let sm := Toy.flow (Toy.toy_args true true false 3 1) in
  (exists r1 s1,
     _full_test_step ["train"; "valid"] sf = Ok (r1, s1) /\
     model s1 = model sf /\
     exists s2, _full_test_step ["train"; "valid"] s1 = Ok (r1, s2)) /\
  (exists r1 s1,
     _mini_test_step ["test"] sm = Ok (r1, s1) /\
     model s1 = model sm /\
     exists s2, _mini_test_step ["test"] s1 = Ok (r1, s2)).
Proof.
  intros sf sm. split.
  - set (o := _full_test_step ["train"; "valid"] sf).
    evaluate o ((∅ : gmap string Toy.Score_t, ∅ : gmap string Q), sf) E.
    eexists _, _. split; [exact E |].
    exact (proj1 (C6_evaluation_repeatable_on_same_batches
                    sf ["train"; "valid"]) _ _ E).
  - set (o := _mini_test_step ["test"] sm).
    evaluate o ((∅ : gmap string Toy.Score_t, ∅ : gmap string Q), sm) E.
    eexists _, _. split; [exact E |].
    apply (proj2 (C6_evaluation_repeatable_on_same_batches sm ["test"])
             [("test", (Toy.loader [5] 2 0).1)] _ _ E).
    + reflexivity.
    + unfold passes_ok. vm_compute. repeat constructor. discriminate.
    + vm_compute. reflexivity.
Defined.

(** C6 (as stated, refuted): the loaders are built with [shuffle=True].  On
    the small backend two evaluation calls in a row, with no training in
    between, traverse the train split in different batches:
    the first reports the loss 1, the second the loss 4; the means of the
    per-batch losses differ as well (7/4 and 5/2). *)
Lemma C6_mini_evaluation_not_repeatable :
  exists r1 s1 r2 s2,
    _mini_test_step ["train"] (Toy.flow (Toy.toy_args true true false 3 1))
    = Ok (r1, s1) /\
    _mini_test_step ["train"] s1 = Ok (r2, s2) /\
    model s1 = model (Toy.flow (Toy.toy_args true true false 3 1)) /\
    r1.2 !! "train" = Some 1%Q /\
    r2.2 !! "train" = Some 4%Q /\
    r1.2 <> r2.2 /\
    batch_losses (log s1) = [5 # 2; 1]%Q /\
    batch_losses (drop (length (log s1)) (log s2)) = [1; 4]%Q.
Proof.
  set (s := Toy.flow (Toy.toy_args true true false 3 1)).
  set (o1 := _mini_test_step ["train"] s).
  evaluate o1 ((∅ : gmap string Toy.Score_t, ∅ : gmap string Q), s) E1.
  set (v1 := value_of o1 _) in E1.
  set (o2 := _mini_test_step ["train"] v1.2).
  evaluate o2 ((∅ : gmap string Toy.Score_t, ∅ : gmap string Q), s) E2.
  set (v2 := value_of o2 _) in E2.
  exists v1.1, v1.2, v2.1, v2.2.
  split; [exact E1 |]. split; [exact E2 |].
  split; [vm_compute; reflexivity |].
  assert (H1 : v1.1.2 !! "train" = Some 1%Q) by (vm_compute; reflexivity).
  assert (H2 : v2.1.2 !! "train" = Some 4%Q) by (vm_compute; reflexivity).
  split; [exact H1 |]. split; [exact H2 |].
  split; [| split; vm_compute; reflexivity].
  intros Heq. rewrite Heq, H2 in H1. discriminate.
Qed.

(** The loss and the evaluator of the small backend are order-insensitive. *)
Lemma Qsum_Permutation (l1 l2 : list Q) :
  l1 ≡ₚ l2 -> (Qsum l1 == Qsum l2)%Q.
Proof.
  induction 1 as [|x l1 l2 _ IH|x y l|l1 l2 l3 _ IH1 _ IH2]; cbn.
  - reflexivity.
  - by rewrite IH.
  - ring.
  - by rewrite IH1.
Qed.

Lemma toy_order_insensitive : @order_insensitive Toy.backend.
Proof.
  intros xs ys Hperm. cbn. unfold Toy.mse, Toy.matches. split.
  - apply Qred_complete. rewrite !zip_with_fst_snd, !length_fmap.
    rewrite (Permutation_length Hperm).
    apply Qdiv_comp; [| reflexivity].
    apply Qsum_Permutation. by rewrite Hperm.
  - assert (Hz : forall l : list (Row * Label),
               zip l.*2 (argmax <$> l.*1) = (fun p => (p.2, argmax p.1)) <$> l).
    { induction l as [|[r y] l IH]; [done |]. cbn. by f_equal. }
    rewrite !Hz. apply Permutation_length. by rewrite Hperm.
Qed.

Lemma C8_full_and_mini_agree_on_one_covering_batch_witness :
  let s := Toy.flow (Toy.toy_args true true false 3 1) in
  exists md ld sf sm,
    _full_test_step ["test"; "valid"] s = Ok ((md, ld), sf) /\
    _mini_test_step ["test"; "valid"] s = Ok ((md, ld), sm).
Proof.
  intros s.
  apply (C8_full_and_mini_agree_on_one_covering_batch
           s ["test"; "valid"]
           [("test", (Toy.loader [5] 2 0).1);
            ("valid", (Toy.loader [3; 4] 2 1).1)]).
  - exact toy_order_insensitive.
  - apply (bool_decide_unpack _). vm_compute. exact I.
  - reflexivity.
  - repeat constructor.
    + exists (mkBatch [("meta", [5])] [5] [("meta", tt)]), [5].
      repeat split; try reflexivity. vm_compute. repeat constructor.
    + exists (mkBatch [("meta", [4; 3])] [4; 3] [("meta", tt)]), [3; 4].
      split; [reflexivity |]. split; [reflexivity |].
      split; [apply Permutation_swap |].
      split; [vm_compute; repeat constructor | reflexivity].
Defined.

Lemma C3_stopper_consulted_once_per_evaluated_epoch_witness :
  let s := Toy.flow_on Toy.overfit_task (Toy.toy_args true true false 5 1) in
  exists r s',
    train s = Ok (r, s') /\
    exists segs p fin,
      log s' = log s ++ concat segs ++ EvLoadModel p :: fin /\
      consultations (EvLoadModel p :: fin) = [] /\
      length segs <= Z.to_nat (max_epoch s) /\
      (forall i seg,
         segs !! i = Some seg ->
         epochs_of seg = [Z.of_nat i] /\
         if (Z.of_nat i `mod` evaluate_interval s =? 0)%Z then
           exists stop,
             consulted_once_at_end seg stop /\
             length (consultations seg) = 1 /\
             (stop = true -> S i = length segs)
         else consultations seg = []) /\
      (length segs < Z.to_nat (max_epoch s) ->
       exists seg, last segs = Some seg /\ consulted_once_at_end seg true).
Proof.
  intros s. set (o := train s).
  evaluate o (NoResult : TrainResult Toy.backend, s) E.
  eexists _, _. split; [exact E |].
  exact (C3_stopper_consulted_once_per_evaluated_epoch s _ _ E).
Defined.

(** C3 (as stated, refuted): with [evaluate_interval = 2] and
    [max_epoch = 2] the loop runs the epochs 0 and 1 and the stopper is
    consulted once in the whole run: epoch 1 ends without a consultation. *)
Lemma C3_epoch_without_consultation :
  exists r s',
    train (Toy.flow (Toy.toy_args true true false 2 2)) = Ok (r, s') /\
    epochs_of (log s') = [0; 1]%Z /\
    length (consultations (log s')) = 1.
Proof.
  set (s := Toy.flow (Toy.toy_args true true false 2 2)).
  set (o := train s).
  evaluate o (NoResult : TrainResult Toy.backend, s) E.
  eexists _, _. split; [exact E |].
  split; vm_compute; reflexivity.
Qed.


(** The flows of the small backend are well formed. *)
Lemma chunks_nonempty fuel n (l : list node) :
  l <> [] -> Toy.chunks fuel n l <> [].
Proof. destruct fuel, l; done. Qed.

Lemma chunks_Forall (P : node -> Prop) n fuel : forall l,
  Forall P l -> Forall (Forall P) (Toy.chunks fuel n l).
Proof.
  induction fuel as [|fuel IH]; intros [|x l] Hl; cbn [Toy.chunks].
  - constructor.
  - constructor; [exact Hl | constructor].
  - constructor.
  - constructor; [by apply Forall_take |]. apply IH. by apply Forall_drop.
Qed.

Lemma toy_loader_ok idx lbls :
  idx <> [] ->
  Forall (fun n => n < length lbls) idx ->
  @loader_ok Toy.backend lbls (Some (Toy.loader idx 2)).
Proof.
  intros Hne Hidx ld r [= <-]. unfold Toy.loader. cbn [fst].
  set (order := if Nat.even r then idx else reverse idx).
  assert (Ho : order <> [] /\ Forall (fun n => n < length lbls) order).
  { unfold order. destruct (Nat.even r); [done |]. split.
    - intros H. apply (f_equal reverse) in H.
      by rewrite reverse_involutive in H.
    - by apply Forall_reverse. }
  destruct Ho as [Hone Hor]. split.
  - intros H. apply fmap_nil_inv in H. by apply chunks_nonempty in H.
  - apply Forall_fmap. by apply chunks_Forall.
Qed.

Lemma toy_loader_nonempty idx :
  idx <> [] ->
  forall (ld : @Loader Toy.backend) r,
    Some (Toy.loader idx 2) = Some ld -> (ld r).1 <> [].
Proof.
  intros Hne ld r [= <-]. unfold Toy.loader. cbn [fst].
  intros H. apply fmap_nil_inv, chunks_nonempty in H; [done |].
  destruct (Nat.even r); [done |].
  intros H'. apply (f_equal reverse) in H'.
  by rewrite reverse_involutive in H'.
Qed.




(** ** Sanity checks on the small backend *)

(** The stopper on the validation losses 5.0, 4.0, 4.2, 4.3, 4.1 with
    patience 3: STOPPED at the fifth observation, holding the checkpoint of
    the loss 4.0. *)
Example stopper_patience_3 :
  let step st vp := (loss_step (B := Toy.backend) st.1 vp.1 vp.2) in
  let obs := [(5 # 1, 50 # 1); (4 # 1, 40 # 1); (42 # 10, 42 # 1);
              (43 # 10, 43 # 1); (41 # 10, 41 # 1)]%Q in
  let run n := foldl step (new_stopper 3, false) (take n obs) in
  (run 4).2 = false /\
  (run 5).2 = true /\
  best_checkpoint (run 5).1 = Some (40 # 1)%Q /\
  best_loss (run 5).1 = Some (4 # 1)%Q.
Proof. vm_compute. repeat split. Qed.

(** One training epoch over the batches [0; 1] and [2]: the returned loss is
    the mean 41/32 of the two batch losses 5/2 and 1/16, not their
    size-weighted mean 27/16. *)
Example mini_train_step_not_size_weighted :
  let s := Toy.flow (Toy.toy_args true true false 3 1) in
  let v := value_of (_mini_train_step s) (0%Q, s) in
  update_losses (log v.2) = [5 # 2; 1 # 16]%Q /\
  (v.1 == 41 # 32)%Q /\
  ~ (v.1 == (2 * (5 # 2) + 1 * (1 # 16)) / 3)%Q.
Proof. vm_compute. repeat split; discriminate. Qed.

(** A run that stops early: epochs 0, 1 and 2 of 5, the third consultation
    answers STOPPED, and the parameters restored are those of epoch 0, whose
    validation loss 1/4 is the smallest. *)
Example early_stop_run :
  let s := Toy.flow_on Toy.overfit_task (Toy.toy_args true true false 5 1) in
  let v := value_of (train s) (NoResult, s) in
  is_ok (train s) = true /\
  epochs_of (log v.2) = [0; 1; 2]%Z /\
  consultations (log v.2)
  = [(1 # 4, 1 # 2, false); (49 # 64, 1 # 8, false);
     (961 # 1024, 1 # 32, true)]%Q /\
  model v.2 = (1 # 2)%Q.
Proof. vm_compute. repeat split. Qed.

(** * Further properties of the steps and of a run *)

Section Behaviour.
Context `{B : Backend}.

(** ** What construction establishes *)

Lemma set_out_dim_same (a : Args) : set_out_dim a (out_dim a) = a.
Proof. by destruct a. Qed.

(** what [init] returns when it returns *)
Lemma init_Ok (a : Args) (t : Task) (s : HAN B) :
  init a t = Ok s ->
  exists make pred,
    candidate_optimizer (optimizer_name a) = Some make /\
    (if prediction_flag a then ds_pred_idx t = pred /\ is_Some pred
     else pred = None) /\
    let a' := if out_dim_mismatch a t
              then set_out_dim a (ds_num_classes t) else a in
    let mk idx : Loader := data_loader idx (batch_size a) in
    let mini := mini_batch_flag a in
    s = mkHAN a' (ds_num_classes t) (ds_num_nodes t)
              (build_model_from_args a') true
              (make (build_model_from_args a') (lr a) (weight_decay a))
              (task_split t).1.1 (task_split t).1.2 (task_split t).2
              pred (task_labels t)
              (if mini then Some (mk (task_split t).1.1) else None)
              (if mini then Some (mk (task_split t).1.2) else None)
              (if mini && test_flag a then Some (mk (task_split t).2)
               else None)
              (if mini && prediction_flag a then mk <$> pred else None)
              (arg_max_epoch a) (arg_evaluate_interval a) initial_rng
              ((if out_dim_mismatch a t
                then [EvInfo "[NC Specific] Modify the out_dim with num_classes"]
                else []) ++ [EvBuildModel a']).
Proof.
  unfold init.
  assert (Hn : forall d, optimizer_name (set_out_dim a d) = optimizer_name a)
    by done.
  destruct (out_dim_mismatch a t); cbn;
    destruct (candidate_optimizer (optimizer_name a)) as [make|]; try done;
    destruct (task_split t) as [[tr va] te];
    destruct (prediction_flag a) eqn:Hp; cbn;
    destruct (ds_pred_idx t) as [p|]; try done;
    intros [= <-]; eexists make, _; (split; [reflexivity |]);
    rewrite ?Hp; (split; [eauto |]); cbn; rewrite ?Hp; reflexivity.
Qed.


(** X1: whatever output dimensionality was configured, a constructed flow
    has [args.out_dim] equal to the number of classes of the dataset and
    the other arguments as given; the model is built from these final
    arguments, the build is the last step of construction that is logged,
    and the optimizer is the candidate named by [args.optimizer], created
    over that model with [args.lr] and [args.weight_decay]. *)
Theorem X1_constructed_flow_out_dim_is_num_classes
    (a : Args) (t : Task) (s : HAN B) :
  init a t = Ok s ->
  num_classes s = ds_num_classes t /\
  args s = set_out_dim a (ds_num_classes t) /\
  model s = build_model_from_args (args s) /\
  last (log s) = Some (EvBuildModel (args s)) /\
  exists make,
    candidate_optimizer (optimizer_name a) = Some make /\
    optimizer s = make (model s) (lr a) (weight_decay a).
Proof.
  intros E. destruct (init_Ok a t s E) as (make & pred & Hopt & _ & ->).
  cbn. split; [done |].
  assert (Ha : (if out_dim_mismatch a t
                then set_out_dim a (ds_num_classes t) else a)
               = set_out_dim a (ds_num_classes t)).
  { unfold out_dim_mismatch. destruct (ds_out_dim t); [| done].
    destruct (out_dim a =? ds_num_classes t)%Z eqn:Hd; [| done]. cbn.
    apply Z.eqb_eq in Hd. by rewrite <- Hd, set_out_dim_same. }
  split; [exact Ha |]. split; [done |].
  split; [by rewrite last_snoc |]. by exists make.
Qed.

(** X2: construction logs the [NC Specific] message exactly when the
    dataset has no [out_dim] attribute or [args.out_dim] differs from the
    number of classes (so also when the two agree but the attribute is
    missing); when the attribute exists and the two agree, the arguments
    are left as given and the log holds the model build only. *)
Theorem X2_out_dim_message_iff (a : Args) (t : Task) (s : HAN B) :
  init a t = Ok s ->
  (EvInfo "[NC Specific] Modify the out_dim with num_classes" ∈ log s <->
   ds_out_dim t = None \/ out_dim a <> ds_num_classes t) /\
  (is_Some (ds_out_dim t) -> out_dim a = ds_num_classes t ->
   args s = a /\ log s = [EvBuildModel a]).
Proof.
  intros E. destruct (init_Ok a t s E) as (make & pred & Hopt & _ & ->).
  cbn. unfold out_dim_mismatch. destruct (ds_out_dim t) as [d|].
  - destruct (out_dim a =? ds_num_classes t)%Z eqn:Hd; cbn.
    + apply Z.eqb_eq in Hd. split; [| done]. split.
      * intros H. apply list_elem_of_singleton in H. discriminate.
      * intros [H|H]; done.
    + apply Z.eqb_neq in Hd. split; [| done]. split; [auto |].
      intros _. apply list_elem_of_here.
  - cbn. split.
    + split; [auto |]. intros _. apply list_elem_of_here.
    + by intros [? [=]].
Qed.

(** X3: construction fails in exactly two ways, tried in this order: with
    [KeyError] when [args.optimizer] names no candidate optimizer, and
    otherwise with [AttributeError] when [prediction_flag] is set and the
    dataset has no [pred_idx].  With [prediction_flag] unset a missing
    [pred_idx] is never noticed. *)
Theorem X3_construction_fails_iff (a : Args) (t : Task) e :
  @init B a t = Raise e <->
  (candidate_optimizer (optimizer_name a) = None /\
   e = KeyError (optimizer_name a)) \/
  (is_Some (candidate_optimizer (optimizer_name a)) /\
   prediction_flag a = true /\ ds_pred_idx t = None /\
   e = AttributeError "pred_idx").
Proof.
  unfold init.
  assert (Hn : forall d, optimizer_name (set_out_dim a d) = optimizer_name a)
    by done.
  assert (Hp : forall d, prediction_flag (set_out_dim a d) = prediction_flag a)
    by done.
  destruct (out_dim_mismatch a t); cbn; rewrite ?Hn;
    destruct (candidate_optimizer (optimizer_name a)) as [make|] eqn:Hopt;
    destruct (task_split t) as [[tr va] te]; cbn;
    destruct (prediction_flag a); cbn;
    destruct (ds_pred_idx t) as [p|]; cbn;
    (split; [intros [= <-] | intros [[? ->]|([? ?] & ? & ? & ->)]]);
    try done; eauto 10.
Qed.

(** X4: on a constructed flow the test [hasattr(self, 'val_loader')] of
    [train] agrees with [mini_batch_flag]; the train and validation loaders
    exist exactly in mini-batch mode, the test loader exactly when
    [test_flag] is set as well, the prediction loader exactly when
    [prediction_flag] is set as well, and [pred_idx] exactly when
    [prediction_flag] is set. *)
Theorem X4_constructed_flow_loaders (a : Args) (t : Task) (s : HAN B) :
  init a t = Ok s ->
  use_mini s = mini_batch_flag (args s) /\
  mini_batch_flag (args s) = mini_batch_flag a /\
  (is_Some (train_loader s) <-> mini_batch_flag a = true) /\
  (is_Some (val_loader s) <-> mini_batch_flag a = true) /\
  (is_Some (test_loader s) <->
   mini_batch_flag a = true /\ test_flag a = true) /\
  (is_Some (pred_loader s) <->
   mini_batch_flag a = true /\ prediction_flag a = true) /\
  (is_Some (pred_idx s) <-> prediction_flag a = true).
Proof.
  intros E. destruct (init_Ok a t s E) as (make & pred & Hopt & Hpred & ->).
  unfold use_mini. cbn.
  assert (Hm : mini_batch_flag (if out_dim_mismatch a t
                                then set_out_dim a (ds_num_classes t) else a)
               = mini_batch_flag a) by (by destruct (out_dim_mismatch a t)).
  rewrite Hm.
  assert (Hpi : is_Some pred <-> prediction_flag a = true).
  { destruct (prediction_flag a).
    - by destruct Hpred as [_ ?].
    - subst pred. split; [by intros [? [=]] | done]. }
  assert (Hno : forall X : Type, is_Some (@None X) <-> False)
    by (intros X; split; [by intros [? [=]] | done]).
  assert (Hyes : forall (X : Type) (x : X), is_Some (Some x) <-> True)
    by (intros X x; split; [done | by eexists]).
  clear E Hopt Hm Hpred.
  destruct (mini_batch_flag a), (test_flag a), (prediction_flag a); cbn;
    rewrite ?fmap_is_Some, ?Hno, ?Hyes; intuition congruence.
Qed.


(** ** Empty traversals and unknown modes *)

(** X5: a mini-batch training step whose train loader yields no batch
    raises [NameError]: the loop variable [i] read by the return statement
    was never bound. *)
Theorem X5_mini_train_step_empty_traversal (s : HAN B) ld :
  train_loader s = Some ld ->
  (ld (rng s)).1 = [] ->
  _mini_train_step s = Raise (NameError "i").
Proof.
  intros Hld He.
  unfold _mini_train_step, bind, modify, getattr, iterate, get. cbn.
  rewrite Hld. cbn. destruct (ld (rng s)) as [bs r]. cbn in He. by subst.
Qed.

Lemma loader_for_unknown (s : HAN B) cur mode :
  mode <> "train" -> mode <> "valid" -> mode <> "test" ->
  loader_for s cur mode = cur.
Proof.
  intros H1 H2 H3. unfold loader_for.
  apply String.eqb_neq in H1, H2, H3. by rewrite H1, H2, H3.
Qed.

(** X6: [_mini_test_step] called with a first mode that is none of train,
    valid and test raises [NameError]: no branch has bound [loader_tqdm]. *)
Theorem X6_mini_test_step_unknown_first_mode (s : HAN B) mode rest :
  mode <> "train" -> mode <> "valid" -> mode <> "test" ->
  _mini_test_step (mode :: rest) s = Raise (NameError "loader_tqdm").
Proof.
  intros H1 H2 H3. apply String.eqb_neq in H1, H2, H3.
  unfold _mini_test_step, bind, modify. cbn [for_modes].
  unfold bind, test_mode, bind, select_loader. by rewrite H1, H2, H3.
Qed.

(** X7: in [_mini_test_step] a mode that is none of train, valid and test,
    listed after a mode with a loader, is not rejected: the loader of the
    previous mode is traversed once more (a new traversal, after the
    previous one), and the score and the loss of that traversal are stored
    under the unknown name. *)
Theorem X7_mini_test_step_unknown_mode_reuses_loader
    (s : HAN B) m0 mode ld :
  mode <> "train" -> mode <> "valid" -> mode <> "test" ->
  loader_for s None m0 = Some ld ->
  let bs0 := (ld (rng s)).1 in
  let bs1 := (ld (ld (rng s)).2).1 in
  bs0 <> [] -> bs1 <> [] -> in_range s bs0 -> in_range s bs1 ->
  exists md ldict s',
    _mini_test_step [m0; mode] s = Ok ((md, ldict), s') /\
    md !! mode = Some (pass_score (model s) (labels s) bs1) /\
    ldict !! mode = Some (pass_last_loss (model s) (labels s) bs1).
Proof.
  intros H1 H2 H3 Hld bs0 bs1 Hne0 Hne1 Hr0 Hr1.
  assert (Hm : m0 <> mode).
  { intros ->. by rewrite loader_for_unknown in Hld. }
  assert (Hp : passes s None (rng s) [m0; mode]
               = Some [(m0, bs0); (mode, bs1)]).
  { cbn. rewrite Hld. by rewrite loader_for_unknown. }
  assert (Hok : passes_ok s [(m0, bs0); (mode, bs1)])
    by (repeat constructor; done).
  destruct (mini_test_step_spec _ s _ Hp Hok) as [r' E].
  eexists _, _, _. split; [exact E |].
  unfold fill_metrics, fill_losses. cbn. by rewrite !lookup_insert_eq.
Qed.

(** X8: [_mini_test_step] raises [NameError] when the traversal of its first
    mode yields no batch: [i] is read after a loop that never ran. *)
Theorem X8_mini_test_step_first_traversal_empty (s : HAN B) mode rest ld :
  loader_for s None mode = Some ld ->
  (ld (rng s)).1 = [] ->
  _mini_test_step (mode :: rest) s = Raise (NameError "i").
Proof.
  intros Hld He.
  unfold _mini_test_step, bind at 1, modify. cbn [for_modes].
  unfold bind at 1. unfold bind at 1. unfold test_mode.
  assert (Hsel : select_loader (mkTestLocals ∅ ∅ 0%Q None None None) mode
                   (set_training false s)
                 = Ok (Some ld, set_training false s)).
  { apply select_loader_spec. cbn. unfold loader_for in *. exact Hld. }
  rewrite (bind_Ok _ _ _ _ _ Hsel). cbn [local].
  unfold bind at 1. unfold ret at 1.
  unfold bind at 1. unfold iterate, bind, get, modify. cbn.
  destruct (ld (rng s)) as [bs r]. cbn in He. by subst.
Qed.


(** X9: when the traversal of a later mode of [_mini_test_step] yields no
    batch, the stale [i] of the previous mode hides the empty loop and the
    step fails only at [torch.cat], with [RuntimeError]. *)
Theorem X9_mini_test_step_later_traversal_empty
    (s : HAN B) m0 m1 rest ld0 ld1 :
  loader_for s None m0 = Some ld0 ->
  (ld0 (rng s)).1 <> [] ->
  in_range s (ld0 (rng s)).1 ->
  loader_for s (Some ld0) m1 = Some ld1 ->
  (ld1 (ld0 (rng s)).2).1 = [] ->
  exists msg, _mini_test_step (m0 :: m1 :: rest) s = Raise (RuntimeError msg).
Proof.
  intros Hld0 Hne Hr Hld1 He.
  set (s0 := set_training false s).
  destruct (test_mode_spec (mkTestLocals ∅ ∅ 0%Q None None None) m0 s0 ld0)
    as (la & i & E); [done | exact Hld0 | exact Hne | exact Hr |].
  eexists.
  unfold _mini_test_step, bind at 1, modify. cbn [for_modes].
  fold s0. unfold bind at 1.
  rewrite (bind_Ok _ _ _ _ _ E). cbn [for_modes]. clear E.
  unfold bind at 1. unfold test_mode.
  match goal with
  | |- context [bind (select_loader ?l m1) _ ?s1] =>
      assert (Hsel : select_loader l m1 s1 = Ok (Some ld1, s1))
        by (apply select_loader_spec; exact Hld1)
  end.
  rewrite (bind_Ok _ _ _ _ _ Hsel). cbn [local].
  unfold bind at 1. unfold ret at 1.
  unfold bind at 1. unfold iterate, bind, get, modify. cbn.
  destruct (ld1 (ld0 (rng s)).2) as [bs r]. cbn in He. subst bs. cbn.
  reflexivity.
Qed.

(** X10: a mini-batch prediction step whose prediction loader yields no
    batch raises [RuntimeError], from [torch.cat] of an empty list. *)
Theorem X10_mini_prediction_step_empty_traversal (s : HAN B) ld :
  pred_loader s = Some ld ->
  (ld (rng s)).1 = [] ->
  exists msg, _mini_prediction_step s = Raise (RuntimeError msg).
Proof.
  intros Hld He. eexists.
  unfold _mini_prediction_step, bind, modify, getattr, iterate, get. cbn.
  rewrite Hld. cbn. destruct (ld (rng s)) as [bs r]. cbn in He. subst bs.
  reflexivity.
Qed.


(** ** The full-batch training step *)

Lemma gather_None {A : Type} (x : list A) (idx : list node) :
  gather x idx = None <-> ~ Forall (fun n => n < length x) idx.
Proof.
  split.
  - intros HN HF. destruct (gather_in_range x idx HF) as [l Hl]. congruence.
  - intros HF. destruct (gather x idx) as [l|] eqn:E; [| done].
    destruct HF. by apply gather_Some_in_range in E.
Qed.

(** X11: with the train indices inside the full-graph output and inside the
    label vector, a full-batch training step returns the loss of the
    parameters it was started with (one forward pass in training mode, on
    the train split), then applies exactly one optimizer update; it leaves
    the model in training mode and touches neither the random source nor
    the configuration. *)
Theorem X11_full_train_step_spec (s : HAN B) :
  Forall (fun n => n < length (forward_full (model s) true)) (train_idx s) ->
  Forall (fun n => n < length (labels s)) (train_idx s) ->
  exists lg lb s',
    gather (forward_full (model s) true) (train_idx s) = Some lg /\
    gather (labels s) (train_idx s) = Some lb /\
    _full_train_step s = Ok (loss_fn lg lb, s') /\
    (model s', optimizer s')
    = optimizer_step (optimizer s) (model s)
                     (backward_full (model s) (train_idx s) lb) /\
    training s' = true /\
    rng s' = rng s /\
    config s' = config s /\
    log s' = log s ++ [EvForward (model s) true; EvUpdate (loss_fn lg lb)].
Proof.
  intros H1 H2.
  destruct (gather_in_range _ _ H1) as [lg Hlg].
  destruct (gather_in_range _ _ H2) as [lb Hlb].
  exists lg, lb.
  destruct (optimizer_step (optimizer s) (model s)
              (backward_full (model s) (train_idx s) lb)) as [p o] eqn:Eo.
  exists (set_log (log s ++ [EvForward (model s) true; EvUpdate (loss_fn lg lb)])
            (set_optimizer o (set_model p (set_training true s)))).
  split; [done |]. split; [done |]. split; [| done].
  unfold _full_train_step, bind, modify, call_model_full, get, emit, modify,
    index, apply_gradient, bind, get, emit, modify.
  cbn. unfold gather in Hlg, Hlb. rewrite Hlg. cbn. rewrite Hlb. cbn.
  rewrite Eo. cbn. by rewrite <- app_assoc.
Qed.

(** X12: a full-batch training step fails exactly when some train index is
    outside the full-graph output or outside the label vector, and then
    with [IndexError]. *)
Theorem X12_full_train_step_fails_iff (s : HAN B) e :
  _full_train_step s = Raise e <->
  e = IndexError /\
  ~ Forall (fun n => n < length (forward_full (model s) true) /\
                     n < length (labels s)) (train_idx s).
Proof.
  unfold _full_train_step, bind, modify, call_model_full, get, emit, modify,
    index, apply_gradient, bind, get, emit, modify.
  cbn [model training set_training set_log log ret labels train_idx].
  destruct (gather (forward_full (model s) true) (train_idx s)) as [lg|] eqn:E1.
  - cbn. destruct (gather (labels s) (train_idx s)) as [lb|] eqn:E2; cbn.
    + destruct (optimizer_step _ _ _) as [p o]. cbn. split; [done |].
      intros [_ HF]. destruct HF.
      apply gather_Some_in_range in E1, E2.
      rewrite Forall_forall in *. intros n Hn. split; auto.
    + split; [| by intros [-> _]]. intros [= <-]. split; [done |].
      apply gather_None in E2. intros HF. apply E2.
      eapply Forall_impl; [exact HF |]. by intros n [_ ?].
  - cbn. split; [| by intros [-> _]]. intros [= <-]. split; [done |].
    apply gather_None in E1. intros HF. apply E1.
    eapply Forall_impl; [exact HF |]. by intros n [? _].
Qed.


(** ** Runs that cannot return *)

Lemma epoch_range_pos n :
  (0 < n)%Z -> exists rest, epoch_range n = 0%Z :: rest.
Proof.
  intros Hn. unfold epoch_range.
  destruct (Z.to_nat n) as [|k] eqn:E; [lia |]. cbn. eauto.
Qed.

Lemma epoch_range_nonpos n : (n <= 0)%Z -> epoch_range n = [].
Proof.
  intros Hn. unfold epoch_range.
  by replace (Z.to_nat n) with 0 by lia.
Qed.

(** X13: with [evaluate_interval = 0] and at least one epoch, [train] never
    returns: unless the first training step itself raises, the run ends in
    the first epoch with [ZeroDivisionError], from [epoch % 0]. *)
Theorem X13_train_zero_interval (s : HAN B) :
  evaluate_interval s = 0%Z ->
  (0 < max_epoch s)%Z ->
  let s0 := set_log (log s ++ [EvEpoch 0])
                    (set_model (base_preprocess (model s)) s) in
  let train_step := if mini_batch_flag (args s) then _mini_train_step
                    else _full_train_step in
  exists e,
    train s = Raise e /\
    (e = ZeroDivisionError \/ train_step s0 = Raise e).
Proof.
  intros Hk Hn s0 train_step.
  destruct (epoch_range_pos _ Hn) as [rest Hr].
  unfold train, bind at 1, modify. unfold bind at 1, get.
  cbn [max_epoch set_model args]. rewrite Hr.
  unfold bind at 1. cbn [epoch_loop]. unfold bind at 1.
  unfold epoch_body. unfold bind at 1, emit, modify.
  unfold bind at 1, get. cbn [args set_log set_model log].
  fold s0. fold train_step. unfold bind at 1.
  destruct (train_step s0) as [[v s1]|e] eqn:E1.
  - exists ZeroDivisionError. split; [| by left].
    destruct (train_step_log (config s0) (mini_batch_flag (args s)) s0 v s1
                eq_refl E1) as (C1 & _).
    unfold bind at 1, get.
    assert (Hk1 : evaluate_interval s1 = 0%Z).
    { destruct (config_fields _ _ C1) as (_ & _ & _ & _ & _ & _ & _ & _ & _ & _ & _ & ->).
      exact Hk. }
    by rewrite Hk1.
  - exists e. split; [reflexivity | by right].
Qed.


Lemma finish_without_epoch (s : HAN B) :
  prediction_flag (args s) = false ->
  test_flag (args s) = true ->
  let modes := if String.eqb (String.substring 0 4 (dataset (args s))) "HGBn"
               then ["valid"] else ["valid"; "test"] in
  exists e,
    finish None s = Raise e /\
    (e = NameError "epoch" \/ test_step modes s = Raise e).
Proof.
  intros Hp Ht modes. unfold finish, bind at 1, get. rewrite Hp, Ht.
  subst modes. destruct (String.eqb _ "HGBn").
  - unfold bind at 1.
    destruct (test_step ["valid"] s) as [[[md ld] s2]|e] eqn:E.
    + exists (NameError "epoch"). split; [reflexivity | by left].
    + exists e. split; [reflexivity | by right].
  - unfold bind at 1.
    destruct (test_step ["valid"; "test"] s) as [[[md ld] s2]|e] eqn:E.
    + exists (NameError "epoch"). split; [reflexivity | by left].
    + exists e. split; [reflexivity | by right].
Qed.

(** X14: the test-report path of [train] (prediction off, test on), entered
    with the loop variable [epoch] unbound, cannot return: unless the final
    evaluation itself raises, it ends with [NameError] on [epoch].  So no
    run with [max_epoch <= 0] on this path returns. *)
Theorem X14_train_without_epoch_cannot_report (s : HAN B) :
  prediction_flag (args s) = false ->
  test_flag (args s) = true ->
  let modes := if String.eqb (String.substring 0 4 (dataset (args s))) "HGBn"
               then ["valid"] else ["valid"; "test"] in
  (exists e,
     finish None s = Raise e /\
     (e = NameError "epoch" \/ test_step modes s = Raise e)) /\
  ((max_epoch s <= 0)%Z -> forall r s', train s <> Ok (r, s')).
Proof.
  intros Hp Ht modes. split; [by apply finish_without_epoch |].
  intros Hn r s' E. unfold train in E.
  apply bind_inv in E as (u & s1 & E1 & E). injection E1 as _ <-.
  apply bind_inv in E as (u1 & s1' & E1 & E). injection E1 as <- <-.
  cbn [args max_epoch set_model] in E.
  rewrite (epoch_range_nonpos _ Hn) in E.
  apply bind_inv in E as ([st lst] & s2 & E2 & E). injection E2 as <- <- <-.
  apply bind_inv in E as (u2 & s2' & E1 & E). injection E1 as <- <-.
  apply bind_inv in E as (u3 & s3 & E1 & E). injection E1 as _ <-.
  apply bind_inv in E as (u4 & s4 & E1 & E). injection E1 as _ <-.
  match type of E with
  | finish None ?s5 = _ =>
      destruct (finish_without_epoch s5 Hp Ht) as (e & E' & _)
  end.
  congruence.
Qed.

(** ** A run with neither flag *)

(** X15: with neither [prediction_flag] nor [test_flag], a run that
    completes returns nothing ([None]); the restore of the checkpoint is
    its last step, after the events of the epoch loop, and the model is
    left holding the restored parameters. *)
Theorem X15_train_without_flags_returns_none (s : HAN B) r s' :
  prediction_flag (args s) = false ->
  test_flag (args s) = false ->
  train s = Ok (r, s') ->
  r = NoResult /\
  exists loop_evs,
    log s' = log s ++ loop_evs ++ [EvLoadModel (model s')] /\
    Forall loop_ev loop_evs.
Proof.
  intros Hp Ht E.
  destruct (train_trace s r s' E) as (segs & b & st & lst & s3 & R & L & C & _ & F).
  assert (Ha : args s3 = args s) by (by apply config_fields in C as [-> _]).
  unfold finish, bind, get in F. rewrite Ha, Hp, Ht in F.
  injection F as <- <-. split; [done |].
  exists (concat segs). split; [exact L |].
  by apply loop_run_events in R.
Qed.


(** ** What the evaluation steps return *)

Lemma dict_set_elem {V : Type} (d : list (string * V)) k v :
  NoDup d.*1 ->
  forall k' v',
    (k', v') ∈ dict_set d k v <->
    (k' = k /\ v' = v) \/ (k' <> k /\ (k', v') ∈ d).
Proof.
  induction d as [|[k0 v0] d IH]; intros Hnd k' v'; cbn.
  - rewrite list_elem_of_singleton. split.
    + intros [= -> ->]. by left.
    + intros [[-> ->]|[_ H]]; [done | by apply elem_of_nil in H].
  - cbn in Hnd. apply NoDup_cons in Hnd as [Hk0 Hnd].
    destruct (String.eqb k0 k) eqn:Ek.
    + apply String.eqb_eq in Ek as ->. rewrite !elem_of_cons. split.
      * intros [[= -> ->]|Hin]; [by left |]. right. split; [| by right].
        intros ->. apply Hk0. apply list_elem_of_fmap. by exists (k, v').
      * intros [[-> ->]|[Hne [[= -> ->]|Hin]]]; [by left | done | by right].
    + apply String.eqb_neq in Ek. rewrite !elem_of_cons, (IH Hnd). split.
      * intros [[= -> ->]|[[-> ->]|[Hne Hin]]].
        -- right. split; [done | by left].
        -- by left.
        -- right. split; [done | by right].
      * intros [[-> ->]|[Hne [[= -> ->]|Hin]]].
        -- right. by left.
        -- by left.
        -- right. right. by split.
Qed.

Lemma dict_set_keys {V : Type} (d : list (string * V)) k v :
  forall k', k' ∈ (dict_set d k v).*1 <-> k' = k \/ k' ∈ d.*1.
Proof.
  induction d as [|[k0 v0] d IH]; intros k'; cbn.
  - rewrite list_elem_of_singleton. split; [auto |].
    intros [->|H]; [done | by apply elem_of_nil in H].
  - destruct (String.eqb k0 k) eqn:Ek; cbn.
    + apply String.eqb_eq in Ek as ->. rewrite !elem_of_cons. tauto.
    + rewrite !elem_of_cons, IH. tauto.
Qed.

Lemma dict_set_NoDup {V : Type} (d : list (string * V)) k v :
  NoDup d.*1 -> NoDup (dict_set d k v).*1.
Proof.
  induction d as [|[k0 v0] d IH]; intros Hnd; cbn.
  - apply NoDup_singleton.
  - cbn in Hnd. apply NoDup_cons in Hnd as [Hk0 Hnd].
    destruct (String.eqb k0 k) eqn:Ek; cbn.
    + by apply NoDup_cons.
    + apply String.eqb_neq in Ek. apply NoDup_cons. split; [| by apply IH].
      rewrite dict_set_keys. intros [->|H]; done.
Qed.

(** the masks dict holds exactly the requested modes that name a split,
    each once, with the index set of its split *)
Lemma build_masks_spec (s : HAN B) modes :
  NoDup (build_masks s modes).*1 /\
  forall k v,
    (k, v) ∈ build_masks s modes <-> k ∈ modes /\ mask_of s k = Some v.
Proof.
  unfold build_masks.
  set (f := fun masks mode => match mask_of s mode with
                              | Some idx => dict_set masks mode idx
                              | None => masks
                              end).
  assert (H : forall modes acc,
             NoDup acc.*1 ->
             (forall k v, (k, v) ∈ acc -> mask_of s k = Some v) ->
             NoDup (foldl f acc modes).*1 /\
             forall k v,
               (k, v) ∈ foldl f acc modes <->
               (k, v) ∈ acc \/ (k ∈ modes /\ mask_of s k = Some v)).
  { clear modes. induction modes as [|m modes IH]; intros acc Hnd Hacc; cbn.
    - split; [done |]. intros k v. split; [auto |].
      intros [?|[H _]]; [done | by apply elem_of_nil in H].
    - assert (Hnd' : NoDup (f acc m).*1).
      { unfold f. destruct (mask_of s m); [by apply dict_set_NoDup | done]. }
      assert (Hacc' : forall k v, (k, v) ∈ f acc m -> mask_of s k = Some v).
      { unfold f. intros k v. destruct (mask_of s m) as [idx|] eqn:Em; [| auto].
        rewrite (dict_set_elem _ _ _ Hnd). intros [[-> ->]|[_ Hin]]; auto. }
      destruct (IH (f acc m) Hnd' Hacc') as [IH1 IH2]. split; [done |].
      intros k v. rewrite IH2, elem_of_cons. unfold f.
      destruct (mask_of s m) as [idx|] eqn:Em.
      + rewrite (dict_set_elem _ _ _ Hnd). split.
        * intros [[[-> ->]|[Hne Hin]]|[Hin Hk]]; auto.
        * intros [Hin|[[->|Hin] Hk]]; auto.
          -- destruct (decide (k = m)) as [->|Hne]; [| auto].
             left. left. split; [done |]. apply Hacc in Hin. congruence.
          -- left. left. split; [done | congruence].
      + split.
        * intros [Hin|[Hin Hk]]; auto.
        * intros [Hin|[[->|Hin] Hk]]; auto. congruence. }
  destruct (H modes [] (NoDup_nil_2) (fun k v Hin => False_ind _ (proj1 (elem_of_nil _) Hin)))
    as [H1 H2].
  split; [exact H1 |]. intros k v. rewrite H2. split; [| auto].
  intros [Hin|?]; [by apply elem_of_nil in Hin | done].
Qed.

(** the dict a comprehension over duplicate-free items builds *)
Lemma dict_comp_pure_lookup {V W : Type} (g : string -> V -> option W) items :
  forall acc d,
    NoDup items.*1 ->
    dict_comp_pure g items acc = Some d ->
    (forall k v, (k, v) ∈ items -> is_Some (g k v) /\ d !! k = g k v) /\
    (forall k, k ∉ items.*1 -> d !! k = acc !! k).
Proof.
  induction items as [|[k0 v0] items IH]; intros acc d Hnd E; cbn in E.
  - injection E as <-. split; [| done]. intros k v H. by apply elem_of_nil in H.
  - cbn in Hnd. apply NoDup_cons in Hnd as [Hk0 Hnd].
    destruct (g k0 v0) as [w|] eqn:Eg; [| done].
    destruct (IH _ _ Hnd E) as [IH1 IH2]. split.
    + intros k v [[= -> ->]|Hin]%elem_of_cons.
      * rewrite Eg. split; [by eexists |]. by rewrite IH2, lookup_insert_eq.
      * by apply IH1.
    + intros k [Hne Hk]%not_elem_of_cons. rewrite IH2 by done.
      by rewrite lookup_insert_ne.
Qed.

Lemma mask_of_known (s : HAN B) k :
  is_Some (mask_of s k) <-> k ∈ ["train"; "valid"; "test"].
Proof.
  unfold mask_of. rewrite !elem_of_cons, elem_of_nil.
  destruct (String.eqb k "train") eqn:E1;
    [apply String.eqb_eq in E1; split; [auto | by eexists] |].
  destruct (String.eqb k "valid") eqn:E2;
    [apply String.eqb_eq in E2; split; [auto | by eexists] |].
  destruct (String.eqb k "test") eqn:E3;
    [apply String.eqb_eq in E3; split; [auto | by eexists] |].
  apply String.eqb_neq in E1, E2, E3. split; [by intros [? [=]] | tauto].
Qed.

(** what [_full_test_step] returns, entry by entry *)
Lemma full_test_step_lookup (s : HAN B) modes md ld s' :
  _full_test_step modes s = Ok ((md, ld), s') ->
  let logits := forward_full (model s) false in
  forall k,
    md !! k = (if bool_decide (k ∈ modes) then score_of s logits k else None) /\
    ld !! k = (if bool_decide (k ∈ modes)
               then mask_of s k ≫= loss_of s logits else None) /\
    (is_Some (md !! k) <-> k ∈ modes /\ k ∈ ["train"; "valid"; "test"]) /\
    (is_Some (ld !! k) <-> k ∈ modes /\ k ∈ ["train"; "valid"; "test"]).
Proof.
  intros E logits k.
  apply full_test_step_iff in E as [_ E]. unfold full_result in E.
  fold logits in E.
  destruct (dict_comp_pure (fun key _ => score_of s logits key)
              (build_masks s modes) ∅) as [md'|] eqn:E1; [| done].
  destruct (dict_comp_pure (fun _ mask => loss_of s logits mask)
              (build_masks s modes) ∅) as [ld'|] eqn:E2; [| done].
  injection E as -> ->.
  destruct (build_masks_spec s modes) as [Hnd Hel].
  destruct (dict_comp_pure_lookup _ _ _ _ Hnd E1) as [M1 M2].
  destruct (dict_comp_pure_lookup _ _ _ _ Hnd E2) as [L1 L2].
  assert (Hkey : k ∈ (build_masks s modes).*1 <->
                 k ∈ modes /\ is_Some (mask_of s k)).
  { rewrite list_elem_of_fmap. split.
    - intros [[k' v] [-> Hin]]. apply Hel in Hin as [? ?].
      split; [done | by eexists].
    - intros [Hin [v Hv]]. exists (k, v). split; [done |]. by apply Hel. }
  assert (Hno : forall X, is_Some (@None X) <-> False)
    by (intros X; split; [by intros [? [=]] | done]).
  rewrite <- mask_of_known.
  case_bool_decide as Hin.
  - destruct (mask_of s k) as [v|] eqn:Em.
    + assert (Hkv : (k, v) ∈ build_masks s modes) by (by apply Hel).
      destruct (M1 k v Hkv) as [Hs1 ->]. destruct (L1 k v Hkv) as [Hs2 ->].
      cbn. repeat split; try done; by eexists.
    + assert (Hn : k ∉ (build_masks s modes).*1).
      { rewrite Hkey. by intros [_ [? [=]]]. }
      rewrite M2, L2 by done. unfold score_of. rewrite Em, lookup_empty.
      cbn. rewrite !Hno. tauto.
  - assert (Hn : k ∉ (build_masks s modes).*1) by (rewrite Hkey; tauto).
    rewrite M2, L2, lookup_empty by done. rewrite !Hno. tauto.
Qed.

(** X16: a full-batch evaluation step runs one forward pass, in evaluation
    mode, however many modes are requested, and changes nothing else.  The
    dicts it returns, entry by entry: a key is present exactly when it was
    requested and names a split (other names are dropped without an
    error); its score is the evaluator's on the split's rows of the one
    shared output, and its loss the loss on those rows.  The order and the
    repetitions of the requested modes do not matter. *)
Theorem X16_full_test_step_result (s : HAN B) modes md ld s' :
  _full_test_step modes s = Ok ((md, ld), s') ->
  s' = after_full_test s /\
  let logits := forward_full (model s) false in
  forall k,
    md !! k = (if bool_decide (k ∈ modes) then score_of s logits k else None) /\
    ld !! k = (if bool_decide (k ∈ modes)
               then mask_of s k ≫= loss_of s logits else None) /\
    (is_Some (md !! k) <-> k ∈ modes /\ k ∈ ["train"; "valid"; "test"]) /\
    (is_Some (ld !! k) <-> k ∈ modes /\ k ∈ ["train"; "valid"; "test"]).
Proof.
  intros E. split.
  - by apply full_test_step_iff in E as [-> _].
  - by apply (full_test_step_lookup s modes md ld s').
Qed.


Ltac eval_step :=
  first
    [ apply triple_raise
    | apply triple_ret; exact Logic.I
    | apply triple_getattr
    | apply triple_local
    | apply triple_index
    | apply triple_cat
    | apply triple_iterate; by intros ? ? [? ?]
    | apply triple_emit; [by intros ? ? [? ?] | done]
    | apply triple_modify; [by intros ? [? ?] | done] ].

Ltac eval_seq := eapply triple_bind; [| intros ? ?; cbv beta].

Lemma test_mode_keys c p l mode :
  triple (I_eval c p) (test_mode l mode) any_event
         (fun l' => exists sc lo,
                      metric_dict l' = <[mode := sc]> (metric_dict l) /\
                      loss_dict l' = <[mode := lo]> (loss_dict l)).
Proof.
  unfold test_mode.
  eval_seq; [apply select_loader_log |].
  eval_seq; [eval_step |].
  eval_seq; [eval_step |].
  eval_seq; [apply triple_for_enum; intros; by apply test_batch_log |].
  match goal with a : (BatchLocals * option nat)%type |- _ => destruct a end.
  eval_seq; [eval_step |].
  eval_seq; [eval_step |].
  eval_seq; [eval_step |].
  eval_seq; [eval_step |].
  eval_seq; [eval_step |].
  apply triple_ret. cbn. eauto.
Qed.

Lemma for_modes_keys c p modes : forall l,
  triple (I_eval c p) (for_modes l modes) any_event
         (fun l' => forall k,
            (is_Some (metric_dict l' !! k) <->
             k ∈ modes \/ is_Some (metric_dict l !! k)) /\
            (is_Some (loss_dict l' !! k) <->
             k ∈ modes \/ is_Some (loss_dict l !! k))).
Proof.
  induction modes as [|mode modes IH]; intros l; cbn.
  - apply triple_ret. intros k. rewrite elem_of_nil. tauto.
  - eapply triple_bind; [apply test_mode_keys |].
    intros l1 (sc & lo & Hm & Hl). cbv beta.
    intros s l2 s' Hs E.
    destruct (IH l1 s l2 s' Hs E) as (Hs' & HQ & evs & L & F).
    split; [done |]. split; [| by exists evs].
    intros k. destruct (HQ k) as [H1 H2]. rewrite H1, H2, Hm, Hl.
    rewrite elem_of_cons.
    destruct (decide (k = mode)) as [->|Hne].
    + rewrite !lookup_insert_eq. split; split; intros _; auto;
        right; right; by eexists.
    + rewrite !lookup_insert_ne by done. tauto.
Qed.

Lemma mini_test_step_dom (s : HAN B) modes md ld s' :
  _mini_test_step modes s = Ok ((md, ld), s') ->
  forall k, (is_Some (md !! k) <-> k ∈ modes) /\
            (is_Some (ld !! k) <-> k ∈ modes).
Proof.
  unfold _mini_test_step. intros E.
  apply bind_inv in E as (u & s1 & _ & E).
  apply bind_inv in E as (l & s2 & E & E2). injection E2 as <- <- <-.
  destruct (for_modes_keys (config s1) (model s1) modes _ s1 l s2
              (conj eq_refl eq_refl) E) as (_ & HQ & _).
  intros k. destruct (HQ k) as [H1 H2]. rewrite H1, H2. cbn.
  rewrite !lookup_empty.
  assert (Hno : forall X, is_Some (@None X) <-> False)
    by (intros X; split; [by intros [? [=]] | done]).
  rewrite !Hno. tauto.
Qed.


(** ** The report of a run *)

Lemma epochs_of_app (l1 l2 : list (Event B)) :
  epochs_of (l1 ++ l2) = epochs_of l1 ++ epochs_of l2.
Proof. apply omap_app. Qed.

Lemma epoch_seg_break k epoch st seg st' :
  epoch_seg k epoch st seg st' true -> last seg = Some (EvEarlyStop epoch).
Proof.
  intros (tr & _ & H). destruct (epoch `mod` k =? 0)%Z.
  - destruct H as (te & tl & v & p & -> & _).
    rewrite !app_comm_cons, !app_assoc. apply last_snoc.
  - by destruct H as (_ & _ & [=]).
Qed.

(** the epochs the loop runs are a prefix of the epochs it is given; the
    loop variable keeps the last of them; the prefix is proper only when
    the loop was left by [break], right after the early-stop message *)
Lemma epoch_loop_last epochs : forall st lst (s : HAN B) st' lst' s',
  epoch_loop st lst epochs s = Ok ((st', lst'), s') ->
  exists evs n,
    log s' = log s ++ evs /\
    n <= length epochs /\
    epochs_of evs = take n epochs /\
    lst' = match last (take n epochs) with Some e => Some e | None => lst end /\
    (n < length epochs ->
     exists e, last (take n epochs) = Some e /\
               last evs = Some (EvEarlyStop e)).
Proof.
  induction epochs as [|epoch rest IH]; intros st lst s st' lst' s' E.
  - injection E as <- <- <-. exists [], 0. rewrite app_nil_r. cbn.
    repeat split; try done. lia.
  - cbn in E. apply bind_inv in E as ([st1 brk] & s1 & E1 & E).
    destruct (epoch_body_trace _ _ _ _ _ _ E1) as (C1 & seg & L1 & S1).
    pose proof (epoch_seg_shape _ _ _ _ _ _ S1) as (_ & Hep & _).
    destruct brk.
    + injection E as <- <- <-. exists seg, 1. cbn. rewrite take_0.
      split; [done |]. split; [lia |]. split; [done |]. split; [done |].
      intros _. exists epoch. split; [done |]. by eapply epoch_seg_break.
    + destruct (IH _ _ _ _ _ _ E) as (evs & n & L & Hn & Hev & Hl & Hb).
      exists (seg ++ evs), (S n). cbn [take length].
      split; [by rewrite L, L1, app_assoc |]. split; [lia |].
      split; [by rewrite epochs_of_app, Hep, Hev |].
      split.
      * rewrite Hl. rewrite last_cons. by destruct (last (take n rest)).
      * intros Hlt. destruct Hb as (e & He & Hle); [lia |].
        exists e. rewrite last_cons, He. split; [done |].
        rewrite last_app, Hle. done.
Qed.

Lemma finish_ev_epochs flag p (fin : list (Event B)) :
  Forall (finish_ev flag p) fin -> epochs_of fin = [].
Proof.
  apply omap_none. intros [] [H _]; try done.
Qed.

Lemma take_epoch_range n N :
  n <= Z.to_nat N -> take n (epoch_range N) = epoch_range (Z.of_nat n).
Proof.
  intros Hn. unfold epoch_range. rewrite <- fmap_take, take_seq.
  rewrite Nat2Z.id. do 2 f_equal. lia.
Qed.

Lemma last_epoch_range n :
  last (epoch_range (Z.of_nat (S n))) = Some (Z.of_nat n).
Proof.
  unfold epoch_range. rewrite Nat2Z.id, seq_S, fmap_app. cbn.
  apply last_snoc.
Qed.


(** a run that returns a report went through the test branch of [train] *)
Lemma finish_report (s3 : HAN B) lst m e s' :
  finish lst s3 = Ok (Report m e, s') ->
  prediction_flag (args s3) = false /\
  test_flag (args s3) = true /\
  lst = Some e /\
  exists ld s4,
    if String.eqb (String.substring 0 4 (dataset (args s3))) "HGBn" then
      test_step ["valid"] s3 = Ok ((m, ld), s4) /\
      log s' = log s4 ++ [EvTestInfo; EvForward (model s4) false;
                          EvSaveResults (forward_full (model s4) false)] /\
      model s' = model s4
    else
      test_step ["valid"; "test"] s3 = Ok ((m, ld), s4) /\
      log s' = log s4 ++ [EvTestInfo] /\
      model s' = model s4.
Proof.
  unfold finish. intros E.
  apply bind_inv in E as (u & s3' & E1 & E). injection E1 as <- <-.
  destruct (prediction_flag (args s3)).
  { apply bind_inv in E as (u1 & s4 & _ & E).
    destruct (use_mini s3).
    - apply bind_inv in E as ([ids y] & s5 & _ & E). by injection E.
    - apply bind_inv in E as (y & s5 & _ & E). by injection E. }
  destruct (test_flag (args s3)); [| by injection E].
  split; [done |]. split; [done |].
  destruct (String.eqb _ "HGBn").
  - apply bind_inv in E as ([md ld] & s4 & E4 & E).
    apply bind_inv in E as (u1 & s5 & E1 & E). injection E1 as _ <-.
    apply bind_inv in E as (u2 & s6 & E1 & E). injection E1 as _ <-.
    apply bind_inv in E as (lg & s7 & E1 & E).
    unfold call_model_full, bind, get, emit, modify in E1. cbn in E1.
    injection E1 as <- <-.
    apply bind_inv in E as (u3 & s8 & E1 & E). injection E1 as _ <-.
    apply bind_inv in E as (e' & s9 & E1 & E).
    destruct lst as [e0|]; [| done]. injection E1 as <- <-.
    injection E as <- <- <-. split; [done |].
    exists ld, s4. split; [done |]. cbn. by rewrite <- !app_assoc.
  - apply bind_inv in E as ([md ld] & s4 & E4 & E).
    apply bind_inv in E as (u1 & s5 & E1 & E). injection E1 as _ <-.
    apply bind_inv in E as (e' & s9 & E1 & E).
    destruct lst as [e0|]; [| done]. injection E1 as <- <-.
    injection E as <- <- <-. split; [done |].
    by exists ld, s4.
Qed.

(** X17: the epoch number of a returned report is the last epoch that ran:
    the run went through the epochs 0, 1, .., e, in this order, and when e
    is not the last epoch of the range the loop was left by the early-stop
    message of epoch e. *)
Theorem X17_report_epoch_is_last_epoch_run (s : HAN B) m e s' :
  train s = Ok (Report m e, s') ->
  (0 <= e < max_epoch s)%Z /\
  exists evs,
    log s' = log s ++ evs /\
    epochs_of evs = epoch_range (e + 1) /\
    ((e + 1 < max_epoch s)%Z -> EvEarlyStop e ∈ evs).
Proof.
  unfold train. intros E.
  apply bind_inv in E as (u & s1 & E1 & E). injection E1 as _ <-.
  apply bind_inv in E as (u1 & s1' & E1 & E). injection E1 as <- <-.
  cbn [args max_epoch set_model] in E.
  apply bind_inv in E as ([st lst] & s2 & E2 & E).
  destruct (epoch_loop_last _ _ _ _ _ _ _ E2)
    as (evs & n & L2 & Hn & Hev & Hl & Hb).
  apply bind_inv in E as (u2 & s2' & E1 & E). injection E1 as <- <-.
  apply bind_inv in E as (u3 & s3 & E1 & E). injection E1 as _ <-.
  apply bind_inv in E as (u4 & s4 & E1 & E). injection E1 as _ <-.
  destruct (finish_trace _ _ _ _ E) as (fin & L4 & F4 & _).
  apply finish_report in E as (_ & _ & -> & _).
  rewrite epoch_range_length in Hn.
  rewrite take_epoch_range in Hev, Hl, Hb by done.
  destruct n as [|n]; [done |].
  rewrite last_epoch_range in Hl, Hb. injection Hl as ->.
  split; [lia |].
  exists (evs ++ [EvLoadModel (load_model st (model s2))] ++ fin).
  split.
  { rewrite L4. cbn [log set_log set_model]. rewrite L2. cbn [log set_model].
    by rewrite <- !app_assoc. }
  split.
  { rewrite !epochs_of_app, (finish_ev_epochs _ _ _ F4), Hev. cbn.
    rewrite app_nil_r. f_equal. lia. }
  intros Hlt. destruct Hb as (e & [= <-] & Hle).
  { rewrite epoch_range_length. lia. }
  apply elem_of_app. left. apply last_Some in Hle as [l' ->].
  apply elem_of_app. right. apply list_elem_of_here.
Qed.


(** for modes that name splits, both variants of the evaluation step return
    dicts whose keys are the requested modes *)
Lemma test_step_dom (s : HAN B) modes md ld s' :
  test_step modes s = Ok ((md, ld), s') ->
  Forall (fun m => m ∈ ["train"; "valid"; "test"]) modes ->
  forall k, (is_Some (md !! k) <-> k ∈ modes) /\
            (is_Some (ld !! k) <-> k ∈ modes).
Proof.
  unfold test_step, bind, get. intros E Hknown k.
  destruct (use_mini s).
  - by apply (mini_test_step_dom s modes md ld s').
  - destruct (full_test_step_lookup s modes md ld s' E k) as (_ & _ & -> & ->).
    rewrite Forall_forall in Hknown. split; split; try tauto;
      intros Hk; split; auto.
Qed.

(** X18: a run that returns a report had [prediction_flag] off and
    [test_flag] on.  For a dataset whose name starts with [HGBn] the metric
    dict has the key [valid] only, and after the [Test Info] line the
    full-graph output of the restored model, in evaluation mode, is handed
    to [save_results]; for any other dataset the keys are [valid] and
    [test] and the [Test Info] line is the last step.  After the restore
    every forward pass runs the restored parameters. *)
Theorem X18_test_report_shape (s : HAN B) m e s' :
  train s = Ok (Report m e, s') ->
  prediction_flag (args s) = false /\
  test_flag (args s) = true /\
  let hgbn := String.eqb (String.substring 0 4 (dataset (args s))) "HGBn" in
  (forall k, is_Some (m !! k) <->
             k ∈ (if hgbn then ["valid"] else ["valid"; "test"])) /\
  exists loop_evs te,
    log s' = log s ++ loop_evs ++ [EvLoadModel (model s')] ++ te
             ++ EvTestInfo
                :: (if hgbn
                    then [EvForward (model s') false;
                          EvSaveResults (forward_full (model s') false)]
                    else []) /\
    Forall loop_ev loop_evs /\
    Forall (eval_ev (model s')) te.
Proof.
  intros E.
  destruct (train_trace s _ s' E)
    as (segs & b & st & lst & s3 & R & L & C & _ & F).
  apply finish_report in F as (Hp & Ht & _ & ld & s4 & F).
  destruct (config_fields _ _ C) as (Ha & _). rewrite Ha in Hp, Ht, F.
  split; [done |]. split; [done |]. cbv zeta.
  assert (KF : forall tr, eval_ev (model s3) (EvForward (model s3) tr)) by done.
  destruct (String.eqb _ "HGBn").
  - destruct F as (F & L' & M').
    destruct (test_step_log (config s3) (model s3) (eval_ev (model s3))
                KF (fun _ => Logic.I) (fun _ _ _ => Logic.I)
                _ s3 _ s4 (conj eq_refl eq_refl) F)
      as ([C4 M4] & _ & te & L4 & F4).
    split.
    { intros k. apply (test_step_dom _ _ _ _ _ F). repeat constructor;
        rewrite !elem_of_cons; auto. }
    exists (concat segs), te. rewrite M', M4. split.
    { rewrite L', L4, L, M4. by rewrite <- !app_assoc. }
    split; [by apply loop_run_events in R | done].
  - destruct F as (F & L' & M').
    destruct (test_step_log (config s3) (model s3) (eval_ev (model s3))
                KF (fun _ => Logic.I) (fun _ _ _ => Logic.I)
                _ s3 _ s4 (conj eq_refl eq_refl) F)
      as ([C4 M4] & _ & te & L4 & F4).
    split.
    { intros k. apply (test_step_dom _ _ _ _ _ F). repeat constructor;
        rewrite !elem_of_cons; auto. }
    exists (concat segs), te. rewrite M', M4. split.
    { rewrite L', L4, L. by rewrite <- !app_assoc. }
    split; [by apply loop_run_events in R | done].
Qed.

(** ** When the mini-batch steps return *)

Lemma train_batch_inv loss_all i b (s : HAN B) v s' :
  train_batch loss_all i b s = Ok (v, s') ->
  Forall (fun n => n < length (labels s)) (seeds b) /\ labels s' = labels s.
Proof.
  intros E.
  destruct (train_batch_log (config s) loss_all i b s v s' eq_refl E)
    as (C & _).
  apply config_fields in C as (_ & _ & _ & _ & _ & HL & _).
  split; [| done].
  unfold train_batch in E. apply bind_inv in E as (s0 & s0' & E0 & E).
  injection E0 as <- <-.
  apply bind_inv in E as (lbl & s1 & E1 & _). unfold index in E1.
  destruct (gather (labels s) (seeds b)) as [l|] eqn:Eg; [| done].
  by apply gather_Some_in_range in Eg.
Qed.

Lemma train_batches_inv bs : forall acc i lst (s : HAN B) r s',
  for_enum train_batch acc i lst bs s = Ok (r, s') -> in_range s bs.
Proof.
  induction bs as [|b bs IH]; intros acc i lst s r s' E; [constructor |].
  cbn in E. apply bind_inv in E as (acc' & s1 & E1 & E).
  apply train_batch_inv in E1 as [Hb HL]. constructor; [done |].
  apply IH in E. unfold in_range in *. by rewrite HL in E.
Qed.

Lemma mini_train_step_inv (s : HAN B) v s' :
  _mini_train_step s = Ok (v, s') ->
  exists ld,
    train_loader s = Some ld /\
    (ld (rng s)).1 <> [] /\
    in_range s (ld (rng s)).1.
Proof.
  unfold _mini_train_step. intros E.
  apply bind_inv in E as (u & s1 & E1 & E). injection E1 as _ <-.
  apply bind_inv in E as (ld & s2 & E1 & E). unfold getattr in E1. cbn in E1.
  destruct (train_loader s) as [ld'|] eqn:Hld; [| done].
  injection E1 as <- <-. exists ld'. split; [done |].
  apply bind_inv in E as (bs & s3 & E1 & E).
  unfold iterate, bind, get, modify in E1. cbn in E1.
  destruct (ld' (rng s)) as [bs' r] eqn:Eld. cbn in E1. injection E1 as <- <-.
  apply bind_inv in E as ([acc lst] & s4 & E1 & E). cbn.
  pose proof (train_batches_inv _ _ _ _ _ _ _ E1) as Hr.
  split; [| exact Hr].
  intros ->. cbn in E1. injection E1 as <- <- <-. by cbn in E.
Qed.

Lemma test_batch_inv a i b (s : HAN B) a' s' :
  test_batch a i b s = Ok (a', s') ->
  Forall (fun n => n < length (labels s)) (seeds b) /\
  labels s' = labels s /\ training s' = training s.
Proof.
  unfold test_batch, call_model_batch, bind, get, emit, modify, index.
  cbn. destruct (gather (labels s) (seeds b)) as [l|] eqn:Eg; [| done].
  cbn. intros [= <- <-]. split; [| done]. by apply gather_Some_in_range in Eg.
Qed.

Lemma test_batches_inv bs : forall a i lst (s : HAN B) r s',
  for_enum test_batch a i lst bs s = Ok (r, s') -> in_range s bs.
Proof.
  induction bs as [|b bs IH]; intros a i lst s r s' E; [constructor |].
  cbn in E. apply bind_inv in E as (a' & s1 & E1 & E).
  apply test_batch_inv in E1 as (Hb & HL & _). constructor; [done |].
  apply IH in E. unfold in_range in *. by rewrite HL in E.
Qed.

Lemma select_loader_inv l mode (s : HAN B) cur s' :
  select_loader l mode s = Ok (cur, s') ->
  s' = s /\ cur = loader_for s (loader_tqdm l) mode /\
  (mode ∈ ["train"; "valid"; "test"] -> is_Some cur).
Proof.
  unfold select_loader, loader_for, bind, getattr, ret.
  rewrite !elem_of_cons, elem_of_nil.
  destruct (String.eqb mode "train") eqn:E1.
  { destruct (train_loader s); [| done]. intros [= <- <-].
    split; [done |]. split; [done |]. by eexists. }
  destruct (String.eqb mode "valid") eqn:E2.
  { destruct (val_loader s); [| done]. intros [= <- <-].
    split; [done |]. split; [done |]. by eexists. }
  destruct (String.eqb mode "test") eqn:E3.
  { destruct (test_loader s); [| done]. intros [= <- <-].
    split; [done |]. split; [done |]. by eexists. }
  intros [= <- <-]. split; [done |]. split; [done |].
  apply String.eqb_neq in E1, E2, E3. tauto.
Qed.

Lemma test_mode_inv l mode (s : HAN B) l' s' :
  training s = false ->
  test_mode l mode s = Ok (l', s') ->
  exists ld,
    loader_for s (loader_tqdm l) mode = Some ld /\
    (ld (rng s)).1 <> [] /\
    in_range s (ld (rng s)).1.
Proof.
  intros Ht E. unfold test_mode in E.
  apply bind_inv in E as (cur & s1 & E1 & E).
  apply select_loader_inv in E1 as (-> & -> & _).
  apply bind_inv in E as (ld & s1 & E1 & E).
  destruct (loader_for s (loader_tqdm l) mode) as [ld'|]; [| done].
  injection E1 as <- <-. exists ld'. split; [done |].
  apply bind_inv in E as (bs & s3 & E1 & E).
  unfold iterate, bind, get, modify in E1. cbn in E1.
  destruct (ld' (rng s)) as [bs' r] eqn:Eld. cbn in E1. injection E1 as <- <-.
  apply bind_inv in E as ([a lst] & s4 & E1 & E). cbn.
  pose proof (test_batches_inv _ _ _ _ _ _ _ E1) as Hr.
  split; [| exact Hr].
  intros ->. cbn in E1. injection E1 as <- <- <-.
  apply bind_inv in E as (i & s5 & _ & E). by cbn in E.
Qed.

Lemma for_modes_inv modes : forall l (s : HAN B) l' s',
  training s = false ->
  for_modes l modes s = Ok (l', s') ->
  exists ps,
    passes s (loader_tqdm l) (rng s) modes = Some ps /\ passes_ok s ps.
Proof.
  induction modes as [|mode modes IH]; intros l s l' s' Ht E.
  - exists []. split; [done | constructor].
  - cbn in E. apply bind_inv in E as (l1 & s1 & E1 & E).
    destruct (test_mode_inv _ _ _ _ _ Ht E1) as (ld & Hld & Hne & Hr).
    destruct (test_mode_spec l mode s ld Ht Hld Hne Hr) as (la & i & E1').
    rewrite E1' in E1. injection E1 as <- <-.
    apply IH in E as (ps & Hp & Hok); [| done].
    cbn in Hp. rewrite (passes_ext s) in Hp by done.
    exists ((mode, (ld (rng s)).1) :: ps). split.
    + cbn. by rewrite Hld, Hp.
    + constructor; [done | exact Hok].
Qed.

Lemma mini_test_step_inv modes (s : HAN B) r s' :
  _mini_test_step modes s = Ok (r, s') ->
  exists ps, passes s None (rng s) modes = Some ps /\ passes_ok s ps.
Proof.
  unfold _mini_test_step. intros E.
  apply bind_inv in E as (u & s1 & E1 & E). injection E1 as _ <-.
  apply bind_inv in E as (l & s2 & E & _).
  apply for_modes_inv in E as (ps & Hp & Hok); [| done].
  exists ps. split; [| done]. cbn in Hp. by rewrite (passes_ext s) in Hp.
Qed.

Lemma mini_prediction_step_inv (s : HAN B) r s' :
  _mini_prediction_step s = Ok (r, s') ->
  exists ld, pred_loader s = Some ld /\ (ld (rng s)).1 <> [].
Proof.
  unfold _mini_prediction_step. intros E.
  apply bind_inv in E as (u & s1 & E1 & E). injection E1 as _ <-.
  apply bind_inv in E as (ld & s2 & E1 & E). unfold getattr in E1. cbn in E1.
  destruct (pred_loader s) as [ld'|] eqn:Hld; [| done].
  injection E1 as <- <-. exists ld'. split; [done |].
  apply bind_inv in E as (bs & s3 & E1 & E).
  unfold iterate, bind, get, modify in E1. cbn in E1.
  destruct (ld' (rng s)) as [bs' r0] eqn:Eld. cbn in E1. injection E1 as <- <-.
  apply bind_inv in E as ([a lst] & s4 & E1 & E). cbn.
  intros ->. cbn in E1. injection E1 as <- <- <-. by cbn in E.
Qed.



(** ** A mini-batch training epoch, update by update *)

(** X19: a mini-batch training epoch as a sequence of updates: every batch
    is run, in training mode, on the parameters left by the update of the
    batch before it, the gradient is taken at those parameters, and the
    optimizer state is threaded through; the log is one forward pass and one
    update per batch; the value returned is the mean of the batch losses;
    one traversal of the train loader is consumed. *)
Theorem X19_mini_train_step_sequential_updates (s : HAN B) ld :
  train_loader s = Some ld ->
  (ld (rng s)).1 <> [] ->
  in_range s (ld (rng s)).1 ->
  let run := sgd_pass (model s) (optimizer s) (labels s) (ld (rng s)).1 in
  exists v s',
    _mini_train_step s = Ok (v, s') /\
    (v == Qmean run.1.*2)%Q /\
    (model s', optimizer s') = run.2 /\
    training s' = true /\
    rng s' = (ld (rng s)).2 /\
    config s' = config s /\
    log s' = log s
             ++ flat_map (fun q => [EvForward q.1 true; EvUpdate q.2]) run.1.
Proof.
  intros Hld Hne Hr run.
  destruct (ld (rng s)) as [bs r] eqn:Eld. cbn [fst snd] in *.
  destruct (train_batches_run bs 0%Q 0 None (set_rng r (set_training true s))
              eq_refl Hr) as (s' & E & HM & HT & HR & HC & HL).
  cbn [model optimizer labels set_rng set_training log rng] in E, HM, HL, HR.
  fold run in E, HM, HL.
  assert (Hlen : length run.1.*2 = length bs).
  { unfold run. clear. generalize (model s) (optimizer s).
    induction bs as [|b bs IH]; intros p o; [done |]. cbn.
    destruct (optimizer_step _ _ _) as [p' o'].
    specialize (IH p' o'). destruct (sgd_pass p' o' (labels s) bs). cbn in *.
    by rewrite IH. }
  eexists _, s'. split.
  { unfold _mini_train_step, bind, modify, getattr, iterate, get. cbn.
    rewrite Hld. cbn. rewrite Eld. cbn.
    unfold bind in E. rewrite E. destruct bs; [done | reflexivity]. }
  split.
  { unfold Qmean. rewrite foldl_Qplus, Hlen.
    replace (Z.of_nat (0 + length bs - 1) + 1)%Z
      with (Z.of_nat (length bs)) by (destruct bs; [done | cbn; lia]).
    apply Qdiv_comp; [ring | reflexivity]. }
  done.
Qed.

(** X20: a mini-batch training step returns exactly when the train loader
    exists, its traversal yields at least one batch, and every seed of
    every batch is inside the label vector. *)
Theorem X20_mini_train_step_returns_iff (s : HAN B) :
  (exists v s', _mini_train_step s = Ok (v, s')) <->
  exists ld,
    train_loader s = Some ld /\
    (ld (rng s)).1 <> [] /\
    in_range s (ld (rng s)).1.
Proof.
  split.
  - intros (v & s' & E). by eapply mini_train_step_inv.
  - intros (ld & Hld & Hne & Hr).
    destruct (ld (rng s)) as [bs r] eqn:Eld. cbn [fst snd] in *.
    destruct (train_batches_spec bs 0%Q 0 None
                (set_rng r (set_training true s)) Hr)
      as (acc & s' & evs & E & _).
    destruct bs as [|b bs]; [done |].
    eexists _, s'.
    unfold _mini_train_step, bind, modify, getattr, iterate, get. cbn.
    rewrite Hld. cbn. rewrite Eld. cbn.
    unfold bind in E. cbn in E. rewrite E. reflexivity.
Qed.


(** X21: a mini-batch evaluation step returns exactly when every requested
    mode has a loader (its own, or the one left by the mode before it for
    a name of no split), every traversal yields at least one batch, and
    every seed is inside the label vector. *)
Theorem X21_mini_test_step_returns_iff (s : HAN B) modes :
  (exists r s', _mini_test_step modes s = Ok (r, s')) <->
  exists ps, passes s None (rng s) modes = Some ps /\ passes_ok s ps.
Proof.
  split.
  - intros (r & s' & E). by eapply mini_test_step_inv.
  - intros (ps & Hp & Hok).
    destruct (mini_test_step_spec modes s ps Hp Hok) as [r' E]. eauto.
Qed.

(** X22: the dicts a mini-batch evaluation step returns have exactly the
    requested modes as keys, names of no split included; the evaluator is
    called once per listed mode, in the listed order, so a mode listed
    twice is traversed and scored twice. *)
Theorem X22_mini_test_step_keys (s : HAN B) modes md ld s' :
  _mini_test_step modes s = Ok ((md, ld), s') ->
  (forall k, (is_Some (md !! k) <-> k ∈ modes) /\
             (is_Some (ld !! k) <-> k ∈ modes)) /\
  exists evs,
    log s' = log s ++ evs /\
    (fun c => c.1.1) <$> evaluator_calls evs = modes.
Proof.
  intros E. split; [by apply (mini_test_step_dom s modes md ld s') |].
  destruct (mini_test_step_inv _ _ _ _ E) as (ps & Hp & Hok).
  destruct (mini_test_step_spec modes s ps Hp Hok) as [r' E'].
  rewrite E' in E. injection E as _ _ <-.
  eexists. split; [reflexivity |].
  rewrite evaluator_calls_passes, <- list_fmap_compose.
  by rewrite <- (passes_modes _ _ _ _ _ Hp).
Qed.

(** X23: a mini-batch prediction step returns exactly when the prediction
    loader exists and its traversal yields at least one batch; it then
    returns the concatenated seeds and the concatenated eval-mode outputs
    of the batches, logs one forward pass per batch and consumes one
    traversal.  The seeds are never checked against the label vector. *)
Theorem X23_mini_prediction_step_iff (s : HAN B) r s' :
  _mini_prediction_step s = Ok (r, s') <->
  exists ld,
    pred_loader s = Some ld /\
    (ld (rng s)).1 <> [] /\
    r = (concat (seeds <$> (ld (rng s)).1),
         concat (pass_logits (model s) (ld (rng s)).1)) /\
    s' = set_log (log s ++ ((fun _ => EvForward (model s) false)
                              <$> (ld (rng s)).1))
                 (set_rng (ld (rng s)).2 (set_training false s)).
Proof.
  split.
  - intros E. destruct (mini_prediction_step_inv _ _ _ E) as (ld & Hld & Hne).
    exists ld. split; [done |]. split; [done |].
    rewrite (mini_prediction_step_spec s ld Hld Hne) in E.
    by injection E as <- <-.
  - intros (ld & Hld & Hne & -> & ->).
    by apply mini_prediction_step_spec.
Qed.

(** ** Evaluation leaves the parameters alone *)

Lemma set_training_left (s : HAN B) l r :
  left_in_eval_mode s (set_log l (set_rng r (set_training false s))).
Proof. done. Qed.

(** X24: the evaluation and prediction steps, full-batch and mini-batch,
    leave the parameters, the optimizer state and the configuration as they
    found them, and leave the model in evaluation mode. *)
Theorem X24_evaluation_leaves_parameters_untouched (s : HAN B) :
  (forall modes r s',
     _full_test_step modes s = Ok (r, s') -> left_in_eval_mode s s') /\
  (forall modes r s',
     _mini_test_step modes s = Ok (r, s') -> left_in_eval_mode s s') /\
  (forall r s',
     _full_prediction_step s = Ok (r, s') -> left_in_eval_mode s s') /\
  (forall r s',
     _mini_prediction_step s = Ok (r, s') -> left_in_eval_mode s s').
Proof.
  split; [| split; [| split]].
  - intros modes r s' E. by apply full_test_step_iff in E as [-> _].
  - intros modes r s' E.
    destruct (mini_test_step_inv _ _ _ _ E) as (ps & Hp & Hok).
    destruct (mini_test_step_spec modes s ps Hp Hok) as [r' E'].
    rewrite E' in E. injection E as _ <-. apply set_training_left.
  - intros r s' E. unfold _full_prediction_step, bind, modify, call_model_full,
      bind, get, emit, modify in E. cbn in E. by injection E as _ <-.
  - intros r s' E.
    destruct (mini_prediction_step_inv _ _ _ E) as (ld & Hld & Hne).
    rewrite (mini_prediction_step_spec s ld Hld Hne) in E.
    injection E as _ <-. apply set_training_left.
Qed.

End Behaviour.

(** ** The exceptions of a run *)

Section Failures.
Context `{B : Backend}.

Lemma throws_bind {A C : Type} I (m : M A) (k : A -> M C) K Qa P :
  triple I m K Qa ->
  throws I m P ->
  (forall a, Qa a -> throws I (k a) P) ->
  throws I (bind m k) P.
Proof.
  intros Hm Ht Hk s e Hs E. unfold bind in E.
  destruct (m s) as [[a s']|e'] eqn:Em.
  - destruct (Hm s a s' Hs Em) as (Hs' & Ha & _). by eapply Hk.
  - injection E as <-. by eapply Ht.
Qed.

Lemma throws_total {A : Type} I (m : M A) P :
  (forall s, is_ok (m s) = true) -> throws I m P.
Proof. intros H s e _ E. specialize (H s). by rewrite E in H. Qed.

Lemma throws_ret {A : Type} I (a : A) P : throws I (ret a) P.
Proof. by apply throws_total. Qed.

Lemma throws_raise {A : Type} I (e : Exn) P : P e -> throws I (@raise B A e) P.
Proof. by intros He s e' _ [= <-]. Qed.

Lemma throws_get I P : throws I get P.
Proof. by apply throws_total. Qed.

Lemma throws_modify I f P : throws I (modify f) P.
Proof. by apply throws_total. Qed.

Lemma throws_emit I ev P : throws I (emit ev) P.
Proof. by apply throws_total. Qed.

Lemma throws_getattr {A : Type} I (f : HAN B -> option A) name P :
  (forall s, I s -> is_Some (f s)) -> throws I (getattr f name) P.
Proof.
  intros Hf s e Hs. unfold getattr. by destruct (Hf s Hs) as [a ->].
Qed.

Lemma throws_local {A : Type} I (v : option A) name P :
  (v = None -> P (NameError name)) -> throws I (local v name) P.
Proof.
  destruct v; [intros; apply throws_ret | intros H; by apply throws_raise, H].
Qed.

Lemma throws_index {A : Type} I (x : list A) idx P :
  P IndexError -> throws I (index x idx) P.
Proof.
  intros HP. unfold index. destruct (gather x idx);
    [apply throws_ret | by apply throws_raise].
Qed.

Lemma throws_cat {A : Type} I (parts : list (list A)) P :
  (forall msg, P (RuntimeError msg)) -> throws I (cat parts) P.
Proof.
  intros HP. destruct parts; [apply throws_raise, HP | apply throws_ret].
Qed.

Lemma throws_iterate I ld P : throws I (iterate ld) P.
Proof.
  apply throws_total. intros s. unfold iterate, bind, get.
  by destruct (ld (rng s)).
Qed.

Lemma throws_for_enum {A L : Type} I K (body : L -> nat -> A -> M L) xs P :
  (forall acc i x, triple I (body acc i x) K (fun _ => True)) ->
  (forall acc i x, throws I (body acc i x) P) ->
  forall acc i last, throws I (for_enum body acc i last xs) P.
Proof.
  intros Hb Ht. induction xs as [|x xs IH]; intros acc i last; cbn.
  - apply throws_ret.
  - eapply throws_bind; [apply Hb | apply Ht |]. intros acc' _. apply IH.
Qed.

Lemma throws_call_model_full I P : throws I call_model_full P.
Proof. by apply throws_total. Qed.

Lemma throws_call_model_batch I b P : throws I (call_model_batch b) P.
Proof. apply throws_total. intros s. reflexivity. Qed.

Lemma throws_apply_gradient I g l P : throws I (apply_gradient g l) P.
Proof.
  apply throws_total. intros s. unfold apply_gradient, bind, get.
  by destruct (optimizer_step _ _ _).
Qed.

(** a postcondition read off the returned value *)
Lemma triple_post {A : Type} I (m : M A) K (Q1 Q2 : A -> Prop) :
  triple I m K Q1 ->
  (forall s a s', I s -> m s = Ok (a, s') -> Q2 a) ->
  triple I m K Q2.
Proof.
  intros Hm HQ s a s' Hs E. destruct (Hm s a s' Hs E) as (Hs' & _ & Hev).
  split; [done |]. split; [exact (HQ s a s' Hs E) | done].
Qed.

(** the evaluation steps keep the configuration whatever the parameters *)
Lemma cfg_of_eval {A : Type} c (m : M A) K Q :
  (forall p, triple (I_eval c p) m K Q) -> triple (I_cfg c) m K Q.
Proof.
  intros Hm s a s' Hs E.
  destruct (Hm (model s) s a s' (conj Hs eq_refl) E) as ([Hs' _] & HQ & Hev).
  by split.
Qed.


Lemma run_failure_index : run_failure IndexError.
Proof. by left. Qed.
Lemma run_failure_zero : run_failure ZeroDivisionError.
Proof. by right; left. Qed.
Lemma run_failure_i : run_failure (NameError "i").
Proof. by right; right; left. Qed.
Lemma run_failure_epoch : run_failure (NameError "epoch").
Proof. by right; right; right; left. Qed.
Lemma run_failure_cat msg : run_failure (RuntimeError msg).
Proof. right; right; right; right. by exists msg. Qed.

Lemma loaders_present_config (a b : HAN B) :
  config a = config b -> loaders_present b -> loaders_present a.
Proof.
  intros C H.
  destruct (config_fields _ _ C)
    as (Ha & _ & _ & _ & _ & _ & H1 & H2 & H3 & H4 & _).
  unfold loaders_present. by rewrite Ha, H1, H2, H3, H4.
Qed.

Lemma test_batch_loss a i b (s : HAN B) a' s' :
  test_batch a i b s = Ok (a', s') -> is_Some (b_loss a').
Proof.
  unfold test_batch, call_model_batch, bind, get, emit, modify, index.
  cbn. destruct (gather (labels s) (seeds b)) as [l|]; [| done].
  cbn. intros [= <- <-]. by eexists.
Qed.

(** after the loop over the batches, [loss] is bound as soon as a label
    tensor was collected *)
Lemma test_batches_loss bs : forall a i lst (s : HAN B) r s',
  for_enum test_batch a i lst bs s = Ok (r, s') ->
  (y_trues a <> [] -> is_Some (b_loss a)) ->
  y_trues r.1 <> [] -> is_Some (b_loss r.1).
Proof.
  induction bs as [|b bs IH]; intros a i lst s r s' E Ha.
  - by injection E as <- <-.
  - cbn in E. apply bind_inv in E as (a1 & s1 & E1 & E).
    apply test_batch_loss in E1. eapply IH; [exact E | done].
Qed.

Lemma mode_allowed_in (s : HAN B) mode :
  mode_allowed s mode -> mode ∈ ["train"; "valid"; "test"].
Proof.
  rewrite !elem_of_cons. intros [->|[->|[-> _]]]; auto.
Qed.

Lemma mode_allowed_config (a b : HAN B) mode :
  config a = config b -> mode_allowed b mode -> mode_allowed a mode.
Proof.
  intros C. apply config_fields in C as (Ha & _).
  unfold mode_allowed. by rewrite Ha.
Qed.

Lemma mask_of_config (a b : HAN B) mode :
  config a = config b -> mask_of a mode = mask_of b mode.
Proof.
  intros C. apply config_fields in C as (_ & _ & H1 & H2 & H3 & _).
  unfold mask_of. by rewrite H1, H2, H3.
Qed.

Lemma epoch_body_cfg c st epoch :
  triple (I_cfg c) (epoch_body st epoch) any_event (fun _ => True).
Proof.
  intros s [st' brk] s' Hs E.
  destruct (epoch_body_trace _ _ _ _ _ _ E) as (C & seg & L & _).
  split; [unfold I_cfg in *; congruence |]. split; [done |].
  exists seg. split; [done |]. by apply Forall_forall.
Qed.

Lemma epoch_loop_cfg c st lst epochs :
  triple (I_cfg c) (epoch_loop st lst epochs) any_event (fun _ => True).
Proof.
  intros s [st' lst'] s' Hs E.
  destruct (epoch_loop_trace _ _ _ _ _ _ _ E) as (C & segs & b & L & _).
  split; [unfold I_cfg in *; congruence |]. split; [done |].
  exists (concat segs). split; [done |]. by apply Forall_forall.
Qed.

Lemma epoch_loop_bound epochs : forall st lst (s : HAN B) st' lst' s',
  epoch_loop st lst epochs s = Ok ((st', lst'), s') ->
  epochs <> [] -> is_Some lst'.
Proof.
  induction epochs as [|epoch rest IH]; intros st lst s st' lst' s' E Hne;
    [done |].
  cbn in E. apply bind_inv in E as ([st1 brk] & s1 & E1 & E).
  destruct brk; [injection E as <- <- <-; by eexists |].
  destruct rest as [|e2 rest]; [injection E as <- <- <-; by eexists |].
  by eapply IH.
Qed.

Ltac cfg_step :=
  first
    [ apply triple_raise
    | apply triple_ret; exact Logic.I
    | apply triple_get
    | apply triple_getattr
    | apply triple_local
    | apply triple_index
    | apply triple_cat
    | apply triple_iterate; by intros ? ? ?
    | apply triple_emit; [by intros ? ? ? | exact Logic.I]
    | apply triple_modify; [by intros ? ? | done]
    | apply call_model_full_train
    | apply call_model_batch_train
    | apply apply_gradient_train
    | apply cfg_of_eval; intros;
      first [ by apply test_batch_log
            | by apply predict_batch_log
            | by apply test_mode_log
            | by apply task_evaluate_log
            | by apply test_step_log
            | by apply mini_prediction_step_log
            | by apply full_prediction_step_log
            | by apply select_loader_log ] ].

Ltac no_throw :=
  first
    [ apply throws_ret
    | apply throws_get
    | apply throws_modify
    | apply throws_emit
    | apply throws_iterate
    | apply throws_call_model_full
    | apply throws_call_model_batch
    | apply throws_apply_gradient
    | apply throws_index; assumption
    | apply throws_cat; assumption ].

Ltac throws_seq :=
  first
    [ eapply (throws_bind _ _ _ any_event); [cfg_step | | intros ? ?; cbv beta]
    | eapply (throws_bind _ _ _ train_ev); [cfg_step | | intros ? ?; cbv beta] ].

Section Steps.
Variable s0 : HAN B.
Hypothesis H0 : loaders_present s0.
Variable P : Exn -> Prop.
Hypothesis P_index : P IndexError.
Hypothesis P_zero : P ZeroDivisionError.
Hypothesis P_i : P (NameError "i").
Hypothesis P_cat : forall msg, P (RuntimeError msg).


Lemma full_train_step_throws : throws (I_cfg (config s0)) _full_train_step P.
Proof.
  unfold _full_train_step.
  throws_seq; [no_throw |].
  throws_seq; [no_throw |].
  throws_seq; [no_throw |].
  throws_seq; [no_throw |].
  throws_seq; [no_throw |].
  throws_seq; [no_throw | no_throw].
Qed.

Lemma train_batch_throws acc i b : throws (I_cfg (config s0)) (train_batch acc i b) P.
Proof.
  unfold train_batch.
  throws_seq; [no_throw |].
  throws_seq; [no_throw |].
  throws_seq; [no_throw |].
  throws_seq; [no_throw | no_throw].
Qed.

Lemma state_loaders (s : HAN B) : I_cfg (config s0) s -> loaders_present s.
Proof. intros C. by apply (loaders_present_config s s0). Qed.

Lemma mini_train_step_throws :
  mini_batch_flag (args s0) = true -> throws (I_cfg (config s0)) _mini_train_step P.
Proof.
  intros Hm. unfold _mini_train_step.
  throws_seq; [no_throw |].
  throws_seq.
  { apply throws_getattr. intros s Hs.
    destruct (state_loaders s Hs) as (Htl & _); [| done].
    apply config_fields in Hs as (-> & _). exact Hm. }
  throws_seq; [no_throw |].
  eapply (throws_bind _ _ _ train_ev).
  { apply triple_for_enum. intros. apply train_batch_log. }
  { eapply throws_for_enum; intros;
      [apply train_batch_log | apply train_batch_throws]. }
  intros [acc lst] _.
  throws_seq; [| no_throw].
  apply throws_local. intros _. apply P_i.
Qed.


Lemma test_batch_throws a i b :
  throws (I_cfg (config s0)) (test_batch a i b) P.
Proof.
  unfold test_batch.
  throws_seq; [no_throw |].
  throws_seq; [no_throw |].
  throws_seq; [no_throw |].
  throws_seq; [no_throw | no_throw].
Qed.

Lemma select_loader_throws l mode :
  mini_batch_flag (args s0) = true ->
  mode_allowed s0 mode ->
  throws (I_cfg (config s0)) (select_loader l mode) P.
Proof.
  intros Hm Hmode.
  assert (Hld : forall s, I_cfg (config s0) s ->
                  is_Some (train_loader s) /\ is_Some (val_loader s) /\
                  (test_flag (args s0) = true -> is_Some (test_loader s))).
  { intros s Hs. destruct (state_loaders s Hs) as (H1 & H2 & H3 & _).
    - apply config_fields in Hs as (-> & _). exact Hm.
    - split; [done |]. split; [done |].
      apply config_fields in Hs as (<- & _). exact H3. }
  unfold select_loader.
  destruct (String.eqb mode "train") eqn:E1.
  { throws_seq; [| no_throw]. apply throws_getattr. intros s Hs.
    by destruct (Hld s Hs) as (? & _). }
  destruct (String.eqb mode "valid") eqn:E2.
  { throws_seq; [| no_throw]. apply throws_getattr. intros s Hs.
    by destruct (Hld s Hs) as (_ & ? & _). }
  destruct (String.eqb mode "test") eqn:E3; [| no_throw].
  throws_seq; [| no_throw]. apply throws_getattr. intros s Hs.
  destruct (Hld s Hs) as (_ & _ & Ht). apply Ht.
  apply String.eqb_neq in E1, E2. by destruct Hmode as [?|[?|[_ ?]]].
Qed.

Lemma test_mode_throws l mode :
  mini_batch_flag (args s0) = true ->
  mode_allowed s0 mode ->
  throws (I_cfg (config s0)) (test_mode l mode) P.
Proof.
  intros Hm Hmode. unfold test_mode.
  eapply (throws_bind _ _ _ any_event (fun cur => is_Some cur)).
  { eapply triple_post; [cfg_step |]. intros s a s' _ E.
    apply select_loader_inv in E as (_ & _ & H).
    by apply H, (mode_allowed_in s0). }
  { by apply select_loader_throws. }
  intros cur [ld ->]. cbn [local].
  throws_seq; [no_throw |].
  throws_seq; [no_throw |].
  eapply (throws_bind _ _ _ any_event
            (fun r => y_trues r.1 <> [] -> is_Some (b_loss r.1))).
  { eapply triple_post; [apply triple_for_enum; intros; cfg_step |].
    intros s r s' _ E. eapply test_batches_loss; [exact E | done]. }
  { eapply (throws_for_enum _ any_event); intros; [cfg_step | apply test_batch_throws]. }
  intros [bl lst] HJ. cbn [fst] in HJ.
  throws_seq; [apply throws_local; intros _; apply P_i |].
  eapply (throws_bind _ _ _ any_event (fun _ => y_trues bl <> [])).
  { eapply triple_post; [cfg_step |]. intros s x s' _ E.
    by destruct (y_trues bl). }
  { no_throw. }
  intros yt Hne.
  throws_seq; [no_throw |].
  throws_seq; [no_throw |].
  throws_seq; [| no_throw].
  apply throws_local. intros Hnone. destruct (HJ Hne) as [? ?]. congruence.
Qed.

Lemma for_modes_throws modes : forall l,
  mini_batch_flag (args s0) = true ->
  Forall (mode_allowed s0) modes ->
  throws (I_cfg (config s0)) (for_modes l modes) P.
Proof.
  induction modes as [|mode modes IH]; intros l Hm Hmodes; cbn.
  - no_throw.
  - inversion Hmodes; subst.
    throws_seq; [by apply test_mode_throws | by apply IH].
Qed.

Lemma mini_test_step_throws modes :
  mini_batch_flag (args s0) = true ->
  Forall (mode_allowed s0) modes ->
  throws (I_cfg (config s0)) (_mini_test_step modes) P.
Proof.
  intros Hm Hmodes. unfold _mini_test_step.
  throws_seq; [no_throw |].
  eapply (throws_bind _ _ _ any_event (fun _ => True)).
  { apply cfg_of_eval. intros. by apply for_modes_log. }
  { by apply for_modes_throws. }
  intros; no_throw.
Qed.

Lemma task_evaluate_throws logits mode :
  is_Some (mask_of s0 mode) ->
  throws (I_cfg (config s0)) (task_evaluate logits mode) P.
Proof.
  intros Hk. unfold task_evaluate.
  eapply (throws_bind _ _ _ any_event); [apply triple_get | no_throw |].
  intros s Hs. cbv beta. rewrite (mask_of_config s s0 mode Hs).
  destruct Hk as [mask ->].
  throws_seq; [no_throw |].
  throws_seq; [no_throw | no_throw].
Qed.

Lemma dict_comp_throws {V W : Type} (f : string -> V -> M W) items :
  (forall k v, triple (I_cfg (config s0)) (f k v) any_event (fun _ => True)) ->
  (forall k v, (k, v) ∈ items ->
               throws (I_cfg (config s0)) (f k v) P) ->
  forall acc, throws (I_cfg (config s0)) (dict_comp f items acc) P.
Proof.
  intros Hf. induction items as [|[k v] items IH]; intros Ht acc; cbn.
  - no_throw.
  - eapply (throws_bind _ _ _ any_event); [apply Hf | |].
    + apply Ht, list_elem_of_here.
    + intros w _. apply IH. intros k' v' Hin. apply Ht. by right.
Qed.

Lemma full_test_step_throws modes :
  throws (I_cfg (config s0)) (_full_test_step modes) P.
Proof.
  unfold _full_test_step.
  throws_seq; [no_throw |].
  throws_seq; [no_throw |].
  eapply (throws_bind _ _ _ any_event); [apply triple_get | no_throw |].
  intros s Hs. cbv beta.
  destruct (build_masks_spec s modes) as [_ Hel].
  eapply (throws_bind _ _ _ any_event (fun _ => True)).
  { apply cfg_of_eval. intros. apply dict_comp_log. intros.
    by apply task_evaluate_log. }
  { apply dict_comp_throws.
    - intros. cfg_step.
    - intros k v Hin. apply Hel in Hin as [_ Hk].
      apply task_evaluate_throws. rewrite <- (mask_of_config s s0 k Hs).
      by eexists. }
  intros md _.
  eapply (throws_bind _ _ _ any_event (fun _ => True)); [| | intros; no_throw].
  { apply cfg_of_eval. intros. apply dict_comp_log. intros.
    eapply triple_bind; [apply triple_index |]. intros ? _.
    eapply triple_bind; [apply triple_index |]. intros ? _.
    by apply triple_ret. }
  apply dict_comp_throws.
  - intros.
    eapply triple_bind; [apply triple_index |]. intros ? _.
    eapply triple_bind; [apply triple_index |]. intros ? _.
    by apply triple_ret.
  - intros k v _.
    throws_seq; [no_throw |].
    throws_seq; [no_throw | no_throw].
Qed.

Lemma use_mini_flag (s : HAN B) :
  use_mini s = true -> mini_batch_flag (args s) = true.
Proof. unfold use_mini. by intros [? _]%andb_true_iff. Qed.

Lemma test_step_throws modes :
  Forall (mode_allowed s0) modes ->
  throws (I_cfg (config s0)) (test_step modes) P.
Proof.
  intros Hmodes. unfold test_step.
  eapply (throws_bind _ _ _ any_event); [apply triple_get | no_throw |].
  intros s Hs. cbv beta. destruct (use_mini s) eqn:Hu.
  - apply mini_test_step_throws; [| done].
    apply use_mini_flag in Hu. by apply config_fields in Hs as (<- & _).
  - apply full_test_step_throws.
Qed.

Lemma mini_prediction_step_throws :
  mini_batch_flag (args s0) = true ->
  prediction_flag (args s0) = true ->
  throws (I_cfg (config s0)) _mini_prediction_step P.
Proof.
  intros Hm Hp. unfold _mini_prediction_step.
  throws_seq; [no_throw |].
  throws_seq.
  { apply throws_getattr. intros s Hs.
    destruct (state_loaders s Hs) as (_ & _ & _ & H4).
    - apply config_fields in Hs as (-> & _). exact Hm.
    - apply H4. apply config_fields in Hs as (-> & _). exact Hp. }
  throws_seq; [no_throw |].
  eapply (throws_bind _ _ _ any_event (fun _ => True)).
  { apply triple_for_enum. intros. cfg_step. }
  { eapply (throws_for_enum _ any_event); intros; [cfg_step |].
    unfold predict_batch. throws_seq; [no_throw | no_throw]. }
  intros [ps lst] _.
  throws_seq; [no_throw |].
  throws_seq; [no_throw | no_throw].
Qed.


Lemma full_prediction_step_throws :
  throws (I_cfg (config s0)) _full_prediction_step P.
Proof.
  unfold _full_prediction_step. throws_seq; [no_throw | no_throw].
Qed.

Lemma finish_throws lst :
  (lst = None -> P (NameError "epoch")) ->
  throws (I_cfg (config s0)) (finish lst) P.
Proof.
  intros Hlst. unfold finish.
  eapply (throws_bind _ _ _ any_event); [apply triple_get | no_throw |].
  intros s Hs. cbv beta.
  assert (Ha : args s = args s0) by (by apply config_fields in Hs as (-> & _)).
  rewrite Ha.
  destruct (prediction_flag (args s0)) eqn:Hp.
  { throws_seq; [no_throw |].
    destruct (use_mini s) eqn:Hu.
    - throws_seq.
      + apply mini_prediction_step_throws; [| done].
        apply use_mini_flag in Hu. by rewrite <- Ha.
      + match goal with r : (list node * list Row)%type |- _ => destruct r end.
        no_throw.
    - throws_seq; [apply full_prediction_step_throws | no_throw]. }
  destruct (test_flag (args s0)) eqn:Ht; [| no_throw].
  assert (Hv : mode_allowed s0 "valid") by (by right; left).
  assert (Hte : mode_allowed s0 "test") by (by right; right).
  destruct (String.eqb _ "HGBn").
  - throws_seq; [apply test_step_throws; by repeat constructor |].
    match goal with r : (_ * gmap string Q)%type |- _ => destruct r end.
    throws_seq; [no_throw |].
    throws_seq; [no_throw |].
    throws_seq; [no_throw |].
    throws_seq; [no_throw |].
    throws_seq; [| no_throw].
    by apply throws_local.
  - throws_seq; [apply test_step_throws; by repeat constructor |].
    match goal with r : (_ * gmap string Q)%type |- _ => destruct r end.
    throws_seq; [no_throw |].
    throws_seq; [| no_throw].
    by apply throws_local.
Qed.

Lemma epoch_body_throws st epoch :
  throws (I_cfg (config s0)) (epoch_body st epoch) P.
Proof.
  unfold epoch_body.
  throws_seq; [no_throw |].
  eapply (throws_bind _ _ _ any_event); [apply triple_get | no_throw |].
  intros s Hs. cbv beta.
  assert (Ha : args s = args s0) by (by apply config_fields in Hs as (-> & _)).
  eapply (throws_bind _ _ _ train_ev (fun _ => True)).
  { apply train_step_log. }
  { destruct (mini_batch_flag (args s)) eqn:Hm.
    - apply mini_train_step_throws. by rewrite <- Ha.
    - apply full_train_step_throws. }
  intros train_loss _.
  eapply (throws_bind _ _ _ any_event); [apply triple_get | no_throw |].
  intros s2 Hs2. cbv beta.
  destruct (evaluate_interval s2 =? 0)%Z;
    [apply throws_raise, P_zero |].
  destruct (epoch `mod` evaluate_interval s2 =? 0)%Z; [| no_throw].
  destruct (epoch_modes_ok s2) as (Hall & _ & Hvalid).
  eapply (throws_bind _ _ _ any_event (fun r => is_Some (r.2 !! "valid"))).
  { eapply triple_post; [cfg_step |]. intros s3 [md ld] s3' _ E.
    apply (test_step_dom _ _ _ _ _ E); [| exact Hvalid].
    eapply Forall_impl; [exact Hall |]. intros m. apply mode_allowed_in. }
  { apply test_step_throws. eapply Forall_impl; [exact Hall |].
    intros m. by apply mode_allowed_config. }
  intros [md ld] [v Hv]. cbn [snd] in Hv. rewrite Hv.
  throws_seq; [no_throw |].
  throws_seq; [no_throw |].
  eapply (throws_bind _ _ _ any_event); [apply triple_get | no_throw |].
  intros s4 Hs4. cbv beta.
  destruct (loss_step st _ (model s4)) as [st' stop].
  throws_seq; [no_throw |].
  destruct stop; [throws_seq; [no_throw | no_throw] | no_throw].
Qed.

Lemma epoch_loop_throws epochs : forall st lst,
  throws (I_cfg (config s0)) (epoch_loop st lst epochs) P.
Proof.
  induction epochs as [|epoch rest IH]; intros st lst; cbn.
  - no_throw.
  - eapply (throws_bind _ _ _ any_event);
      [apply epoch_body_cfg | apply epoch_body_throws |].
    intros [st' brk] _. destruct brk; [no_throw | apply IH].
Qed.

Lemma train_throws :
  ((max_epoch s0 <= 0)%Z -> P (NameError "epoch")) ->
  throws (I_cfg (config s0)) train P.
Proof.
  intros Hep. unfold train.
  throws_seq; [no_throw |].
  eapply (throws_bind _ _ _ any_event); [apply triple_get | no_throw |].
  intros s Hs. cbv beta.
  eapply (throws_bind _ _ _ any_event
            (fun r => epoch_range (max_epoch s) <> [] -> is_Some r.2)).
  { eapply triple_post; [apply epoch_loop_cfg |].
    intros s1 [st lst] s1' _ E. cbn [snd]. by eapply epoch_loop_bound. }
  { apply epoch_loop_throws. }
  intros [st lst] Hl. cbn [snd] in Hl.
  eapply (throws_bind _ _ _ any_event); [apply triple_get | no_throw |].
  intros s2 Hs2. cbv beta.
  throws_seq; [no_throw |].
  throws_seq; [no_throw |].
  apply finish_throws. intros ->. apply Hep.
  assert (Hm : max_epoch s = max_epoch s0).
  { cbn in Hs. by apply config_fields in Hs
      as (_ & _ & _ & _ & _ & _ & _ & _ & _ & _ & -> & _). }
  rewrite Hm in Hl.
  destruct (Z_lt_le_dec 0 (max_epoch s0)) as [Hpos|Hle]; [| done].
  destruct (epoch_range_pos _ Hpos) as [rest Hr].
  destruct Hl as [? [=]]. by rewrite Hr.
Qed.

End Steps.

Lemma init_loaders_present (a : Args) (t : Task) (s : HAN B) :
  init a t = Ok s -> loaders_present s.
Proof.
  intros E. destruct (init_Ok a t s E) as (make & pred & _ & Hpred & ->).
  unfold loaders_present. cbn.
  assert (Hf : forall a', a' = (if out_dim_mismatch a t
                                then set_out_dim a (ds_num_classes t) else a) ->
             mini_batch_flag a' = mini_batch_flag a /\
             test_flag a' = test_flag a /\
             prediction_flag a' = prediction_flag a).
  { intros a' ->. by destruct (out_dim_mismatch a t). }
  destruct (Hf _ eq_refl) as (-> & -> & ->). intros ->. cbn.
  split; [by eexists |]. split; [by eexists |]. split.
  - by intros ->; eexists.
  - intros Hp. rewrite Hp in *. destruct Hpred as [_ [p ->]]. by eexists.
Qed.

(** X25: with collaborators that do not raise, [train] on a constructed
    flow can fail only with [IndexError] (an index outside a tensor),
    [ZeroDivisionError] ([evaluate_interval = 0]), [NameError] on [i] (an
    empty first traversal), [RuntimeError] ([torch.cat] of an empty list)
    and [NameError] on [epoch]; the last one only when [max_epoch <= 0].
    In particular no loader attribute is ever missing and [losses['valid']]
    is always present. *)
Theorem X25_failures_of_a_constructed_flow (a : Args) (t : Task) (s : HAN B) e :
  init a t = Ok s ->
  train s = Raise e ->
  run_failure e /\ ((0 < max_epoch s)%Z -> e <> NameError "epoch").
Proof.
  intros Hi E.
  apply (train_throws s (init_loaders_present a t s Hi)
           (fun e => run_failure e /\
                     ((0 < max_epoch s)%Z -> e <> NameError "epoch")))
    with (s := s); [| | | | | done | exact E].
  - split; [apply run_failure_index | done].
  - split; [apply run_failure_zero | done].
  - split; [apply run_failure_i | done].
  - intros msg. split; [apply run_failure_cat | done].
  - intros Hle. split; [apply run_failure_epoch | lia].
Qed.


(** ** Full-batch runs and the random source *)

Lemma blind_ret {A : Type} I (a : A) : rng_blind I (ret a).
Proof. by intros s r _. Qed.

Lemma blind_raise {A : Type} I (e : Exn) : rng_blind I (@raise B A e).
Proof. by intros s r _. Qed.

Lemma blind_bind {A C : Type} I (m : M A) (k : A -> M C) K Qa :
  triple I m K Qa ->
  rng_blind I m ->
  (forall a, Qa a -> rng_blind I (k a)) ->
  rng_blind I (bind m k).
Proof.
  intros Hm Hb Hk s r Hs. unfold bind. rewrite (Hb s r Hs).
  destruct (m s) as [[a s']|e] eqn:Em; [| done]. cbn.
  destruct (Hm s a s' Hs Em) as (Hs' & Ha & _). by apply Hk.
Qed.

(** a continuation of [get] that reads no random source *)
Lemma blind_get_bind {C : Type} I (k : HAN B -> M C) :
  (forall s r, k (set_rng r s) = k s) ->
  (forall s, I s -> rng_blind I (k s)) ->
  rng_blind I (bind get k).
Proof.
  intros Hext Hk s r Hs. unfold bind, get. rewrite Hext. by apply Hk.
Qed.

Lemma blind_modify I (f : HAN B -> HAN B) :
  (forall s r, f (set_rng r s) = set_rng r (f s)) -> rng_blind I (modify f).
Proof. intros Hf s r _. unfold modify. cbn. by rewrite Hf. Qed.

Lemma blind_emit I (ev : Event B) : rng_blind I (emit ev).
Proof. by apply blind_modify. Qed.

Lemma blind_index {A : Type} I (x : list A) idx : rng_blind I (index x idx).
Proof.
  unfold index. destruct (gather x idx); [apply blind_ret | apply blind_raise].
Qed.

Lemma blind_local {A : Type} I (v : option A) name :
  rng_blind I (local v name).
Proof. destruct v; [apply blind_ret | apply blind_raise]. Qed.

Ltac blind_step :=
  first
    [ apply blind_ret
    | apply blind_raise
    | apply blind_emit
    | apply blind_index
    | apply blind_local
    | apply blind_modify; reflexivity ].

Ltac blind_seq :=
  first
    [ eapply (blind_bind _ _ _ any_event (fun _ => True));
      [cfg_step | | intros ? ?; cbv beta]
    | eapply (blind_bind _ _ _ train_ev (fun _ => True));
      [cfg_step | | intros ? ?; cbv beta] ].

Ltac blind_get :=
  apply blind_get_bind; [reflexivity | intros ? ?; cbv beta].

Section Blind.
Variable s0 : HAN B.
Hypothesis H0 : mini_batch_flag (args s0) = false.

Lemma blind_call_model_full : rng_blind (I_cfg (config s0)) call_model_full.
Proof.
  unfold call_model_full. blind_get. blind_seq; [blind_step | blind_step].
Qed.

Lemma blind_apply_gradient g l :
  rng_blind (I_cfg (config s0)) (apply_gradient g l).
Proof.
  unfold apply_gradient. blind_get.
  destruct (optimizer_step _ _ _) as [p o].
  blind_seq; [blind_step | blind_step].
Qed.

Lemma blind_full_train_step : rng_blind (I_cfg (config s0)) _full_train_step.
Proof.
  unfold _full_train_step.
  blind_seq; [blind_step |].
  blind_seq; [apply blind_call_model_full |].
  blind_get.
  blind_seq; [blind_step |].
  blind_seq; [blind_step |].
  blind_seq; [apply blind_apply_gradient | blind_step].
Qed.

Lemma blind_task_evaluate logits mode :
  rng_blind (I_cfg (config s0)) (task_evaluate logits mode).
Proof.
  unfold task_evaluate. blind_get.
  destruct (mask_of _ mode); [| blind_step].
  blind_seq; [blind_step |].
  blind_seq; [blind_step | blind_step].
Qed.

Lemma blind_dict_comp {V W : Type} (f : string -> V -> M W) items :
  (forall k v, triple (I_cfg (config s0)) (f k v) any_event (fun _ => True)) ->
  (forall k v, rng_blind (I_cfg (config s0)) (f k v)) ->
  forall acc, rng_blind (I_cfg (config s0)) (dict_comp f items acc).
Proof.
  intros Hf Hb. induction items as [|[k v] items IH]; intros acc; cbn.
  - blind_step.
  - eapply (blind_bind _ _ _ any_event); [apply Hf | apply Hb |].
    intros w _. apply IH.
Qed.

Lemma blind_full_test_step modes :
  rng_blind (I_cfg (config s0)) (_full_test_step modes).
Proof.
  unfold _full_test_step.
  blind_seq; [blind_step |].
  blind_seq; [apply blind_call_model_full |].
  blind_get.
  eapply (blind_bind _ _ _ any_event (fun _ => True)).
  { apply cfg_of_eval. intros. apply dict_comp_log. intros.
    by apply task_evaluate_log. }
  { apply blind_dict_comp; intros; [cfg_step | apply blind_task_evaluate]. }
  intros md _.
  eapply (blind_bind _ _ _ any_event (fun _ => True)); [| | intros; blind_step].
  { apply cfg_of_eval. intros. apply dict_comp_log. intros.
    eapply triple_bind; [apply triple_index |]. intros ? _.
    eapply triple_bind; [apply triple_index |]. intros ? _.
    by apply triple_ret. }
  apply blind_dict_comp.
  - intros.
    eapply triple_bind; [apply triple_index |]. intros ? _.
    eapply triple_bind; [apply triple_index |]. intros ? _.
    by apply triple_ret.
  - intros k v.
    blind_seq; [blind_step |].
    blind_seq; [blind_step | blind_step].
Qed.

Lemma full_batch_state (s : HAN B) :
  I_cfg (config s0) s ->
  mini_batch_flag (args s) = false /\ use_mini s = false.
Proof.
  intros Hs. apply config_fields in Hs as (Ha & _).
  unfold use_mini. by rewrite Ha, H0.
Qed.

Lemma blind_test_step modes :
  rng_blind (I_cfg (config s0)) (test_step modes).
Proof.
  unfold test_step. blind_get.
  match goal with s : HAN B, H : I_cfg _ _ |- _ =>
    destruct (full_batch_state s H) as [_ ->] end.
  apply blind_full_test_step.
Qed.

Lemma blind_finish lst : rng_blind (I_cfg (config s0)) (finish lst).
Proof.
  unfold finish. blind_get.
  match goal with s : HAN B, H : I_cfg _ _ |- _ =>
    destruct (full_batch_state s H) as [_ ->] end.
  destruct (prediction_flag _).
  { blind_seq; [blind_step |].
    blind_seq; [| blind_step].
    unfold _full_prediction_step.
    blind_seq; [blind_step | apply blind_call_model_full]. }
  destruct (test_flag _); [| blind_step].
  destruct (String.eqb _ "HGBn").
  - blind_seq; [apply blind_test_step |].
    match goal with r : (_ * gmap string Q)%type |- _ => destruct r end.
    blind_seq; [blind_step |].
    blind_seq; [blind_step |].
    blind_seq; [apply blind_call_model_full |].
    blind_seq; [blind_step |].
    blind_seq; [blind_step | blind_step].
  - blind_seq; [apply blind_test_step |].
    match goal with r : (_ * gmap string Q)%type |- _ => destruct r end.
    blind_seq; [blind_step |].
    blind_seq; [blind_step | blind_step].
Qed.

Lemma blind_epoch_body st epoch :
  rng_blind (I_cfg (config s0)) (epoch_body st epoch).
Proof.
  unfold epoch_body.
  blind_seq; [blind_step |].
  blind_get.
  match goal with s : HAN B, H : I_cfg _ _ |- _ =>
    destruct (full_batch_state s H) as [-> _] end.
  eapply (blind_bind _ _ _ train_ev (fun _ => True));
    [apply full_train_step_log | apply blind_full_train_step |].
  intros train_loss _.
  blind_get.
  destruct (evaluate_interval _ =? 0)%Z; [blind_step |].
  destruct (epoch `mod` evaluate_interval _ =? 0)%Z; [| blind_step].
  blind_seq; [apply blind_test_step |].
  match goal with r : (_ * gmap string Q)%type |- _ => destruct r end.
  match goal with |- context [?g !! "valid"] => destruct (g !! "valid") end;
    (blind_seq; [blind_step |]).
  - blind_seq; [blind_step |].
    blind_get.
    destruct (loss_step st _ _) as [st' stop].
    blind_seq; [blind_step |].
    destruct stop; [blind_seq; [blind_step | blind_step] | blind_step].
  - blind_seq; [blind_step |].
    blind_get.
    destruct (loss_step st _ _) as [st' stop].
    blind_seq; [blind_step |].
    destruct stop; [blind_seq; [blind_step | blind_step] | blind_step].
Qed.

Lemma blind_epoch_loop epochs : forall st lst,
  rng_blind (I_cfg (config s0)) (epoch_loop st lst epochs).
Proof.
  induction epochs as [|epoch rest IH]; intros st lst; cbn.
  - blind_step.
  - eapply (blind_bind _ _ _ any_event);
      [apply epoch_body_cfg | apply blind_epoch_body |].
    intros [st' brk] _. destruct brk; [blind_step | apply IH].
Qed.

Lemma blind_train : rng_blind (I_cfg (config s0)) train.
Proof.
  unfold train.
  blind_seq; [blind_step |].
  blind_get.
  eapply (blind_bind _ _ _ any_event);
    [apply epoch_loop_cfg | apply blind_epoch_loop |].
  intros [st lst] _.
  blind_get.
  blind_seq; [blind_step |].
  blind_seq; [blind_step | apply blind_finish].
Qed.

End Blind.

Lemma set_rng_same (s : HAN B) : set_rng (rng s) s = s.
Proof. by destruct s. Qed.

(** X26: a run with [mini_batch_flag] off neither reads nor advances the
    random source of the loaders: started with another random source it has
    the same outcome, the same final state but for the random source, and a
    run that returns leaves the random source as it found it. *)
Theorem X26_full_batch_run_ignores_the_random_source (s : HAN B) :
  mini_batch_flag (args s) = false ->
  (forall r, train (set_rng r s) = with_rng r (train s)) /\
  (forall a s', train s = Ok (a, s') -> rng s' = rng s).
Proof.
  intros Hm. pose proof (blind_train s Hm) as Hb. split.
  - intros r. by apply Hb.
  - intros a s' E. specialize (Hb s (rng s) eq_refl).
    rewrite set_rng_same, E in Hb. cbn in Hb. by injection Hb as ->.
Qed.

(** ** Construction, then training *)

(** X27: construction followed by [train] returns, on data that fit: a
    non-zero evaluation interval and at least one epoch, one label and one
    full-graph output row per node, splits inside the node range and, in
    mini-batch mode, loaders whose traversals are non-empty with seeds
    inside the label vector. *)
Theorem X27_constructed_flow_trains (a : Args) (t : Task) (s : HAN B) :
  init a t = Ok s ->
  arg_evaluate_interval a <> 0%Z ->
  length (task_labels t) = ds_num_nodes t ->
  (forall p tr, length (forward_full p tr) = ds_num_nodes t) ->
  Forall (Forall (fun n => n < ds_num_nodes t))
         [(task_split t).1.1; (task_split t).1.2; (task_split t).2] ->
  (mini_batch_flag a = true ->
   forall idx,
     idx ∈ [(task_split t).1.1; (task_split t).1.2; (task_split t).2] ->
     loader_ok (task_labels t) (Some (data_loader idx (batch_size a)))) ->
  (mini_batch_flag a = true ->
   forall idx r,
     ds_pred_idx t = Some idx -> (data_loader idx (batch_size a) r).1 <> []) ->
  (0 < arg_max_epoch a)%Z ->
  exists r s', train s = Ok (r, s').
Proof.
  intros Hi Hk Hlen Hfw Hsplit Hld Hpl Hep.
  apply train_ok.
  pose proof (init_loaders_present a t s Hi) as Hpres.
  destruct (init_Ok a t s Hi) as (make & pred & _ & Hpred & ->). clear Hi.
  assert (Hf : forall a', a' = (if out_dim_mismatch a t
                                then set_out_dim a (ds_num_classes t) else a) ->
             mini_batch_flag a' = mini_batch_flag a /\
             test_flag a' = test_flag a /\
             prediction_flag a' = prediction_flag a).
  { intros a' ->. by destruct (out_dim_mismatch a t). }
  destruct (Hf _ eq_refl) as (Hf1 & Hf2 & Hf3).
  apply Forall_cons in Hsplit as [H1 Hsplit].
  apply Forall_cons in Hsplit as [H2 Hsplit].
  apply Forall_cons in Hsplit as [H3 _].
  assert (Hlk : forall (b : bool) idx,
             idx ∈ [(task_split t).1.1; (task_split t).1.2; (task_split t).2] ->
             loader_ok (task_labels t)
               (if mini_batch_flag a && b
                then Some (data_loader idx (batch_size a)) else None)).
  { intros b idx Hin. destruct (mini_batch_flag a) eqn:Hm; [| by intros ? ? [=]].
    destruct b; [| by intros ? ? [=]]. by apply Hld. }
  unfold loaders_present in Hpres. cbn in Hpres. rewrite Hf2, Hf3 in Hpres.
  unfold well_formed. cbn. rewrite Hf2, Hf3.
  split; [done |]. split; [exact Hpres |].
  split.
  { specialize (Hlk true (task_split t).1.1). rewrite andb_true_r in Hlk.
    apply Hlk. rewrite !elem_of_cons. auto. }
  split.
  { specialize (Hlk true (task_split t).1.2). rewrite andb_true_r in Hlk.
    apply Hlk. rewrite !elem_of_cons. auto. }
  split; [apply Hlk; rewrite !elem_of_cons; auto |].
  split.
  { intros ld r. destruct (mini_batch_flag a) eqn:Hm; [| done].
    destruct (prediction_flag a); [| done]. cbn.
    destruct Hpred as [Hp [p ->]]. cbn. intros [= <-]. by apply (Hpl eq_refl p). }
  split; [done |]. split; [done |]. by repeat split.
Qed.

End Failures.

(** ** What the stopper is given *)

Section Consultations.
Context `{B : Backend}.
Variable c : Args * (Z * nat * list node * list node * list node *
                     option (list node) * list Label * option Loader *
                     option Loader * option Loader * option Loader * Z * Z).
Variable R : Q -> Params -> Prop.

(** every evaluation of an epoch hands the stopper a validation loss and
    parameters related by [R] *)
Hypothesis R_test_step : forall (s2 : HAN B) md ld s3 v,
  config s2 = c ->
  test_step (epoch_modes s2) s2 = Ok ((md, ld), s3) ->
  ld !! "valid" = Some v ->
  R v (model s2).

Lemma epoch_body_consults st epoch (s : HAN B) st' brk s' :
  config s = c ->
  epoch_body st epoch s = Ok ((st', brk), s') ->
  exists seg,
    log s' = log s ++ seg /\
    forall v p b, (v, p, b) ∈ consultations seg -> R v p.
Proof.
  unfold epoch_body. intros Hc E.
  apply bind_inv in E as (u & s1 & E1 & E). injection E1 as _ <-.
  apply bind_inv in E as (u1 & s1' & E1 & E). injection E1 as <- <-.
  apply bind_inv in E as (tl & s2 & E2 & E).
  destruct (train_step_log (config s) _ (set_log (log s ++ [EvEpoch epoch]) s)
              tl s2 eq_refl E2)
    as (C2 & _ & tr & L2 & F2).
  apply bind_inv in E as (u2 & s2' & E1 & E). injection E1 as <- <-.
  destruct (evaluate_interval s2 =? 0)%Z; [done |].
  destruct (epoch `mod` evaluate_interval s2 =? 0)%Z.
  - apply bind_inv in E as ([md ld] & s3 & E3 & E).
    destruct (test_step_log (config s) (model s2) (eval_ev (model s2))
                (fun _ => eq_refl) (fun _ => Logic.I) (fun _ _ _ => Logic.I)
                _ s2 _ s3 (conj C2 eq_refl) E3)
      as ([C3 M3] & _ & te & L3 & F3).
    apply bind_inv in E as (v & s3' & E1 & E).
    destruct (ld !! "valid") as [v'|] eqn:Hv; [| done].
    injection E1 as <- <-.
    assert (HR : R v' (model s2)).
    { eapply R_test_step; [| exact E3 | exact Hv].
      unfold I_cfg in C2. congruence. }
    apply bind_inv in E as (u3 & s4 & E1 & E). injection E1 as _ <-.
    apply bind_inv in E as (u4 & s4' & E1 & E). injection E1 as <- <-.
    cbn [model set_log] in E.
    destruct (loss_step st v' (model s3)) as [st1 stop] eqn:Els.
    apply bind_inv in E as (u5 & s5 & E1 & E). injection E1 as _ <-.
    assert (Hcons : forall post,
               consultations post = [] ->
               forall v p b,
                 (v, p, b) ∈ consultations
                   (EvEpoch epoch :: tr ++ te
                    ++ [EvTrainInfo epoch tl v'; EvLossStep v' (model s3) stop]
                    ++ post) ->
                 R v p).
    { intros post Hpost v p b.
      change (EvEpoch epoch :: tr ++ ?l) with ([EvEpoch epoch] ++ tr ++ l).
      rewrite !consultations_app, (train_ev_consultations _ F2),
        (eval_ev_consultations _ _ F3), Hpost. cbn.
      rewrite list_elem_of_singleton. intros [= -> -> ->]. by rewrite M3. }
    destruct stop.
    + apply bind_inv in E as (u6 & s6 & E1 & E). injection E1 as _ <-.
      injection E as <- <- <-.
      eexists. split; [| apply (Hcons [EvEarlyStop epoch]); done].
      cbn [log set_log]. rewrite L3, L2. cbn [log set_log].
      by rewrite <- !app_assoc.
    + injection E as <- <- <-.
      eexists. split; [| apply (Hcons []); done].
      cbn [log set_log]. rewrite L3, L2. cbn [log set_log].
      by rewrite <- !app_assoc.
  - injection E as <- <- <-. exists (EvEpoch epoch :: tr). split.
    + rewrite L2. cbn. by rewrite <- app_assoc.
    + intros v p b.
      change (EvEpoch epoch :: tr) with ([EvEpoch epoch] ++ tr).
      rewrite consultations_app, (train_ev_consultations _ F2). cbn.
      intros H. by apply elem_of_nil in H.
Qed.

Lemma epoch_loop_consults epochs : forall st lst (s : HAN B) st' lst' s',
  config s = c ->
  epoch_loop st lst epochs s = Ok ((st', lst'), s') ->
  exists evs,
    log s' = log s ++ evs /\
    forall v p b, (v, p, b) ∈ consultations evs -> R v p.
Proof.
  induction epochs as [|epoch rest IH]; intros st lst s st' lst' s' Hc E.
  - injection E as <- <- <-. exists []. rewrite app_nil_r. split; [done |].
    intros v p b H. by apply elem_of_nil in H.
  - cbn in E. apply bind_inv in E as ([st1 brk] & s1 & E1 & E).
    destruct (epoch_body_trace _ _ _ _ _ _ E1) as (C1 & _).
    destruct (epoch_body_consults _ _ _ _ _ _ Hc E1) as (seg & L1 & H1).
    destruct brk.
    + injection E as <- <- <-. by exists seg.
    + destruct (IH _ _ _ _ _ _ (eq_trans C1 Hc) E) as (evs & L & H).
      exists (seg ++ evs). split; [by rewrite L, L1, app_assoc |].
      intros v p b. rewrite consultations_app, elem_of_app.
      intros [Hin|Hin]; eauto.
Qed.

Lemma train_consults (s : HAN B) r s' :
  config s = c ->
  train s = Ok (r, s') ->
  exists evs,
    log s' = log s ++ evs /\
    forall v p b, (v, p, b) ∈ consultations evs -> R v p.
Proof.
  unfold train. intros Hc E.
  apply bind_inv in E as (u & s1 & E1 & E). injection E1 as _ <-.
  apply bind_inv in E as (u1 & s1' & E1 & E). injection E1 as <- <-.
  cbn [args max_epoch set_model] in E.
  apply bind_inv in E as ([st lst] & s2 & E2 & E).
  destruct (epoch_loop_consults _ _ _
              (set_model (base_preprocess (model s)) s) _ _ _ Hc E2)
    as (evs & L2 & H2).
  apply bind_inv in E as (u2 & s2' & E1 & E). injection E1 as <- <-.
  apply bind_inv in E as (u3 & s3 & E1 & E). injection E1 as _ <-.
  apply bind_inv in E as (u4 & s4 & E1 & E). injection E1 as _ <-.
  destruct (finish_trace _ _ _ _ E) as (fin & L4 & F4 & _).
  exists (evs ++ [EvLoadModel (load_model st (model s2))] ++ fin). split.
  { rewrite L4. cbn [log set_log set_model]. rewrite L2. cbn [log set_model].
    by rewrite <- !app_assoc. }
  intros v p b.
  rewrite !consultations_app, (finish_ev_consultations _ _ _ F4). cbn.
  rewrite app_nil_r. apply H2.
Qed.

End Consultations.

Section StopperInput.
Context `{B : Backend}.

Lemma passes_elem (s : HAN B) modes : forall cur r ps mode bs,
  passes s cur r modes = Some ps ->
  (mode, bs) ∈ ps ->
  exists cur' ld r0, loader_for s cur' mode = Some ld /\ bs = (ld r0).1.
Proof.
  induction modes as [|m modes IH]; intros cur r ps mode bs Hp Hin;
    cbn in Hp.
  - injection Hp as <-. by apply elem_of_nil in Hin.
  - destruct (loader_for s cur m) as [ld|] eqn:Hld; [| done].
    destruct (passes s (Some ld) (ld r).2 modes) as [ps'|] eqn:Hps; [| done].
    injection Hp as <-. apply elem_of_cons in Hin as [[= -> ->]|Hin].
    + by exists cur, ld, r.
    + by eapply IH.
Qed.

(** X28: what the stopper is given.  In a full-batch run every
    consultation hands the stopper the current parameters and the loss, on
    the validation split, of their eval-mode full-graph output.  In a
    mini-batch run it hands it the loss of the last batch of one traversal
    of the validation loader. *)
Theorem X28_what_the_stopper_is_given (s : HAN B) r s' :
  train s = Ok (r, s') ->
  exists evs,
    log s' = log s ++ evs /\
    forall v p b,
      (v, p, b) ∈ consultations evs ->
      if use_mini s then
        exists ld r0,
          val_loader s = Some ld /\
          v = pass_last_loss p (labels s) (ld r0).1
      else
        loss_of s (forward_full p false) (valid_idx s) = Some v.
Proof.
  intros E.
  apply (train_consults (config s)
           (fun v p =>
              if use_mini s then
                exists ld r0,
                  val_loader s = Some ld /\
                  v = pass_last_loss p (labels s) (ld r0).1
              else
                loss_of s (forward_full p false) (valid_idx s) = Some v)
           ) with (r := r); [| done | exact E].
  clear E r s'. intros s2 md ld s3 v C E Hv.
  destruct (config_use_mini _ _ C) as [Hu _].
  destruct (config_fields _ _ C)
    as (_ & _ & _ & Hvi & _ & Hl & _ & Hvl & _).
  destruct (epoch_modes_ok s2) as (_ & Hnd & Hvalid).
  unfold test_step, bind, get in E. rewrite <- Hu.
  destruct (use_mini s2).
  - destruct (mini_test_step_inv _ _ _ _ E) as (ps & Hp & Hok).
    destruct (mini_test_step_spec _ s2 ps Hp Hok) as [r' E'].
    rewrite E' in E. injection E as _ <- _.
    pose proof (passes_modes _ _ _ _ _ Hp) as Hm.
    destruct (in_modes_in_passes ps "valid") as [bs Hin];
      [by rewrite Hm |].
    rewrite (fill_losses_lookup _ _ _ _ _ _ ltac:(by rewrite Hm) Hin) in Hv.
    injection Hv as <-.
    destruct (passes_elem _ _ _ _ _ _ _ Hp Hin) as (cur' & ld0 & r0 & Hld & ->).
    exists ld0, r0. rewrite <- Hvl, <- Hl. split; [exact Hld | done].
  - destruct (full_test_step_lookup _ _ _ _ _ E "valid") as (_ & Hlk & _).
    rewrite Hlk in Hv. rewrite bool_decide_eq_true_2 in Hv by done.
    cbn in Hv. rewrite <- Hvi. unfold loss_of in *. by rewrite <- Hl.
Qed.

End StopperInput.

(** ** Training mode and optimizer updates *)

Section TrainingMode.
Context `{B : Backend}.

Lemma paired_step (e : Event B) rest :
  quiet e -> paired (e :: rest) = paired rest.
Proof. by destruct e as [| | |? []| | | | | | | | | |]. Qed.

Lemma paired_app (l1 l2 : list (Event B)) :
  paired l1 = true -> paired l2 = true -> paired (l1 ++ l2) = true.
Proof.
  intros H1 H2. remember (length l1) as n eqn:Hn.
  revert l1 Hn H1. induction n as [n IH] using lt_wf_ind. intros l1 Hn H1.
  destruct l1 as [|e l1]; [done |].
  destruct e as [| | |p tr| | | | | | | | | |];
    try (cbn in *; apply (IH (length l1)); [subst; cbn; lia | done | done]);
    try done.
  destruct tr; [| cbn in *; apply (IH (length l1)); [subst; cbn; lia | done | done]].
  destruct l1 as [|e2 l1]; [done |].
  destruct e2; try done.
  cbn in *. apply (IH (length l1)); [subst; cbn; lia | done | done].
Qed.

Lemma paired_quiet (evs : list (Event B)) :
  Forall quiet evs -> paired evs = true.
Proof.
  induction 1 as [|e evs He _ IH]; [done |]. by rewrite paired_step.
Qed.

Lemma paired_pairs (steps : list (Params * Q)) :
  paired (flat_map (fun q => [EvForward q.1 true; EvUpdate q.2]) steps) = true.
Proof. by induction steps. Qed.

(** what [paired] says, position by position *)
Lemma paired_lookup (evs : list (Event B)) :
  paired evs = true ->
  (forall i p, evs !! i = Some (EvForward p true) ->
               exists l, evs !! S i = Some (EvUpdate l)) /\
  (forall i l, evs !! i = Some (EvUpdate l) ->
               exists j p, i = S j /\ evs !! j = Some (EvForward p true)).
Proof.
  remember (length evs) as n eqn:Hn.
  revert evs Hn. induction n as [n IH] using lt_wf_ind. intros evs Hn H.
  destruct evs as [|e evs]; [by split; intros [|?] |].
  assert (Hq : quiet e -> paired evs = true ->
               (forall i p, (e :: evs) !! i = Some (EvForward p true) ->
                            exists l, (e :: evs) !! S i = Some (EvUpdate l)) /\
               (forall i l, (e :: evs) !! i = Some (EvUpdate l) ->
                            exists j p, i = S j /\
                              (e :: evs) !! j = Some (EvForward p true))).
  { intros He Hp.
    destruct (IH (length evs) ltac:(subst; cbn; lia) evs eq_refl Hp)
      as [IH1 IH2].
    split.
    - intros [|i] p Hi; cbn in Hi.
      + injection Hi as ->. done.
      + by apply IH1 in Hi.
    - intros [|i] l Hi; cbn in Hi.
      + injection Hi as ->. done.
      + destruct (IH2 i l Hi) as (j & p & -> & Hj). by exists (S j), p. }
  destruct e as [| | |p tr| | | | | | | | | |];
    try (apply Hq; [done | by rewrite paired_step in H]); try done.
  destruct tr; [| apply Hq; [done | by rewrite paired_step in H]].
  destruct evs as [|e2 evs]; [done |].
  destruct e2 as [| | | |l2| | | | | | | | |]; try done.
  cbn in H.
  destruct (IH (length evs) ltac:(subst; cbn; lia) evs eq_refl H)
    as [IH1 IH2].
  split.
  - intros [|[|i]] p' Hi; cbn in Hi.
    + by exists l2.
    + done.
    + by apply IH1 in Hi.
  - intros [|[|i]] l Hi; cbn in Hi.
    + done.
    + by exists 0, p.
    + destruct (IH2 i l Hi) as (j & p' & -> & Hj). by exists (S (S j)), p'.
Qed.

Lemma kp_ret {A : Type} (a : A) : keeps_paired (ret a).
Proof. intros s a' s' [= <- <-]. exists []. by rewrite app_nil_r. Qed.

Lemma kp_raise {A : Type} (e : Exn) : keeps_paired (@raise B A e).
Proof. intros s a s' [=]. Qed.

Lemma kp_bind {A C : Type} (m : M A) (k : A -> M C) :
  keeps_paired m -> (forall a, keeps_paired (k a)) -> keeps_paired (bind m k).
Proof.
  intros Hm Hk s c s'' E. apply bind_inv in E as (a & s' & E1 & E2).
  destruct (Hm s a s' E1) as (e1 & L1 & P1).
  destruct (Hk a s' c s'' E2) as (e2 & L2 & P2).
  exists (e1 ++ e2). split; [by rewrite L2, L1, app_assoc |].
  by apply paired_app.
Qed.

Lemma kp_get : keeps_paired (@get B).
Proof. intros s a s' [= <- <-]. exists []. by rewrite app_nil_r. Qed.

Lemma kp_modify (f : HAN B -> HAN B) :
  (forall s, log (f s) = log s) -> keeps_paired (modify f).
Proof.
  intros Hf s a s' [= <- <-]. exists []. by rewrite app_nil_r, Hf.
Qed.

Lemma kp_emit (e : Event B) : quiet e -> keeps_paired (emit e).
Proof.
  intros He s a s' [= <- <-]. exists [e]. split; [done |].
  by rewrite paired_step.
Qed.

Lemma kp_local {A : Type} (v : option A) name : keeps_paired (local v name).
Proof. destruct v; [apply kp_ret | apply kp_raise]. Qed.

(** an eval-mode full-graph pass: [model.eval()], then the call *)
Lemma kp_eval_forward {C : Type} (k : list Row -> M C) :
  (forall lg, keeps_paired (k lg)) ->
  keeps_paired (bind (modify (set_training false))
                     (fun _ => bind call_model_full k)).
Proof.
  intros Hk s c s' E.
  unfold bind at 1, modify in E. unfold bind at 1, call_model_full in E.
  unfold bind at 1, get in E. unfold bind at 1, emit, modify in E. cbn in E.
  destruct (Hk _ _ _ _ E) as (evs & L & P). cbn in L.
  exists (EvForward (model s) false :: evs).
  split; [by rewrite L, <- app_assoc | done].
Qed.

Lemma kp_full_train_step : keeps_paired _full_train_step.
Proof.
  intros s v s' E. unfold _full_train_step in E.
  apply bind_inv in E as (u & s1 & E1 & E). injection E1 as _ <-.
  apply bind_inv in E as (lg & s2 & E1 & E).
  unfold call_model_full, bind, get, emit, modify in E1. cbn in E1.
  injection E1 as <- <-.
  apply bind_inv in E as (s3 & s3' & E1 & E). injection E1 as <- <-.
  apply bind_inv in E as (x & s4 & E1 & E). unfold index in E1.
  destruct (gather _ _); [| done]. injection E1 as <- <-.
  apply bind_inv in E as (y & s5 & E1 & E). unfold index in E1.
  destruct (gather _ _); [| done]. injection E1 as <- <-.
  apply bind_inv in E as (u2 & s6 & E1 & E).
  unfold apply_gradient, bind, get, emit, modify in E1. cbn in E1.
  destruct (optimizer_step _ _ _) as [p o]. cbn in E1. injection E1 as _ <-.
  injection E as _ <-. eexists [EvForward (model s) true; EvUpdate _].
  cbn. split; [by rewrite <- app_assoc | done].
Qed.

Lemma kp_mini_train_step : keeps_paired _mini_train_step.
Proof.
  intros s v s' E.
  destruct (mini_train_step_inv s v s' E) as (ld & Hld & Hne & Hr).
  destruct (ld (rng s)) as [bs r] eqn:Eld. cbn [fst snd] in *.
  destruct (train_batches_run bs 0%Q 0 None (set_rng r (set_training true s))
              eq_refl Hr) as (s1 & E1 & _ & _ & _ & _ & HL).
  unfold _mini_train_step, bind, modify, getattr, iterate, get in E.
  cbn in E. rewrite Hld in E. cbn in E. rewrite Eld in E. cbn in E.
  unfold bind in E1. rewrite E1 in E. destruct bs as [|b bs]; [done |].
  cbn in E. injection E as _ <-. eexists. split; [exact HL |].
  apply paired_pairs.
Qed.

Lemma quiet_passes_events p lbls (ps : list (string * list (Batch Block))) :
  Forall (@quiet B) (passes_events p lbls ps).
Proof.
  unfold passes_events. induction ps as [|[m bs] ps IH]; [constructor |].
  cbn [flat_map]. apply Forall_app. split; [| exact IH].
  unfold pass_events. apply Forall_app. split; [| by repeat constructor].
  induction (pass_losses p lbls (m, bs).2) as [|l ls IHl]; [constructor |].
  cbn [flat_map app]. constructor; [done |]. constructor; [done | exact IHl].
Qed.

Lemma kp_test_step modes : keeps_paired (test_step modes).
Proof.
  unfold test_step. apply kp_bind; [apply kp_get |]. intros s0.
  destruct (use_mini s0); intros s r s' E.
  - destruct (mini_test_step_inv _ _ _ _ E) as (ps & Hp & Hok).
    destruct (mini_test_step_spec modes s ps Hp Hok) as [r' E'].
    rewrite E' in E. injection E as _ <-.
    eexists. split; [reflexivity |]. apply paired_quiet, quiet_passes_events.
  - apply full_test_step_iff in E as [-> _].
    by exists [EvForward (model s) false].
Qed.

Lemma kp_mini_prediction_step : keeps_paired _mini_prediction_step.
Proof.
  intros s r s' E.
  destruct (mini_prediction_step_inv s r s' E) as (ld & Hld & Hne).
  rewrite (mini_prediction_step_spec s ld Hld Hne) in E.
  injection E as _ <-. eexists. split; [reflexivity |].
  apply paired_quiet, Forall_fmap, Forall_true. done.
Qed.

Lemma kp_finish lst : keeps_paired (finish lst).
Proof.
  unfold finish. apply kp_bind; [apply kp_get |]. intros s.
  destruct (prediction_flag (args s)).
  { apply kp_bind; [by apply kp_emit |]. intros _.
    destruct (use_mini s).
    - apply kp_bind; [apply kp_mini_prediction_step |].
      intros [ids y]. apply kp_ret.
    - unfold _full_prediction_step.
      apply kp_bind; [| intros; apply kp_ret].
      intros s1 y s' E.
      assert (E' : bind (modify (set_training false))
                     (fun _ => bind call_model_full ret) s1 = Ok (y, s')).
      { revert E. unfold bind, modify, call_model_full, get, emit, modify, ret.
        by cbn. }
      apply (kp_eval_forward ret (fun lg => kp_ret lg) _ _ _ E'). }
  destruct (test_flag (args s)); [| apply kp_ret].
  destruct (String.eqb _ _).
  - apply kp_bind; [apply kp_test_step |]. intros [md ld].
    apply kp_bind; [by apply kp_emit |]. intros _.
    apply kp_eval_forward. intros lg.
    apply kp_bind; [by apply kp_emit |]. intros _.
    apply kp_bind; [apply kp_local | intros; apply kp_ret].
  - apply kp_bind; [apply kp_test_step |]. intros [md ld].
    apply kp_bind; [by apply kp_emit |]. intros _.
    apply kp_bind; [apply kp_local | intros; apply kp_ret].
Qed.

Lemma kp_epoch_body st epoch : keeps_paired (epoch_body st epoch).
Proof.
  unfold epoch_body.
  apply kp_bind; [by apply kp_emit |]. intros _.
  apply kp_bind; [apply kp_get |]. intros s0.
  apply kp_bind.
  { destruct (mini_batch_flag _);
      [apply kp_mini_train_step | apply kp_full_train_step]. }
  intros tl. apply kp_bind; [apply kp_get |]. intros s1.
  destruct (_ =? 0)%Z; [apply kp_raise |].
  destruct (_ =? 0)%Z; [| apply kp_ret].
  apply kp_bind; [apply kp_test_step |]. intros [md ld].
  apply kp_bind; [destruct (ld !! "valid"); [apply kp_ret | apply kp_raise] |].
  intros v. apply kp_bind; [by apply kp_emit |]. intros _.
  apply kp_bind; [apply kp_get |]. intros s2.
  destruct (loss_step st v (model s2)) as [st' stop].
  apply kp_bind; [by apply kp_emit |]. intros _.
  destruct stop; [| apply kp_ret].
  apply kp_bind; [by apply kp_emit | intros; apply kp_ret].
Qed.

Lemma kp_epoch_loop epochs : forall st lst,
  keeps_paired (epoch_loop st lst epochs).
Proof.
  induction epochs as [|e epochs IH]; intros st lst; cbn; [apply kp_ret |].
  apply kp_bind; [apply kp_epoch_body |]. intros [st' brk].
  destruct brk; [apply kp_ret | apply IH].
Qed.

Lemma kp_train : keeps_paired train.
Proof.
  unfold train.
  apply kp_bind; [by apply kp_modify |]. intros _.
  apply kp_bind; [apply kp_get |]. intros s0.
  apply kp_bind; [apply kp_epoch_loop |]. intros [st lst].
  apply kp_bind; [apply kp_get |]. intros s1.
  apply kp_bind; [by apply kp_modify |]. intros _.
  apply kp_bind; [by apply kp_emit |]. intros _.
  apply kp_finish.
Qed.

(** X29: in a run that returns, training-mode forward passes and optimizer
    updates come in pairs: every forward pass made in training mode is
    immediately followed by an update, and every update immediately follows
    such a pass.  Evaluation, prediction and the final test therefore never
    run the model in training mode and never update the parameters. *)
Theorem X29_updates_follow_training_passes (s : HAN B) r s' :
  train s = Ok (r, s') ->
  exists evs,
    log s' = log s ++ evs /\
    (forall i p, evs !! i = Some (EvForward p true) ->
                 exists l, evs !! S i = Some (EvUpdate l)) /\
    (forall i l, evs !! i = Some (EvUpdate l) ->
                 exists j p, i = S j /\ evs !! j = Some (EvForward p true)).
Proof.
  intros E. destruct (kp_train s r s' E) as (evs & L & P).
  exists evs. split; [exact L |]. by apply paired_lookup.
Qed.

End TrainingMode.

(** ** The statements above on the small backend *)

Lemma X1_constructed_flow_out_dim_is_num_classes_witness :
  let a := mkArgs 7 true true true 2 2 "SGD" (1 # 4) 0 "acm4HAN" 3 1 in
  let s := Toy.flow a in
  init a Toy.toy_task = Ok s /\
  num_classes s = 2%Z /\
  args s = set_out_dim a 2 /\
  model s = build_model_from_args (args s) /\
  last (log s) = Some (EvBuildModel (args s)) /\
  exists make,
    candidate_optimizer (optimizer_name a) = Some make /\
    optimizer s = make (model s) (lr a) (weight_decay a).
Proof.
  intros a s. split; [reflexivity |].
  apply (X1_constructed_flow_out_dim_is_num_classes a Toy.toy_task s).
  reflexivity.
Defined.

Lemma X2_out_dim_message_iff_witness :
  let a := Toy.toy_args true true false 3 1 in
  let t := Toy.task_without_out_dim in
  let s := Toy.flow_on t a in
  init a t = Ok s /\
  (EvInfo "[NC Specific] Modify the out_dim with num_classes" ∈ log s <->
   ds_out_dim t = None \/ out_dim a <> ds_num_classes t) /\
  (is_Some (ds_out_dim t) -> out_dim a = ds_num_classes t ->
   args s = a /\ log s = [EvBuildModel a]).
Proof.
  intros a t s. split; [reflexivity |].
  apply (X2_out_dim_message_iff a t s). reflexivity.
Defined.

Lemma X4_constructed_flow_loaders_witness :
  let a := Toy.toy_args true false true 3 1 in
  let s := Toy.flow a in
  init a Toy.toy_task = Ok s /\
  use_mini s = mini_batch_flag (args s) /\
  mini_batch_flag (args s) = mini_batch_flag a /\
  (is_Some (train_loader s) <-> mini_batch_flag a = true) /\
  (is_Some (val_loader s) <-> mini_batch_flag a = true) /\
  (is_Some (test_loader s) <->
   mini_batch_flag a = true /\ test_flag a = true) /\
  (is_Some (pred_loader s) <->
   mini_batch_flag a = true /\ prediction_flag a = true) /\
  (is_Some (pred_idx s) <-> prediction_flag a = true).
Proof.
  intros a s. split; [reflexivity |].
  apply (X4_constructed_flow_loaders a Toy.toy_task s). reflexivity.
Defined.

Lemma X5_mini_train_step_empty_traversal_witness :
  let s := Toy.flow_on (Toy.task_with_split ([], [3; 4], [5]))
                       (Toy.toy_args true true false 3 1) in
  train_loader s = Some (Toy.loader [] 2) /\
  _mini_train_step s = Raise (NameError "i").
Proof.
  intros s. split; [reflexivity |].
  apply (X5_mini_train_step_empty_traversal s (Toy.loader [] 2));
    reflexivity.
Defined.

Lemma X6_mini_test_step_unknown_first_mode_witness :
  _mini_test_step ["dev"; "valid"] (Toy.flow (Toy.toy_args true true false 3 1))
  = Raise (NameError "loader_tqdm").
Proof.
  apply (X6_mini_test_step_unknown_first_mode
           (Toy.flow (Toy.toy_args true true false 3 1)) "dev" ["valid"]);
    discriminate.
Defined.

Lemma X7_mini_test_step_unknown_mode_reuses_loader_witness :
  let s := Toy.flow (Toy.toy_args true true false 3 1) in
  let ld := Toy.loader [3; 4] 2 in
  val_loader s = Some ld /\
  exists md ldict s',
    _mini_test_step ["valid"; "dev"] s = Ok ((md, ldict), s') /\
    md !! "dev" = Some (pass_score (model s) (labels s) (ld 1).1) /\
    ldict !! "dev" = Some (pass_last_loss (model s) (labels s) (ld 1).1).
Proof.
  intros s ld. split; [reflexivity |].
  apply (X7_mini_test_step_unknown_mode_reuses_loader s "valid" "dev" ld);
    try discriminate; try reflexivity;
    unfold in_range; vm_compute; repeat constructor.
Defined.

Lemma X8_mini_test_step_first_traversal_empty_witness :
  let s := Toy.flow_on (Toy.task_with_split ([], [3; 4], [5]))
                       (Toy.toy_args true true false 3 1) in
  train_loader s = Some (Toy.loader [] 2) /\
  _mini_test_step ["train"; "valid"] s = Raise (NameError "i").
Proof.
  intros s. split; [reflexivity |].
  apply (X8_mini_test_step_first_traversal_empty
           s "train" ["valid"] (Toy.loader [] 2)); reflexivity.
Defined.

Lemma X9_mini_test_step_later_traversal_empty_witness :
  let s := Toy.flow_on (Toy.task_with_split ([0; 1; 2], [], [5]))
                       (Toy.toy_args true true false 3 1) in
  val_loader s = Some (Toy.loader [] 2) /\
  exists msg, _mini_test_step ["train"; "valid"] s = Raise (RuntimeError msg).
Proof.
  intros s. split; [reflexivity |].
  apply (X9_mini_test_step_later_traversal_empty
           s "train" "valid" [] (Toy.loader [0; 1; 2] 2) (Toy.loader [] 2)).
  - reflexivity.
  - discriminate.
  - unfold in_range. vm_compute. repeat constructor.
  - reflexivity.
  - reflexivity.
Defined.

Lemma X10_mini_prediction_step_empty_traversal_witness :
  let s := Toy.flow_on (Toy.task_with_pred (Some []))
                       (Toy.toy_args true false true 3 1) in
  pred_loader s = Some (Toy.loader [] 2) /\
  exists msg, _mini_prediction_step s = Raise (RuntimeError msg).
Proof.
  intros s. split; [reflexivity |].
  apply (X10_mini_prediction_step_empty_traversal s (Toy.loader [] 2));
    reflexivity.
Defined.

Lemma X11_full_train_step_spec_witness :
  let s := Toy.flow (Toy.toy_args false true false 3 1) in
  exists lg lb s',
    gather (forward_full (model s) true) (train_idx s) = Some lg /\
    gather (labels s) (train_idx s) = Some lb /\
    _full_train_step s = Ok (@loss_fn Toy.backend lg lb, s') /\
    (model s', optimizer s')
    = optimizer_step (optimizer s) (model s)
                     (backward_full (model s) (train_idx s) lb) /\
    training s' = true /\
    rng s' = rng s /\
    config s' = config s /\
    log s' = log s ++ [EvForward (model s) true; EvUpdate (@loss_fn Toy.backend lg lb)].
Proof.
  intros s. apply (X11_full_train_step_spec s).
  - vm_compute. repeat constructor.
  - vm_compute. repeat constructor.
Defined.

Lemma X13_train_zero_interval_witness :
  let s := Toy.flow (Toy.toy_args false true false 3 0) in
  let s0 := set_log (log s ++ [EvEpoch 0])
                    (set_model (base_preprocess (model s)) s) in
  let train_step := if mini_batch_flag (args s) then _mini_train_step
                    else _full_train_step in
  exists e,
    train s = Raise e /\
    (e = ZeroDivisionError \/ train_step s0 = Raise e).
Proof.
  intros s. apply (X13_train_zero_interval s); reflexivity.
Defined.

Lemma X14_train_without_epoch_cannot_report_witness :
  let s := Toy.flow (Toy.toy_args false true false 0 1) in
  (exists e,
     finish None s = Raise e /\
     (e = NameError "epoch" \/ test_step ["valid"; "test"] s = Raise e)) /\
  forall r s', train s <> Ok (r, s').
Proof.
  intros s.
  destruct (X14_train_without_epoch_cannot_report s eq_refl eq_refl)
    as [H1 H2].
  split; [exact H1 | apply H2; discriminate].
Defined.

Lemma X15_train_without_flags_returns_none_witness :
  let s := Toy.flow (Toy.toy_args true false false 3 1) in
  exists r s',
    train s = Ok (r, s') /\
    r = NoResult /\
    exists loop_evs,
      log s' = log s ++ loop_evs ++ [EvLoadModel (model s')] /\
      Forall loop_ev loop_evs.
Proof.
  intros s. set (o := train s).
  evaluate o (NoResult : TrainResult Toy.backend, s) E.
  eexists _, _. split; [exact E |].
  exact (X15_train_without_flags_returns_none s _ _ eq_refl eq_refl E).
Defined.

Lemma X16_full_test_step_result_witness :
  let s := Toy.flow (Toy.toy_args false true false 3 1) in
  let modes := ["valid"; "dev"; "valid"] in
  let logits := forward_full (model s) false in
  exists md ld s',
    _full_test_step modes s = Ok ((md, ld), s') /\
    s' = after_full_test s /\
    forall k,
      md !! k = (if bool_decide (k ∈ modes) then score_of s logits k else None) /\
      ld !! k = (if bool_decide (k ∈ modes)
                 then mask_of s k ≫= loss_of s logits else None) /\
      (is_Some (md !! k) <-> k ∈ modes /\ k ∈ ["train"; "valid"; "test"]) /\
      (is_Some (ld !! k) <-> k ∈ modes /\ k ∈ ["train"; "valid"; "test"]).
Proof.
  intros s modes logits. set (o := _full_test_step modes s).
  evaluate o ((∅ : gmap string Toy.Score_t, ∅ : gmap string Q), s) E.
  set (v := value_of o _) in E.
  assert (E' : o = Ok ((v.1.1, v.1.2), v.2))
    by (rewrite E; clear E; by destruct v as [[md ld] s']).
  exists v.1.1, v.1.2, v.2. split; [exact E' |].
  exact (X16_full_test_step_result s modes _ _ _ E').
Defined.

Lemma X22_mini_test_step_keys_witness :
  let s := Toy.flow (Toy.toy_args true true false 3 1) in
  let modes := ["train"; "valid"] in
  exists md ld s',
    _mini_test_step modes s = Ok ((md, ld), s') /\
    (forall k, (is_Some (md !! k) <-> k ∈ modes) /\
               (is_Some (ld !! k) <-> k ∈ modes)) /\
    exists evs,
      log s' = log s ++ evs /\
      (fun c => c.1.1) <$> evaluator_calls evs = modes.
Proof.
  intros s modes. set (o := _mini_test_step modes s).
  evaluate o ((∅ : gmap string Toy.Score_t, ∅ : gmap string Q), s) E.
  set (v := value_of o _) in E.
  assert (E' : o = Ok ((v.1.1, v.1.2), v.2))
    by (rewrite E; clear E; by destruct v as [[md ld] s']).
  exists v.1.1, v.1.2, v.2. split; [exact E' |].
  exact (X22_mini_test_step_keys s modes _ _ _ E').
Defined.

Lemma X17_report_epoch_is_last_epoch_run_witness :
  let s := Toy.flow_on Toy.overfit_task (Toy.toy_args true true false 5 1) in
  exists m s',
    train s = Ok (Report m 2, s') /\
    (0 <= 2 < max_epoch s)%Z /\
    exists evs,
      log s' = log s ++ evs /\
      epochs_of evs = epoch_range (2 + 1) /\
      ((2 + 1 < max_epoch s)%Z -> EvEarlyStop 2 ∈ evs).
Proof.
  intros s. set (o := train s).
  evaluate o (NoResult : TrainResult Toy.backend, s) E.
  set (v := value_of o _) in E.
  assert (Hb : match v.1 with Report _ e => (e =? 2)%Z | _ => false end = true)
    by (vm_compute; reflexivity).
  clearbody v. destruct v as [[ids y|m e|] s']; try discriminate Hb.
  apply Z.eqb_eq in Hb as ->.
  exists m, s'. split; [exact E |].
  exact (X17_report_epoch_is_last_epoch_run s m 2 s' E).
Defined.

Lemma X18_test_report_shape_witness :
  let s := Toy.flow (Toy.toy_args false true false 2 1) in
  exists m e s',
    train s = Ok (Report m e, s') /\
    prediction_flag (args s) = false /\
    test_flag (args s) = true /\
    (forall k, is_Some (m !! k) <-> k ∈ ["valid"; "test"]) /\
    exists loop_evs te,
      log s' = log s ++ loop_evs ++ [EvLoadModel (model s')] ++ te
               ++ [EvTestInfo] /\
      Forall loop_ev loop_evs /\
      Forall (eval_ev (model s')) te.
Proof.
  intros s. set (o := train s).
  evaluate o (NoResult : TrainResult Toy.backend, s) E.
  set (v := value_of o _) in E.
  assert (Hb : match v.1 with Report _ _ => true | _ => false end = true)
    by (vm_compute; reflexivity).
  clearbody v. destruct v as [[ids y|m e|] s']; try discriminate Hb.
  exists m, e, s'. split; [exact E |].
  exact (X18_test_report_shape s m e s' E).
Defined.

Lemma X26_full_batch_run_ignores_the_random_source_witness :
  let s := Toy.flow (Toy.toy_args false true false 3 1) in
  (forall r, train (set_rng r s) = with_rng r (train s)) /\
  (forall a s', train s = Ok (a, s') -> rng s' = rng s).
Proof.
  intros s. apply (X26_full_batch_run_ignores_the_random_source s).
  reflexivity.
Defined.

Lemma X19_mini_train_step_sequential_updates_witness :
  let s := Toy.flow (Toy.toy_args true true false 3 1) in
  let ld := Toy.loader [0; 1; 2] 2 in
  let run := sgd_pass (model s) (optimizer s) (labels s) (ld (rng s)).1 in
  exists v s',
    _mini_train_step s = Ok (v, s') /\
    (v == Qmean run.1.*2)%Q /\
    (model s', optimizer s') = run.2 /\
    training s' = true /\
    rng s' = (ld (rng s)).2 /\
    config s' = config s /\
    log s' = log s
             ++ flat_map (fun q => [EvForward q.1 true; EvUpdate q.2]) run.1.
Proof.
  intros s ld.
  apply (X19_mini_train_step_sequential_updates s ld).
  - reflexivity.
  - discriminate.
  - unfold in_range. vm_compute. repeat constructor.
Defined.

Lemma X25_failures_of_a_constructed_flow_witness :
  let a := Toy.toy_args false true false 3 0 in
  let s := Toy.flow a in
  train s = Raise ZeroDivisionError /\
  run_failure ZeroDivisionError /\
  ((0 < max_epoch s)%Z -> ZeroDivisionError <> NameError "epoch").
Proof.
  intros a s.
  assert (E : train s = Raise ZeroDivisionError) by (vm_compute; reflexivity).
  split; [exact E |].
  apply (X25_failures_of_a_constructed_flow a Toy.toy_task s);
    [reflexivity | exact E].
Defined.

Lemma X28_what_the_stopper_is_given_witness :
  let s := Toy.flow (Toy.toy_args false true false 3 1) in
  exists r s',
    train s = Ok (r, s') /\
    exists evs,
      log s' = log s ++ evs /\
      forall v p b,
        (v, p, b) ∈ consultations evs ->
        if use_mini s then
          exists ld r0,
            val_loader s = Some ld /\
            v = pass_last_loss p (labels s) (ld r0).1
        else
          loss_of s (forward_full p false) (valid_idx s) = Some v.
Proof.
  intros s. set (o := train s).
  evaluate o (NoResult : TrainResult Toy.backend, s) E.
  eexists _, _. split; [exact E |].
  exact (X28_what_the_stopper_is_given s _ _ E).
Defined.

Lemma X27_constructed_flow_trains_witness :
  let a := Toy.toy_args true true true 3 1 in
  init a Toy.toy_task = Ok (Toy.flow a) /\
  exists r s', train (Toy.flow a) = Ok (r, s').
Proof.
  intros a. split; [reflexivity |].
  apply (X27_constructed_flow_trains a Toy.toy_task (Toy.flow a)).
  - reflexivity.
  - discriminate.
  - reflexivity.
  - intros p tr. reflexivity.
  - cbn. repeat constructor.
  - intros _ idx Hin. cbn in Hin.
    apply elem_of_cons in Hin as [->|Hin];
      [apply toy_loader_ok; [done | cbn; repeat constructor] |].
    apply elem_of_cons in Hin as [->|Hin];
      [apply toy_loader_ok; [done | cbn; repeat constructor] |].
    apply list_elem_of_singleton in Hin as ->.
    apply toy_loader_ok; [done | cbn; repeat constructor].
  - intros _ idx r [= <-]. by apply (toy_loader_nonempty [6; 7; 8]).
  - reflexivity.
Defined.

Lemma X24_evaluation_leaves_parameters_untouched_witness :
  let s := Toy.flow (Toy.toy_args true true true 3 1) in
  (exists r s', _full_test_step ["valid"] s = Ok (r, s') /\
                left_in_eval_mode s s') /\
  (exists r s', _mini_test_step ["valid"] s = Ok (r, s') /\
                left_in_eval_mode s s') /\
  (exists r s', _full_prediction_step s = Ok (r, s') /\
                left_in_eval_mode s s') /\
  (exists r s', _mini_prediction_step s = Ok (r, s') /\
                left_in_eval_mode s s').
Proof.
  intros s.
  destruct (X24_evaluation_leaves_parameters_untouched s)
    as (H1 & H2 & H3 & H4).
  split; [| split; [| split]].
  - set (o := _full_test_step ["valid"] s).
    evaluate o ((∅ : gmap string Toy.Score_t, ∅ : gmap string Q), s) E.
    eexists _, _. split; [exact E | exact (H1 _ _ _ E)].
  - set (o := _mini_test_step ["valid"] s).
    evaluate o ((∅ : gmap string Toy.Score_t, ∅ : gmap string Q), s) E.
    eexists _, _. split; [exact E | exact (H2 _ _ _ E)].
  - set (o := _full_prediction_step s).
    evaluate o ([] : list Row, s) E.
    eexists _, _. split; [exact E | exact (H3 _ _ E)].
  - set (o := _mini_prediction_step s).
    evaluate o (([] : list node, [] : list Row), s) E.
    eexists _, _. split; [exact E | exact (H4 _ _ E)].
Defined.

Lemma X29_updates_follow_training_passes_witness :
  let s := Toy.flow (Toy.toy_args true true false 3 1) in
  exists r s',
    train s = Ok (r, s') /\
    exists evs,
      log s' = log s ++ evs /\
      (forall i p, evs !! i = Some (EvForward p true) ->
                   exists l, evs !! S i = Some (EvUpdate l)) /\
      (forall i l, evs !! i = Some (EvUpdate l) ->
                   exists j p, i = S j /\ evs !! j = Some (EvForward p true)).
Proof.
  intros s. set (o := train s).
  evaluate o (NoResult : TrainResult Toy.backend, s) E.
  eexists _, _. split; [exact E |].
  exact (X29_updates_follow_training_passes s _ _ E).
Defined.
